(** * bnb2: candle windows, indicator alignment, signal detection, trade sizing

    A shallow embedding of the computational core of the trading dashboard:

    - [binanceService]   : the [Candle] record, the request of [placeOrder];
    - [indicatorService] : [calculateIndicators], [calculateFibonacciLevels];
    - [strategyService]  : [checkSignals], as a function on values and as
                           a computation on a heap of objects;
    - [riskService]      : [calculateTradeSetup];
    - [settingsService]  : [loadSettings], [saveSettings];
    - [aiService]        : the reading of the model's answer in
                           [analyzeMarketWithAI];
    - [App]              : the history load, the rolling candle window of
                           the websocket callback, the signal feed, alert log
                           and active trade written by [processCandles], the
                           chart data, the trend readings and the order of
                           [handleExecuteTrade].

    A JavaScript [number] is an IEEE 754 binary64 value: it is modelled by
    Rocq's primitive [float], whose operations are the same binary64
    operations (round to nearest, ties to even; infinities; NaN; signed
    zeros), so that every definition below evaluates as the source does.
    Candle times are integral millisecond timestamps and are modelled by
    [Z].  The [technicalindicators] package is external: the pipeline is
    parametric in it, and a reference instance is given for evaluation.
    [JSON.parse], [JSON.stringify], [toFixed] and the date formatter are
    library code too and enter as section variables.

    The second half states and proves the properties: the signal detector
    (sentinel, readiness, MACD crossover, RSI guard, determinism), the candle
    window, the signal feed, the alignment of snapshots, the Fibonacci levels
    and, on top of the rounding behaviour of binary64 products, sums and
    differences, the trade levels; then the session state along the
    callbacks, the conditions of a BUY and of a SELL, the strict trade levels
    and the order that is placed, the settings and the model's answer. *)

From Stdlib Require Import ZArith List Bool String Ascii Lia.
From Stdlib Require Import Floats DecimalString Sorted.
Import ListNotations.

Set Warnings "-inexact-float".

Local Open Scope float_scope.

(* ================================================================== *)
(** ** JavaScript primitives used by the sources *)
(* ================================================================== *)

Module JS.

(** [a > b] on numbers. *)
Definition gtb (a b : float) : bool := PrimFloat.ltb b a.

(** ToBoolean on a number: [+0], [-0] and [NaN] are falsy. *)
Definition truthy (x : float) : bool :=
  negb (PrimFloat.eqb x 0) && negb (PrimFloat.is_nan x).

(** [a || d] where [a] is an optional number. *)
Definition or_default (o : option float) (d : float) : float :=
  match o with
  | Some x => if truthy x then x else d
  | None => d
  end.

(** [arr[i]]: [undefined] outside [0 .. length-1]. *)
Definition index {A : Type} (l : list A) (i : Z) : option A :=
  if (i <? 0)%Z then None else nth_error l (Z.to_nat i).

(** [arr.length] as an integer. *)
Definition len {A : Type} (l : list A) : Z := Z.of_nat (List.length l).

(** [arr.slice(-n)] for a positive literal [n]: the last [n] elements,
    the whole array when it is shorter. *)
Definition slice_last {A : Type} (n : nat) (l : list A) : list A :=
  skipn (List.length l - n) l.

(** [arr.slice(0, n)]. *)
Definition slice_first {A : Type} (n : nat) (l : list A) : list A :=
  firstn n l.

(** [s.includes(sub)]. *)
Definition includes (s sub : string) : bool :=
  match String.index 0 sub s with
  | Some _ => true
  | None => false
  end.

(** Template-literal rendering of an integral number. *)
Definition string_of_time (t : Z) : string :=
  NilZero.string_of_int (Z.to_int t).

(** [arr.map((x, i) => f(x, i))]. *)
Fixpoint mapi_from {A B : Type} (f : A -> nat -> B) (i : nat) (l : list A)
  : list B :=
  match l with
  | [] => []
  | x :: tl => f x i :: mapi_from f (S i) tl
  end.

Definition mapi {A B : Type} (f : A -> nat -> B) (l : list A) : list B :=
  mapi_from f 0 l.

(** The TypeScript postfix [!] is erased at run time: an absent value flows
    on as [undefined], which every numeric comparison reads as NaN. *)
Definition non_null (o : option float) : float :=
  match o with
  | Some x => x
  | None => nan
  end.

(** ToBoolean on a string: only the empty string is falsy. *)
Definition truthy_string (s : string) : bool :=
  match s with
  | EmptyString => false
  | String _ _ => true
  end.

End JS.

Notation "a >? b" := (JS.gtb a b) (at level 70, no associativity) : float_scope.

(* ================================================================== *)
(** ** binanceService: candles *)
(* ================================================================== *)

Module Candle.
Record t : Set := mk {
  time : Z;
  open : float;
  high : float;
  low : float;
  close : float;
  volume : float;
  isFinal : bool
}.
End Candle.

(* ================================================================== *)
(** ** indicatorService *)
(* ================================================================== *)

Module Macd.
Record t : Set := mk {
  macd : float;
  signal : float;
  histogram : float
}.
End Macd.

Module Bollinger.
Record t : Set := mk {
  upper : float;
  middle : float;
  lower : float
}.
End Bollinger.

Module IndicatorData.
Record t : Set := mk {
  time : Z;
  ema7 : option float;
  ema25 : option float;
  ema99 : option float;
  rsi : option float;
  macd : option Macd.t;
  bb : option Bollinger.t
}.
End IndicatorData.

(** Result rows of the external [technicalindicators] package, as the
    call sites in [calculateIndicators] read them. *)
Module MACDOutput.
Record t : Set := mk {
  MACD : option float;
  signal : option float;
  histogram : option float
}.
End MACDOutput.

Module BollingerBandsOutput.
Record t : Set := mk {
  middle : float;
  upper : float;
  lower : float
}.
End BollingerBandsOutput.

(** The four entry points of the external [technicalindicators] package that
    [calculateIndicators] calls.  The package is not part of the repository;
    the pipeline is parametric in it. *)
Class TechnicalIndicators : Type := {
  EMA_calculate : nat -> list float -> list float;
  RSI_calculate : nat -> list float -> list float;
  MACD_calculate : nat -> nat -> nat -> list float -> list MACDOutput.t;
  BollingerBands_calculate :
    nat -> float -> list float -> list BollingerBandsOutput.t
}.

Module FibonacciLevels.
(** The object literal keyed by the ratios 0, 0.236, 0.382, 0.5, 0.618,
    0.786 and 1. *)
Record t : Set := mk {
  r0 : float;
  r0236 : float;
  r0382 : float;
  r05 : float;
  r0618 : float;
  r0786 : float;
  r1 : float
}.
End FibonacciLevels.

Module IndicatorService.

Section Pipeline.
Context {TI : TechnicalIndicators}.

Definition snapshot (ema7 ema25 ema99 rsi : list float)
    (macd : list MACDOutput.t) (bb : list BollingerBandsOutput.t)
    (time : Z) (i : nat) : IndicatorData.t :=
  {| IndicatorData.time := time;
     (* EMA 7 (offset by 6) *)
     IndicatorData.ema7 :=
       if 6 <=? i then nth_error ema7 (i - 6) else None;
     (* EMA 25 (offset by 24) *)
     IndicatorData.ema25 :=
       if 24 <=? i then nth_error ema25 (i - 24) else None;
     (* EMA 99 (offset by 98) *)
     IndicatorData.ema99 :=
       if 98 <=? i then nth_error ema99 (i - 98) else None;
     (* RSI 14 (offset by 14) *)
     IndicatorData.rsi :=
       if 14 <=? i then nth_error rsi (i - 14) else None;
     IndicatorData.macd :=
       let macdIndex := (Z.of_nat i - (26 + 9 - 2))%Z in
       if (0 <=? macdIndex)%Z then
         match JS.index macd macdIndex with
         | Some m =>
             Some {| Macd.macd := JS.non_null (MACDOutput.MACD m);
                     Macd.signal := JS.non_null (MACDOutput.signal m);
                     Macd.histogram :=
                       JS.non_null (MACDOutput.histogram m) |}
         | None => None
         end
       else None;
     IndicatorData.bb :=
       let bbIndex := (Z.of_nat i - 19)%Z in
       if (0 <=? bbIndex)%Z then
         match JS.index bb bbIndex with
         | Some b =>
             Some {| Bollinger.upper := BollingerBandsOutput.upper b;
                     Bollinger.middle := BollingerBandsOutput.middle b;
                     Bollinger.lower := BollingerBandsOutput.lower b |}
         | None => None
         end
       else None |}%nat.

Definition calculateIndicators (candles : list Candle.t)
  : list IndicatorData.t :=
  let closes := map Candle.close candles in
  let times := map Candle.time candles in
  let ema7 := EMA_calculate 7 closes in
  let ema25 := EMA_calculate 25 closes in
  let ema99 := EMA_calculate 99 closes in
  let rsi := RSI_calculate 14 closes in
  let macd := MACD_calculate 12 26 9 closes in
  let bb := BollingerBands_calculate 20 2 closes in
  JS.mapi (snapshot ema7 ema25 ema99 rsi macd bb) times.

End Pipeline.

(** One step of the [forEach] loop that tracks the running extremes. *)
Definition scan (hl : float * float) (c : Candle.t) : float * float :=
  let (high, low) := hl in
  (if Candle.high c >? high then Candle.high c else high,
   if Candle.low c <? low then Candle.low c else low).

Definition extremes (candles : list Candle.t) : float * float :=
  fold_left scan candles (neg_infinity, infinity).

Definition calculateFibonacciLevels (candles : list Candle.t)
  : option FibonacciLevels.t :=
  match candles with
  | [] => None
  | _ :: _ =>
      let (high, low) := extremes candles in
      let diff := high - low in
      Some {| FibonacciLevels.r0 := high;
              FibonacciLevels.r0236 := high - 0.236 * diff;
              FibonacciLevels.r0382 := high - 0.382 * diff;
              FibonacciLevels.r05 := high - 0.5 * diff;
              FibonacciLevels.r0618 := high - 0.618 * diff;
              FibonacciLevels.r0786 := high - 0.786 * diff;
              FibonacciLevels.r1 := low |}
  end.

End IndicatorService.

(* ================================================================== *)
(** ** strategyService *)
(* ================================================================== *)

Inductive SignalType : Set := BUY | SELL | NONE.

Definition SignalType_eqb (a b : SignalType) : bool :=
  match a, b with
  | BUY, BUY | SELL, SELL | NONE, NONE => true
  | _, _ => false
  end.

Module Signal.
Record t : Set := mk {
  type : SignalType;
  price : float;
  time : Z;
  reason : string
}.
End Signal.

Module StrategyService.

(** The object literal returned on every "no signal" path. *)
Definition none : Signal.t :=
  {| Signal.type := NONE; Signal.price := 0; Signal.time := 0%Z;
     Signal.reason := EmptyString |}.

(** 1. Trend: price above EMA 99 (permissive when EMA 99 is falsy). *)
Definition isUpTrend (currentPrice : float) (cur : IndicatorData.t) : bool :=
  match IndicatorData.ema99 cur with
  | Some e99 => if JS.truthy e99 then currentPrice >? e99 else true
  | None => true
  end.

(** 2. EMA alignment, 7 > 25 > 99. *)
Definition emasAligned (cur : IndicatorData.t) : bool :=
  match IndicatorData.ema7 cur, IndicatorData.ema25 cur,
        IndicatorData.ema99 cur with
  | Some e7, Some e25, Some e99 =>
      JS.truthy e7 && JS.truthy e25 && JS.truthy e99 &&
      (e7 >? e25) && (e25 >? e99)
  | _, _, _ => false
  end.

Definition emasAlignedBearish (cur : IndicatorData.t) : bool :=
  match IndicatorData.ema7 cur, IndicatorData.ema25 cur,
        IndicatorData.ema99 cur with
  | Some e7, Some e25, Some e99 =>
      JS.truthy e7 && JS.truthy e25 && JS.truthy e99 &&
      (e7 <? e25) && (e25 <? e99)
  | _, _, _ => false
  end.

(** 3. Momentum: MACD crossing its signal line on this step. *)
Definition macdBullishCrossover (cur prev : IndicatorData.t) : bool :=
  match IndicatorData.macd cur, IndicatorData.macd prev with
  | Some c, Some p =>
      (Macd.macd p <? Macd.signal p) && (Macd.macd c >? Macd.signal c)
  | _, _ => false
  end.

Definition macdBearishCrossover (cur prev : IndicatorData.t) : bool :=
  match IndicatorData.macd cur, IndicatorData.macd prev with
  | Some c, Some p =>
      (Macd.macd p >? Macd.signal p) && (Macd.macd c <? Macd.signal c)
  | _, _ => false
  end.

(** 4. Fibonacci proximity, 0.5% relative tolerance. *)
Definition tolerance : float := 0.005.

Definition near (currentPrice level : float) : bool :=
  abs (currentPrice - level) / level <? tolerance.

Definition nearFibSupport (currentPrice : float)
    (fibLevels : option FibonacciLevels.t) : bool :=
  match fibLevels with
  | Some f =>
      existsb (near currentPrice)
        [FibonacciLevels.r0618 f; FibonacciLevels.r05 f;
         FibonacciLevels.r0382 f]
  | None => false
  end.

Definition nearFibResistance (currentPrice : float)
    (fibLevels : option FibonacciLevels.t) : bool :=
  match fibLevels with
  | Some f =>
      existsb (near currentPrice)
        [FibonacciLevels.r0236 f; FibonacciLevels.r0 f]
  | None => false
  end.

(** 5. RSI guard against extreme overbought / oversold readings. *)
Definition rsiVal (cur : IndicatorData.t) : float :=
  JS.or_default (IndicatorData.rsi cur) 50.

Definition isRsiSafeBuy (cur : IndicatorData.t) : bool := rsiVal cur <? 70.

Definition isRsiSafeSell (cur : IndicatorData.t) : bool := rsiVal cur >? 30.

(** 6. Volume confirmation against the mean of the last 20 candles. *)
Definition avgVolume (candles : list Candle.t) : float :=
  fold_left (fun acc c => acc + Candle.volume c)
            (JS.slice_last 20 candles) 0 / 20.

Definition isHighVolume (last : Candle.t) (candles : list Candle.t) : bool :=
  Candle.volume last >? avgVolume candles * 1.1.

Definition checkSignals (candles : list Candle.t)
    (indicators : list IndicatorData.t) : Signal.t :=
  if (JS.len candles <? 100)%Z then none else
  match JS.index candles (JS.len candles - 1) with
  | None => none (* not reached: the window holds at least 100 candles *)
  | Some last =>
    let currentPrice := Candle.close last in
    match JS.index indicators (JS.len indicators - 1),
          JS.index indicators (JS.len indicators - 2) with
    | Some currentIndicator, Some prevIndicator =>
      let fibLevels :=
        IndicatorService.calculateFibonacciLevels
          (JS.slice_last 100 candles) in
      let upTrend := isUpTrend currentPrice currentIndicator in
      let aligned := emasAligned currentIndicator in
      let alignedBearish := emasAlignedBearish currentIndicator in
      let bull := macdBullishCrossover currentIndicator prevIndicator in
      let bear := macdBearishCrossover currentIndicator prevIndicator in
      let support := nearFibSupport currentPrice fibLevels in
      let resistance := nearFibResistance currentPrice fibLevels in
      let safeBuy := isRsiSafeBuy currentIndicator in
      let safeSell := isRsiSafeSell currentIndicator in
      let highVolume := isHighVolume last candles in
      if upTrend && aligned && bull && support && safeBuy && highVolume then
        {| Signal.type := BUY; Signal.price := currentPrice;
           Signal.time := Candle.time last;
           Signal.reason :=
             "Convergencia: EMA(7>25>99) + MACD + Fib Soporte + RSI"%string |}
      else if upTrend && aligned && bull && safeBuy && highVolume
              && negb resistance then
        {| Signal.type := BUY; Signal.price := currentPrice;
           Signal.time := Candle.time last;
           Signal.reason :=
             "Convergencia: EMA(7>25>99) + MACD Bullish + RSI OK"%string |}
      else if negb upTrend && alignedBearish && bear && resistance
              && safeSell && highVolume then
        {| Signal.type := SELL; Signal.price := currentPrice;
           Signal.time := Candle.time last;
           Signal.reason :=
             "Convergencia: EMA(7<25<99) + MACD + Fib Resistencia + Vol"%string |}
      else if negb upTrend && alignedBearish && bear && safeSell
              && highVolume && negb support then
        {| Signal.type := SELL; Signal.price := currentPrice;
           Signal.time := Candle.time last;
           Signal.reason :=
             "Convergencia: EMA(7<25<99) + MACD Bearish + Volumen"%string |}
      else none
    | _, _ => none
    end
  end.

End StrategyService.

(* ================================================================== *)
(** ** strategyService on the heap *)
(* ================================================================== *)

(** [checkSignals] once more, this time with the objects it is handed as
    what they are at run time: references into a heap that every other piece
    of code can write to.  Arrays hold references to candle and snapshot
    objects; [slice] and the object and array literals allocate; the [high]
    and [low] variables that the [forEach] callback of
    [calculateFibonacciLevels] assigns are cells of their own.  The nested
    [macd] and [bb] objects of a snapshot are kept inline. *)

Module Heap.

Definition loc : Set := nat.

Inductive cell : Set :=
| CandleObject (c : Candle.t)
| SnapshotObject (d : IndicatorData.t)
| ArrayObject (items : list loc)
| NumberArray (items : list float)
| NumberCell (x : float)
| LevelsObject (f : FibonacciLevels.t)
| SignalObject (s : Signal.t).

(** Location [n] is the [n]-th object that was allocated. *)
Definition heap : Set := list cell.

(** A computation reads and writes the heap and returns a value, or throws
    ([None]). *)
Definition M (A : Type) : Type := heap -> option (A * heap).

Definition ret {A : Type} (a : A) : M A := fun h => Some (a, h).

Definition bind {A B : Type} (m : M A) (f : A -> M B) : M B :=
  fun h =>
    match m h with
    | Some (a, h') => f a h'
    | None => None
    end.

Definition throw {A : Type} : M A := fun _ => None.

Definition alloc (c : cell) : M loc :=
  fun h => Some (List.length h, h ++ [c]).

Definition read (l : loc) : M cell :=
  fun h =>
    match nth_error h l with
    | Some c => Some (c, h)
    | None => None
    end.

Fixpoint update (h : heap) (l : loc) (c : cell) : heap :=
  match h, l with
  | [], _ => []
  | _ :: rest, O => c :: rest
  | x :: rest, S l' => x :: update rest l' c
  end.

Definition write (l : loc) (c : cell) : M unit :=
  fun h =>
    match nth_error h l with
    | Some _ => Some (tt, update h l c)
    | None => None
    end.

Notation "x <- m ;; f" := (bind m (fun x => f))
  (at level 61, m at next level, right associativity).

Notation "m ;;; f" := (bind m (fun _ => f))
  (at level 61, right associativity).

End Heap.

Module Stateful.
Import Heap.

(** [arr.length]. *)
Definition lengthOf (arr : loc) : M Z :=
  c <- read arr ;;
  match c with
  | ArrayObject items => ret (JS.len items)
  | _ => throw
  end.

(** [arr[i]]: [undefined] outside the array. *)
Definition itemAt (arr : loc) (i : Z) : M (option loc) :=
  c <- read arr ;;
  match c with
  | ArrayObject items => ret (JS.index items i)
  | _ => throw
  end.

(** [arr.slice(-n)]: a new array with the last [n] references. *)
Definition sliceLast (n : nat) (arr : loc) : M loc :=
  c <- read arr ;;
  match c with
  | ArrayObject items => alloc (ArrayObject (JS.slice_last n items))
  | _ => throw
  end.

(** Reading the fields of a candle; a [TypeError] on [undefined]. *)
Definition candleOf (o : option loc) : M Candle.t :=
  match o with
  | Some l =>
      c <- read l ;;
      match c with
      | CandleObject x => ret x
      | _ => throw
      end
  | None => throw
  end.

(** Reading the fields of a snapshot. *)
Definition snapshotOf (l : loc) : M IndicatorData.t :=
  c <- read l ;;
  match c with
  | SnapshotObject d => ret d
  | _ => throw
  end.

Definition numberOf (l : loc) : M float :=
  c <- read l ;;
  match c with
  | NumberCell x => ret x
  | _ => throw
  end.

Definition numbersOf (l : loc) : M (list float) :=
  c <- read l ;;
  match c with
  | NumberArray xs => ret xs
  | _ => throw
  end.

Definition levelsOf (l : loc) : M FibonacciLevels.t :=
  c <- read l ;;
  match c with
  | LevelsObject f => ret f
  | _ => throw
  end.

(** [items.forEach(f)]. *)
Fixpoint forEach (f : loc -> M unit) (items : list loc) : M unit :=
  match items with
  | [] => ret tt
  | l :: rest => f l ;;; forEach f rest
  end.

(** [items.reduce((acc, c) => f(acc, c), init)]. *)
Fixpoint reduce {A : Type} (f : A -> loc -> M A) (items : list loc)
    (init : A) : M A :=
  match items with
  | [] => ret init
  | l :: rest => acc <- f init l ;; reduce f rest acc
  end.

(** The callback of the [forEach] in [calculateFibonacciLevels]:
    [c => { if (c.high > high) high = c.high;
            if (c.low < low) low = c.low; }]. *)
Definition track (high low : loc) (l : loc) : M unit :=
  c <- candleOf (Some l) ;;
  h <- numberOf high ;;
  (if Candle.high c >? h then write high (NumberCell (Candle.high c))
   else ret tt) ;;;
  c' <- candleOf (Some l) ;;
  lo <- numberOf low ;;
  (if Candle.low c' <? lo then write low (NumberCell (Candle.low c'))
   else ret tt).

Definition calculateFibonacciLevels (candles : loc) : M (option loc) :=
  len <- lengthOf candles ;;
  if (len =? 0)%Z then ret None else
  (* let high = -Infinity; let low = Infinity; *)
  high <- alloc (NumberCell neg_infinity) ;;
  low <- alloc (NumberCell infinity) ;;
  arr <- read candles ;;
  match arr with
  | ArrayObject items =>
      forEach (track high low) items ;;;
      h <- numberOf high ;;
      l <- numberOf low ;;
      let diff := h - l in
      r <- alloc (LevelsObject
                    {| FibonacciLevels.r0 := h;
                       FibonacciLevels.r0236 := h - 0.236 * diff;
                       FibonacciLevels.r0382 := h - 0.382 * diff;
                       FibonacciLevels.r05 := h - 0.5 * diff;
                       FibonacciLevels.r0618 := h - 0.618 * diff;
                       FibonacciLevels.r0786 := h - 0.786 * diff;
                       FibonacciLevels.r1 := l |}) ;;
      ret (Some r)
  | _ => throw
  end.

(** [{ type: ..., price: currentPrice,
       time: candles[candles.length - 1].time, reason: ... }]. *)
Definition answer (candles : loc) (type : SignalType) (currentPrice : float)
    (reason : string) : M loc :=
  len <- lengthOf candles ;;
  last <- itemAt candles (len - 1) ;;
  c <- candleOf last ;;
  alloc (SignalObject
           {| Signal.type := type; Signal.price := currentPrice;
              Signal.time := Candle.time c; Signal.reason := reason |}).

(** The block guarded by [if (fibLevels)]: the two array literals and the
    [some] tests; both flags stay [false] without levels. *)
Definition proximity (currentPrice : float) (fibLevels : option loc)
  : M (bool * bool) :=
  match fibLevels with
  | Some fibLevels =>
      f <- levelsOf fibLevels ;;
      supportLevels <-
        alloc (NumberArray [FibonacciLevels.r0618 f;
                            FibonacciLevels.r05 f;
                            FibonacciLevels.r0382 f]) ;;
      f' <- levelsOf fibLevels ;;
      resistanceLevels <-
        alloc (NumberArray [FibonacciLevels.r0236 f';
                            FibonacciLevels.r0 f']) ;;
      supports <- numbersOf supportLevels ;;
      resistances <- numbersOf resistanceLevels ;;
      ret (existsb (StrategyService.near currentPrice) supports,
           existsb (StrategyService.near currentPrice) resistances)
  | None => ret (false, false)
  end.

Definition checkSignals (candles indicators : loc) : M loc :=
  len <- lengthOf candles ;;
  if (len <? 100)%Z then alloc (SignalObject StrategyService.none) else
  (* const currentPrice = candles[candles.length - 1].close; *)
  len1 <- lengthOf candles ;;
  last <- itemAt candles (len1 - 1) ;;
  lastCandle <- candleOf last ;;
  let currentPrice := Candle.close lastCandle in
  (* const currentIndicator = indicators[indicators.length - 1]; *)
  ilen1 <- lengthOf indicators ;;
  cur <- itemAt indicators (ilen1 - 1) ;;
  (* const prevIndicator = indicators[indicators.length - 2]; *)
  ilen2 <- lengthOf indicators ;;
  prev <- itemAt indicators (ilen2 - 2) ;;
  match cur, prev with
  | Some cur, Some prev =>
      (* 1. - 3. trend, alignment, MACD crossover *)
      currentIndicator <- snapshotOf cur ;;
      prevIndicator <- snapshotOf prev ;;
      let upTrend := StrategyService.isUpTrend currentPrice currentIndicator in
      let aligned := StrategyService.emasAligned currentIndicator in
      let alignedBearish :=
        StrategyService.emasAlignedBearish currentIndicator in
      let bull :=
        StrategyService.macdBullishCrossover currentIndicator prevIndicator in
      let bear :=
        StrategyService.macdBearishCrossover currentIndicator prevIndicator in
      (* 4. const fibLevels = calculateFibonacciLevels(candles.slice(-100)) *)
      recent <- sliceLast 100 candles ;;
      fibLevels <- calculateFibonacciLevels recent ;;
      near <- proximity currentPrice fibLevels ;;
      let support := fst near in
      let resistance := snd near in
      (* 5. const rsiVal = currentIndicator.rsi || 50 *)
      currentIndicator' <- snapshotOf cur ;;
      let safeBuy := StrategyService.isRsiSafeBuy currentIndicator' in
      let safeSell := StrategyService.isRsiSafeSell currentIndicator' in
      (* 6. const currentVolume = candles[candles.length - 1].volume *)
      len2 <- lengthOf candles ;;
      last2 <- itemAt candles (len2 - 1) ;;
      lastCandle2 <- candleOf last2 ;;
      let currentVolume := Candle.volume lastCandle2 in
      (* const avgVolume =
           candles.slice(-20).reduce((acc, c) => acc + c.volume, 0) / 20 *)
      latest <- sliceLast 20 candles ;;
      arr <- read latest ;;
      total <-
        match arr with
        | ArrayObject items =>
            reduce (fun acc l =>
                      c <- candleOf (Some l) ;; ret (acc + Candle.volume c))
                   items 0
        | _ => throw
        end ;;
      let avgVolume := total / 20 in
      let highVolume := currentVolume >? avgVolume * 1.1 in
      if upTrend && aligned && bull && support && safeBuy && highVolume then
        answer candles BUY currentPrice
          "Convergencia: EMA(7>25>99) + MACD + Fib Soporte + RSI"
      else if upTrend && aligned && bull && safeBuy && highVolume
              && negb resistance then
        answer candles BUY currentPrice
          "Convergencia: EMA(7>25>99) + MACD Bullish + RSI OK"
      else if negb upTrend && alignedBearish && bear && resistance
              && safeSell && highVolume then
        answer candles SELL currentPrice
          "Convergencia: EMA(7<25<99) + MACD + Fib Resistencia + Vol"
      else if negb upTrend && alignedBearish && bear && safeSell
              && highVolume && negb support then
        answer candles SELL currentPrice
          "Convergencia: EMA(7<25<99) + MACD Bearish + Volumen"
      else alloc (SignalObject StrategyService.none)
  | _, _ => alloc (SignalObject StrategyService.none)
  end.

(** What a caller sees through a reference: the contents of an array of
    candles, of an array of snapshots, and the fields of a returned signal. *)
Fixpoint collect {A : Type} (f : loc -> option A) (items : list loc)
  : option (list A) :=
  match items with
  | [] => Some []
  | l :: rest =>
      match f l, collect f rest with
      | Some a, Some tl => Some (a :: tl)
      | _, _ => None
      end
  end.

Definition candleAt (h : heap) (l : loc) : option Candle.t :=
  match nth_error h l with
  | Some (CandleObject c) => Some c
  | _ => None
  end.

Definition snapshotAt (h : heap) (l : loc) : option IndicatorData.t :=
  match nth_error h l with
  | Some (SnapshotObject d) => Some d
  | _ => None
  end.

Definition candlesAt (h : heap) (arr : loc) : option (list Candle.t) :=
  match nth_error h arr with
  | Some (ArrayObject items) => collect (candleAt h) items
  | _ => None
  end.

Definition snapshotsAt (h : heap) (arr : loc)
  : option (list IndicatorData.t) :=
  match nth_error h arr with
  | Some (ArrayObject items) => collect (snapshotAt h) items
  | _ => None
  end.

Definition signalAt (h : heap) (l : loc) : option Signal.t :=
  match nth_error h l with
  | Some (SignalObject s) => Some s
  | _ => None
  end.

(** The heap a call leaves behind (the heap it started in when it throws),
    and the signal a caller reads through the returned reference. *)
Definition heapAfter {A : Type} (m : M A) (h : heap) : heap :=
  match m h with
  | Some (_, h') => h'
  | None => h
  end.

Definition returned (m : M loc) (h : heap) : option Signal.t :=
  match m h with
  | Some (r, h') => signalAt h' r
  | None => None
  end.

End Stateful.

(* ================================================================== *)
(** ** riskService *)
(* ================================================================== *)

Module RiskParams.
Record t : Set := mk {
  accountBalance : float;
  riskPerTradePercentage : float;
  stopLossPercentage : float;
  takeProfitPercentage : float
}.
End RiskParams.

Module TradeSetup.
Record t : Set := mk {
  entryPrice : float;
  stopLoss : float;
  takeProfit : float;
  positionSize : float;
  riskAmount : float
}.
End TradeSetup.

Inductive Side : Set := SideBUY | SideSELL.

Module RiskService.

Definition calculateTradeSetup (entryPrice : float) (params : RiskParams.t)
    (side : Side) : TradeSetup.t :=
  let accountBalance := RiskParams.accountBalance params in
  let riskPerTradePercentage := RiskParams.riskPerTradePercentage params in
  let stopLossPercentage := RiskParams.stopLossPercentage params in
  let takeProfitPercentage := RiskParams.takeProfitPercentage params in
  let riskAmount := accountBalance * riskPerTradePercentage in
  let '(stopLoss, takeProfit) :=
    match side with
    | SideBUY => (entryPrice * (1 - stopLossPercentage),
                  entryPrice * (1 + takeProfitPercentage))
    | SideSELL => (entryPrice * (1 + stopLossPercentage),
                   entryPrice * (1 - takeProfitPercentage))
    end in
  let priceDiff := abs (entryPrice - stopLoss) in
  let positionSize := riskAmount / priceDiff in
  {| TradeSetup.entryPrice := entryPrice;
     TradeSetup.stopLoss := stopLoss;
     TradeSetup.takeProfit := takeProfit;
     TradeSetup.positionSize := positionSize;
     TradeSetup.riskAmount := riskAmount |}.

End RiskService.

(* ================================================================== *)
(** ** binanceService: orders *)
(* ================================================================== *)

Inductive OrderType : Set := LIMIT | MARKET.

Module OrderRequest.
Record t : Set := mk {
  symbol : string;
  side : Side;
  quantity : string;
  price : option string;
  type : OrderType
}.
End OrderRequest.

Module BinanceService.

(** The request [placeOrder] passes to [client.order]: a LIMIT order when a
    price was given and is not the empty string, a MARKET order without a
    price field otherwise. *)
Definition placeOrder (symbol : string) (side : Side) (quantity : string)
    (price : option string) : OrderRequest.t :=
  match price with
  | Some p =>
      if JS.truthy_string p then
        {| OrderRequest.symbol := symbol; OrderRequest.side := side;
           OrderRequest.quantity := quantity; OrderRequest.price := Some p;
           OrderRequest.type := LIMIT |}
      else
        {| OrderRequest.symbol := symbol; OrderRequest.side := side;
           OrderRequest.quantity := quantity; OrderRequest.price := None;
           OrderRequest.type := MARKET |}
  | None =>
      {| OrderRequest.symbol := symbol; OrderRequest.side := side;
         OrderRequest.quantity := quantity; OrderRequest.price := None;
         OrderRequest.type := MARKET |}
  end.

End BinanceService.

(* ================================================================== *)
(** ** App: candle window, signal feed, alert log *)
(* ================================================================== *)

Module AlertHistoryItem.
Record t : Set := mk {
  id : string;
  timestamp : Z;
  interval : string;
  type : SignalType;
  price : float;
  reason : string
}.
End AlertHistoryItem.

Module TimeframeState.
Record t : Set := mk {
  candles : list Candle.t;
  indicators : list IndicatorData.t;
  lastSignal : option Signal.t
}.
End TimeframeState.

Module App.

Definition INTERVALS : list string :=
  ["5m"; "15m"; "1h"; "4h"; "1d"]%string.

(** What the [processCandles] closure reads besides its arguments: the
    chart's interval, the parsed USDT balance (or its 1000 fallback) and the
    configured risk per trade, each as it was when the closure was made.
    The websocket callbacks are made by [init], whose effect depends on
    [settings.defaultSymbol] only: they keep the [processCandles] of that
    render, so for them these are the values at subscription (on mount: the
    interval '1h' and, no balance being loaded yet, the 1000 fallback), not
    the interval the chart displays or the balance shown later. *)
Record Env : Set := mkEnv {
  activeInterval : string;
  accountBalance : float;
  riskPerTrade : float
}.

(** The pieces of React state the core writes. *)
Record State : Type := mkState {
  timeframes : string -> TimeframeState.t;
  signals : list Signal.t;
  alertHistory : list AlertHistoryItem.t;
  activeTrade : option TradeSetup.t
}.

Definition emptyTimeframe : TimeframeState.t :=
  {| TimeframeState.candles := []; TimeframeState.indicators := [];
     TimeframeState.lastSignal := None |}.

Definition initial : State :=
  {| timeframes := fun _ => emptyTimeframe; signals := [];
     alertHistory := []; activeTrade := None |}.

(** [{ ...prev, [interval]: v }]. *)
Definition setTimeframe (prev : string -> TimeframeState.t)
    (interval : string) (v : TimeframeState.t) : string -> TimeframeState.t :=
  fun k => if String.eqb k interval then v else prev k.

(** The window update of the websocket callback: overwrite the last candle
    when the incoming one carries the same time, otherwise push and drop the
    oldest once the length passes 400. *)
Definition applyCandle (current : list Candle.t) (newCandle : Candle.t)
  : list Candle.t :=
  let updated := current in
  if (0 <? JS.len updated)%Z &&
     match JS.index updated (JS.len updated - 1) with
     | Some l => (Candle.time l =? Candle.time newCandle)%Z
     | None => false
     end
  then removelast updated ++ [newCandle]
  else
    let updated := updated ++ [newCandle] in
    if (400 <? JS.len updated)%Z then tl updated else updated.

(** [prev.length > 0 && prev[prev.length - 1].time === signal.time &&
     prev[prev.length - 1].reason.includes(interval)]. *)
Definition isDuplicate (prev : list Signal.t) (interval : string)
    (signal : Signal.t) : bool :=
  (0 <? JS.len prev)%Z &&
  match JS.index prev (JS.len prev - 1) with
  | Some l =>
      (Signal.time l =? Signal.time signal)%Z &&
      JS.includes (Signal.reason l) interval
  | None => false
  end.

(** The [setSignals] updater of [processCandles], together with the alert
    log and active trade it writes, for a signal that is not NONE. *)
Definition recordSignal (env : Env) (interval : string) (signal : Signal.t)
    (st : State) : State :=
  let prev := signals st in
  if isDuplicate prev interval signal then st else
  let signalWithInterval :=
    {| Signal.type := Signal.type signal;
       Signal.price := Signal.price signal;
       Signal.time := Signal.time signal;
       Signal.reason :=
         ("[" ++ interval ++ "] " ++ Signal.reason signal)%string |} in
  let alertItem :=
    {| AlertHistoryItem.id :=
         (interval ++ "-" ++ JS.string_of_time (Signal.time signal))%string;
       AlertHistoryItem.timestamp := Signal.time signal;
       AlertHistoryItem.interval := interval;
       AlertHistoryItem.type := Signal.type signal;
       AlertHistoryItem.price := Signal.price signal;
       AlertHistoryItem.reason := Signal.reason signal |} in
  let trade :=
    if String.eqb interval (activeInterval env) then
      let tradeRisk :=
        {| RiskParams.accountBalance := accountBalance env;
           RiskParams.riskPerTradePercentage := riskPerTrade env;
           RiskParams.stopLossPercentage := 0.015;
           RiskParams.takeProfitPercentage := 0.045 |} in
      Some (RiskService.calculateTradeSetup (Signal.price signal) tradeRisk
              (if SignalType_eqb (Signal.type signal) BUY
               then SideBUY else SideSELL))
    else activeTrade st in
  {| timeframes := timeframes st;
     signals := JS.slice_last 20 (prev ++ [signalWithInterval]);
     alertHistory := JS.slice_first 50 (alertItem :: alertHistory st);
     activeTrade := trade |}.

Section WithIndicators.
Context {TI : TechnicalIndicators}.

Definition processCandles (env : Env) (interval : string)
    (newCandles : list Candle.t) (st : State) : State :=
  let indicators := IndicatorService.calculateIndicators newCandles in
  let signal := StrategyService.checkSignals newCandles indicators in
  let isSignal := negb (SignalType_eqb (Signal.type signal) NONE) in
  let st1 :=
    {| timeframes :=
         setTimeframe (timeframes st) interval
           {| TimeframeState.candles := newCandles;
              TimeframeState.indicators := indicators;
              TimeframeState.lastSignal :=
                if isSignal then Some signal
                else TimeframeState.lastSignal (timeframes st interval) |};
       signals := signals st;
       alertHistory := alertHistory st;
       activeTrade := activeTrade st |} in
  if isSignal then recordSignal env interval signal st1 else st1.

(** The websocket callback registered for [interval]. *)
Definition onCandle (env : Env) (interval : string)
    (newCandle : Candle.t) (st : State) : State :=
  let prev := timeframes st in
  let current := TimeframeState.candles (prev interval) in
  let updated := applyCandle current newCandle in
  let indicators := IndicatorService.calculateIndicators updated in
  let signal := StrategyService.checkSignals updated indicators in
  let st1 :=
    {| timeframes :=
         setTimeframe prev interval
           {| TimeframeState.candles := updated;
              TimeframeState.indicators := indicators;
              TimeframeState.lastSignal :=
                TimeframeState.lastSignal (prev interval) |};
       signals := signals st;
       alertHistory := alertHistory st;
       activeTrade := activeTrade st |} in
  if Candle.isFinal newCandle
     || negb (SignalType_eqb (Signal.type signal) NONE)
  then processCandles env interval updated st1
  else st1.

End WithIndicators.

(** A run of detections reaching the session, oldest first. *)
Definition recordAll (env : Env) (detections : list (string * Signal.t))
    (st : State) : State :=
  fold_left (fun s d => recordSignal env (fst d) (snd d) s) detections st.

(** A run of candles applied to one window, oldest first. *)
Definition applyAll (window : list Candle.t) (incoming : list Candle.t)
  : list Candle.t :=
  fold_left applyCandle incoming window.

(** The history load of [init]: every fetched interval gets its candles, the
    indicators derived from them and no last signal; the other slots of the
    state captured by the effect are kept. *)
Definition loadHistory {TI : TechnicalIndicators}
    (timeframes : string -> TimeframeState.t)
    (results : list (string * list Candle.t)) : string -> TimeframeState.t :=
  fold_left
    (fun newState r =>
       let '(interval, hist) := r in
       let indicators := IndicatorService.calculateIndicators hist in
       setTimeframe newState interval
         {| TimeframeState.candles := hist;
            TimeframeState.indicators := indicators;
            TimeframeState.lastSignal := None |})
    results timeframes.

(** [init] up to the subscription: [fetch] stands for the resolved
    [fetchHistoricalCandles(symbol, interval, 250)] of each interval. *)
Definition init {TI : TechnicalIndicators}
    (fetch : string -> list Candle.t) (st : State) : State :=
  let results := map (fun interval => (interval, fetch interval)) INTERVALS in
  {| timeframes := loadHistory (timeframes st) results;
     signals := signals st;
     alertHistory := alertHistory st;
     activeTrade := activeTrade st |}.

(** The [fibLevels] memo of the panel and of the chart's reference lines. *)
Definition fibLevels (activeData : TimeframeState.t)
  : option FibonacciLevels.t :=
  if (JS.len (TimeframeState.candles activeData) <? 100)%Z then None
  else IndicatorService.calculateFibonacciLevels
         (JS.slice_last 100 (TimeframeState.candles activeData)).

(** [activeData?.candles[activeData.candles.length - 1]?.close || 0]. *)
Definition currentPrice (activeData : TimeframeState.t) : float :=
  let candles := TimeframeState.candles activeData in
  JS.or_default
    (option_map Candle.close (JS.index candles (JS.len candles - 1))) 0.

(** The trend badge: "Alcista" when
    [(indicators[indicators.length - 1]?.ema99 || 0) < currentPrice]. *)
Definition trendBadgeUp (activeData : TimeframeState.t) : bool :=
  let indicators := TimeframeState.indicators activeData in
  JS.or_default
    (match JS.index indicators (JS.len indicators - 1) with
     | Some d => IndicatorData.ema99 d
     | None => None
     end) 0
  <? currentPrice activeData.

(** The [trend] entry of the market data that [handleConsultAI] sends:
    [lastIndicator.ema99 < lastCandle.close ? "ALCISTA" : "BAJISTA"]; a
    missing EMA compares as NaN. *)
Definition aiTrend (lastIndicator : IndicatorData.t) (lastCandle : Candle.t)
  : string :=
  if JS.non_null (IndicatorData.ema99 lastIndicator) <? Candle.close lastCandle
  then "ALCISTA"%string else "BAJISTA"%string.

(** The side [handleExecuteTrade] reads back from the active trade:
    [activeTrade.entryPrice > activeTrade.stopLoss ? 'BUY' : 'SELL']. *)
Definition orderSide (activeTrade : TradeSetup.t) : Side :=
  if TradeSetup.entryPrice activeTrade >? TradeSetup.stopLoss activeTrade
  then SideBUY else SideSELL.

(** One point of the chart. *)
Record ChartPoint : Set := mkChartPoint {
  chartTime : string;
  chartPrice : float;
  chartVolume : float;
  chartEma7 : option float;
  chartEma25 : option float;
  chartEma99 : option float
}.

Section Rendering.
(** [format] of date-fns and [Number.prototype.toFixed] are library code. *)
Variable format : Z -> string -> string.
Variable toFixed : float -> Z -> string.

(** [indicators[i]?.field]. *)
Definition fieldAt (indicators : list IndicatorData.t) (i : nat)
    (field : IndicatorData.t -> option float) : option float :=
  match nth_error indicators i with
  | Some d => field d
  | None => None
  end.

(** The [chartData] memo. *)
Definition chartData (activeInterval : string)
    (activeData : TimeframeState.t) : list ChartPoint :=
  let indicators := TimeframeState.indicators activeData in
  JS.slice_last 100
    (JS.mapi
       (fun c i =>
          {| chartTime :=
               format (Candle.time c)
                 (if String.eqb activeInterval "1d"
                  then "dd MMM" else "HH:mm")%string;
             chartPrice := Candle.close c;
             chartVolume := Candle.volume c;
             chartEma7 := fieldAt indicators i IndicatorData.ema7;
             chartEma25 := fieldAt indicators i IndicatorData.ema25;
             chartEma99 := fieldAt indicators i IndicatorData.ema99 |})
       (TimeframeState.candles activeData)).

(** The order [handleExecuteTrade] places, if any: none without an active
    trade or without an API key; otherwise [placeOrder] is called with the
    symbol, the side read back from the trade, the position size to four
    decimals and no price. *)
Definition handleExecuteTrade (apiKey defaultSymbol : string)
    (activeTrade : option TradeSetup.t)
  : option OrderRequest.t :=
  match activeTrade with
  | None => None
  | Some trade =>
      if negb (JS.truthy_string apiKey) then None
      else Some (BinanceService.placeOrder defaultSymbol (orderSide trade)
                   (toFixed (TradeSetup.positionSize trade) 4) None)
  end.

End Rendering.

End App.

(* ================================================================== *)
(** ** JSON values and objects *)
(* ================================================================== *)

Module Json.

#[local] Set Warnings "-register-all".

Inductive t : Set :=
| Null
| Bool (b : bool)
| Number (x : float)
| Str (s : string)
| Array (items : list t)
| Object (fields : list (string * t)).

(** A JavaScript object: its own enumerable properties, read by the first
    entry that carries the key. *)
Definition obj : Set := list (string * t).

Fixpoint lookup (k : string) (o : obj) : option t :=
  match o with
  | [] => None
  | (k', v) :: rest => if String.eqb k k' then Some v else lookup k rest
  end.

(** The keys ["0"], ["1"], ... of an array or a string. *)
Definition key_of_nat (i : nat) : string :=
  NilZero.string_of_uint (Nat.to_uint i).

Fixpoint chars (s : string) : list t :=
  match s with
  | EmptyString => []
  | String c rest => Str (String c EmptyString) :: chars rest
  end.

(** The own enumerable properties that a spread [...v] copies: none for
    [null], a boolean or a number, the indexed characters of a string, the
    indexed items of an array, the fields of an object. *)
Definition ownProps (v : t) : obj :=
  match v with
  | Null | Bool _ | Number _ => []
  | Str s => JS.mapi (fun c i => (key_of_nat i, c)) (chars s)
  | Array items => JS.mapi (fun x i => (key_of_nat i, x)) items
  | Object fields => fields
  end.

(** [{ ...base, ...v }]: the properties of [v] shadow those of [base]. *)
Definition spread (base : obj) (v : t) : obj := ownProps v ++ base.

End Json.

(* ================================================================== *)
(** ** settingsService *)
(* ================================================================== *)

Module SettingsService.

Definition STORAGE_KEY : string := "bnb_trader_settings".

Definition defaultSettings : Json.obj :=
  [("apiKey", Json.Str EmptyString);
   ("apiSecret", Json.Str EmptyString);
   ("geminiApiKey", Json.Str EmptyString);
   ("riskPerTrade", Json.Number 0.02);
   ("defaultSymbol", Json.Str "BNBUSDT");
   ("defaultInterval", Json.Str "1h");
   ("isTestnet", Json.Bool true)]%string.

(** [localStorage]: the stored string of each key, if any. *)
Definition Storage : Set := string -> option string.

Definition getItem (storage : Storage) (key : string) : option string :=
  storage key.

Definition setItem (storage : Storage) (key value : string) : Storage :=
  fun k => if String.eqb k key then Some value else storage k.

Section Builtins.
(** [JSON.parse] ([None] when it throws) and [JSON.stringify]. *)
Variable parse : string -> option Json.t.
Variable stringify : Json.t -> string.

Definition loadSettings (storage : Storage) : Json.obj :=
  match getItem storage STORAGE_KEY with
  | Some saved =>
      if JS.truthy_string saved then
        match parse saved with
        | Some v => Json.spread defaultSettings v
        | None => defaultSettings
        end
      else defaultSettings
  | None => defaultSettings
  end.

Definition saveSettings (settings : Json.obj) (storage : Storage) : Storage :=
  setItem storage STORAGE_KEY (stringify (Json.Object settings)).

End Builtins.

End SettingsService.

(* ================================================================== *)
(** ** aiService: reading the model's answer *)
(* ================================================================== *)

Module AiService.

Definition isOpen (c : ascii) : bool := Ascii.eqb c "{"%char.
Definition isClose (c : ascii) : bool := Ascii.eqb c "}"%char.

(** The longest prefix of [s] that ends with a closing brace: what the greedy
    [[\s\S]*\}] matches at the start of [s]. *)
Fixpoint throughLastClose (s : string) : option string :=
  match s with
  | EmptyString => None
  | String c rest =>
      match throughLastClose rest with
      | Some r => Some (String c r)
      | None => if isClose c then Some (String c EmptyString) else None
      end
  end.

(** [text.match(/\{[\s\S]*\}/)]: the match at the leftmost position where
    the pattern matches, i.e. from an opening brace through the last closing
    brace after it. *)
Fixpoint matchJson (text : string) : option string :=
  match text with
  | EmptyString => None
  | String c rest =>
      if isOpen c then
        match throughLastClose rest with
        | Some r => Some (String c r)
        | None => matchJson rest
        end
      else matchJson rest
  end.

Inductive Failure : Set :=
| InvalidFormat   (* Error("Formato de respuesta inválido") *)
| ParseFailure    (* JSON.parse threw *)
| NullAnswer.     (* property read on null *)

Module AIAnalysisResult.
Record t : Set := mk {
  analysis : option Json.t;
  sentiment : option Json.t;
  confidence : option Json.t;
  timestamp : Z
}.
End AIAnalysisResult.

Section Builtins.
Variable parse : string -> option Json.t.

(** [parsed.key]: a [TypeError] on [null], [undefined] when absent. *)
Definition field (parsed : Json.t) (key : string)
  : option (option Json.t) :=
  match parsed with
  | Json.Null => None
  | _ => Some (Json.lookup key (Json.ownProps parsed))
  end.

(** The part of [analyzeMarketWithAI] after the model has answered [text],
    [now] being [Date.now()]. *)
Definition readAnswer (text : string) (now : Z)
  : AIAnalysisResult.t + Failure :=
  match matchJson text with
  | None => inr InvalidFormat
  | Some json =>
      match parse json with
      | None => inr ParseFailure
      | Some parsed =>
          match field parsed "analysis", field parsed "sentiment",
                field parsed "confidence" with
          | Some a, Some s, Some c =>
              inl {| AIAnalysisResult.analysis := a;
                     AIAnalysisResult.sentiment := s;
                     AIAnalysisResult.confidence := c;
                     AIAnalysisResult.timestamp := now |}
          | _, _, _ => inr NullAnswer
          end
      end
  end.

End Builtins.

End AiService.

(* ================================================================== *)
(** ** A reference instance of the indicator package *)
(* ================================================================== *)

Module ReferenceIndicators.

Definition of_nat (n : nat) : float :=
  PrimFloat.of_uint63 (Uint63.of_Z (Z.of_nat n)).

Definition sum (l : list float) : float := fold_left PrimFloat.add l 0.

Definition mean (p : nat) (l : list float) : float := sum l / of_nat p.

Fixpoint ema_from (k prev : float) (l : list float) : list float :=
  match l with
  | [] => []
  | c :: tl =>
      let e := c * k + prev * (1 - k) in
      e :: ema_from k e tl
  end.

(** Modelled from the spec: the EMA of the external [technicalindicators]
    package, which is not under src/.  EMA(p) is undefined for index < p-1,
    seeded with the simple moving average of the first p closes, then
    [ema[i] = close[i]*k + ema[i-1]*(1-k)] with [k = 2/(p+1)]. *)
Definition EMA (p : nat) (values : list float) : list float :=
  if (List.length values <? p)%nat then []
  else
    let seed := mean p (firstn p values) in
    seed :: ema_from (2 / (of_nat p + 1)) seed (skipn p values).

Fixpoint changes (prev : float) (l : list float) : list float :=
  match l with
  | [] => []
  | c :: tl => (c - prev) :: changes c tl
  end.

Definition gain (d : float) : float := if d >? 0 then d else 0.
Definition loss (d : float) : float := if d <? 0 then - d else 0.

(** Modelled from the spec: the RSI reading of the external
    [technicalindicators] package from the average gain and loss, a value in
    [0, 100]; a series that never moved has neither gains nor losses and
    reads as the neutral 50. *)
Definition rsi_of (avgGain avgLoss : float) : float :=
  if (avgGain =? 0) && (avgLoss =? 0) then 50
  else 100 - 100 / (1 + avgGain / avgLoss).

Fixpoint wilder (p : float) (avgGain avgLoss : float) (ds : list float)
  : list float :=
  match ds with
  | [] => []
  | d :: tl =>
      let g := (avgGain * (p - 1) + gain d) / p in
      let l := (avgLoss * (p - 1) + loss d) / p in
      rsi_of g l :: wilder p g l tl
  end.

(** Modelled from the spec: the RSI of the external [technicalindicators]
    package, which is not under src/.  RSI(p) is undefined for index < p and
    uses Wilder smoothing of average gains and losses. *)
Definition RSI (p : nat) (values : list float) : list float :=
  match values with
  | [] => []
  | v0 :: rest =>
      let ds := changes v0 rest in
      if (List.length ds <? p)%nat then []
      else
        let g := mean p (map gain (firstn p ds)) in
        let l := mean p (map loss (firstn p ds)) in
        rsi_of g l :: wilder (of_nat p) g l (skipn p ds)
  end.

Fixpoint windows (p : nat) (l : list float) : list (list float) :=
  match l with
  | [] => []
  | _ :: tl =>
      if (p <=? List.length l)%nat then firstn p l :: windows p tl else []
  end.

Definition band (p : nat) (stdDev : float) (w : list float)
  : BollingerBandsOutput.t :=
  let m := mean p w in
  let sd := sqrt (mean p (map (fun x => (x - m) * (x - m)) w)) in
  {| BollingerBandsOutput.middle := m;
     BollingerBandsOutput.upper := m + stdDev * sd;
     BollingerBandsOutput.lower := m - stdDev * sd |}.

(** Modelled from the spec: the Bollinger bands of the external
    [technicalindicators] package, which is not under src/.  Undefined for
    index < p-1; the p-period simple moving average plus and minus
    [stdDev] standard deviations of the trailing p closes. *)
Definition BollingerBands (p : nat) (stdDev : float) (values : list float)
  : list BollingerBandsOutput.t :=
  map (band p stdDev) (windows p values).

Definition macdRow (ms : float * float) : MACDOutput.t :=
  {| MACDOutput.MACD := Some (fst ms);
     MACDOutput.signal := Some (snd ms);
     MACDOutput.histogram := Some (fst ms - snd ms) |}.

(** Modelled from the spec: the MACD of the external [technicalindicators]
    package, which is not under src/.  The MACD line is the fast EMA minus
    the slow EMA; the signal line is the EMA of the MACD line; a row exists
    once the slow EMA and the signal EMA are both defined, that is from
    index [slow + signal - 2] of the series. *)
Definition MACD (fast slow signal : nat) (values : list float)
  : list MACDOutput.t :=
  let fastEma := EMA fast values in
  let slowEma := EMA slow values in
  let line :=
    map (fun fs => fst fs - snd fs)
        (combine (skipn (slow - fast) fastEma) slowEma) in
  let signalEma := EMA signal line in
  map macdRow (combine (skipn (signal - 1) line) signalEma).

#[export] Instance reference : TechnicalIndicators :=
  {| EMA_calculate := EMA;
     RSI_calculate := RSI;
     MACD_calculate := MACD;
     BollingerBands_calculate := BollingerBands |}.

End ReferenceIndicators.

(* ================================================================== *)
(** * Properties *)
(* ================================================================== *)

(** ** Ordering of binary64 values *)

Module FloatOrder.

Definition is_number (x : spec_float) : bool :=
  match x with
  | S754_nan => false
  | _ => true
  end.

Ltac order_cases :=
  repeat match goal with
    | s : bool |- _ => destruct s
    end;
  cbn;
  repeat match goal with
    | |- context [(?a ?= ?b)%Z] =>
        destruct (Z.compare_spec a b); cbn
    | |- context [PosDef.Pos.compare_cont Eq ?a ?b] =>
        change (PosDef.Pos.compare_cont Eq a b) with (Pos.compare a b);
        destruct (Pos.compare_spec a b); cbn
    end;
  intros; try reflexivity; try discriminate; try lia.

Lemma SFleb_trans (a b c : spec_float) :
  SFleb a b = true -> SFleb b c = true -> SFleb a c = true.
Proof. unfold SFleb; destruct a, b, c; order_cases. Qed.

Lemma SFltb_SFleb (a b : spec_float) : SFltb a b = true -> SFleb a b = true.
Proof.
  unfold SFltb, SFleb; destruct (SFcompare a b) as [[]|]; congruence.
Qed.

Lemma SFleb_total (a b : spec_float) :
  is_number a = true -> is_number b = true ->
  SFltb b a = false -> SFleb a b = true.
Proof. unfold SFltb, SFleb; destruct a, b; order_cases. Qed.

Lemma SFleb_refl (a : spec_float) : is_number a = true -> SFleb a a = true.
Proof. unfold SFleb; destruct a; order_cases. Qed.

Lemma is_nan_number (x : float) :
  PrimFloat.is_nan x = negb (is_number (Prim2SF x)).
Proof.
  unfold PrimFloat.is_nan. rewrite eqb_spec. unfold SFeqb.
  destruct (Prim2SF x); order_cases.
Qed.

(** The same facts on primitive floats. *)

Lemma leb_trans (a b c : float) :
  (a <=? b) = true -> (b <=? c) = true -> (a <=? c) = true.
Proof. rewrite !leb_spec. apply SFleb_trans. Qed.

Lemma ltb_leb (a b : float) : (a <? b) = true -> (a <=? b) = true.
Proof. rewrite ltb_spec, leb_spec. apply SFltb_SFleb. Qed.

Lemma not_ltb_leb (a b : float) :
  PrimFloat.is_nan a = false -> PrimFloat.is_nan b = false ->
  (b <? a) = false -> (a <=? b) = true.
Proof.
  rewrite !is_nan_number, ltb_spec, leb_spec. intros Ha Hb.
  apply SFleb_total; now apply negb_false_iff.
Qed.

Lemma leb_refl (a : float) : PrimFloat.is_nan a = false -> (a <=? a) = true.
Proof.
  rewrite is_nan_number, leb_spec. intros Ha.
  apply SFleb_refl. now apply negb_false_iff.
Qed.

Lemma leb_number_l (a b : float) :
  (a <=? b) = true -> PrimFloat.is_nan a = false.
Proof.
  rewrite leb_spec, is_nan_number. unfold SFleb.
  destruct (Prim2SF a); cbn; congruence.
Qed.

End FloatOrder.

(** ** Signal detection *)

Module StrategyFacts.
Import StrategyService.

(** What a BUY or SELL answer tells about the inputs. *)
Record fired (candles : list Candle.t) (indicators : list IndicatorData.t)
    (last : Candle.t) (cur prev : IndicatorData.t) : Prop := {
  fired_len : (100 <= JS.len candles)%Z;
  fired_last : JS.index candles (JS.len candles - 1) = Some last;
  fired_cur : JS.index indicators (JS.len indicators - 1) = Some cur;
  fired_prev : JS.index indicators (JS.len indicators - 2) = Some prev
}.

(** Every path through [checkSignals] either returns the sentinel or one of
    the four BUY / SELL literals, the latter only past both guards and with
    the EMA-alignment and MACD-crossover predicates of its side. *)
Lemma checkSignals_shape (candles : list Candle.t)
    (indicators : list IndicatorData.t) :
  checkSignals candles indicators = none \/
  exists last cur prev,
    fired candles indicators last cur prev /\
    Signal.price (checkSignals candles indicators) = Candle.close last /\
    Signal.time (checkSignals candles indicators) = Candle.time last /\
    ((Signal.type (checkSignals candles indicators) = BUY /\
      emasAligned cur = true /\ macdBullishCrossover cur prev = true) \/
     (Signal.type (checkSignals candles indicators) = SELL /\
      emasAlignedBearish cur = true /\
      macdBearishCrossover cur prev = true)).
Proof.
  unfold checkSignals.
  destruct (JS.len candles <? 100)%Z eqn:Hlen; [now left|].
  destruct (JS.index candles (JS.len candles - 1)) as [last|] eqn:Hlast;
    [|now left].
  destruct (JS.index indicators (JS.len indicators - 1)) as [cur|] eqn:Hcur;
    [|now left].
  destruct (JS.index indicators (JS.len indicators - 2)) as [prev|] eqn:Hprev;
    [|now left].
  cbv zeta.
  assert (Hf : fired candles indicators last cur prev).
  { constructor; auto. apply Z.ltb_ge in Hlen. exact Hlen. }
  repeat match goal with
  | |- context [if ?b then _ else _] =>
      let E := fresh "E" in destruct b eqn:E
  end; try (now left); right; exists last, cur, prev;
  repeat rewrite andb_true_iff in *; cbn; intuition auto.
Qed.

(** The branch of [checkSignals] that has no last candle is dead code. *)
Lemma last_candle_exists (candles : list Candle.t) :
  (100 <= JS.len candles)%Z ->
  exists last, JS.index candles (JS.len candles - 1) = Some last.
Proof.
  unfold JS.index, JS.len. intros H.
  destruct (Z.of_nat (List.length candles) - 1 <? 0)%Z eqn:E.
  - apply Z.ltb_lt in E. lia.
  - destruct (nth_error candles (Z.to_nat (Z.of_nat (List.length candles) - 1)))
      as [c|] eqn:N; [now exists c|].
    apply nth_error_None in N. lia.
Qed.

Lemma emasAligned_defined (cur : IndicatorData.t) :
  emasAligned cur = true ->
  IndicatorData.ema7 cur <> None /\ IndicatorData.ema25 cur <> None /\
  IndicatorData.ema99 cur <> None.
Proof.
  unfold emasAligned.
  destruct (IndicatorData.ema7 cur), (IndicatorData.ema25 cur),
    (IndicatorData.ema99 cur); intros H; try discriminate;
    repeat split; discriminate.
Qed.

Lemma emasAlignedBearish_defined (cur : IndicatorData.t) :
  emasAlignedBearish cur = true ->
  IndicatorData.ema7 cur <> None /\ IndicatorData.ema25 cur <> None /\
  IndicatorData.ema99 cur <> None.
Proof.
  unfold emasAlignedBearish.
  destruct (IndicatorData.ema7 cur), (IndicatorData.ema25 cur),
    (IndicatorData.ema99 cur); intros H; try discriminate;
    repeat split; discriminate.
Qed.

Lemma macdBullishCrossover_defined (cur prev : IndicatorData.t) :
  macdBullishCrossover cur prev = true ->
  IndicatorData.macd cur <> None /\ IndicatorData.macd prev <> None.
Proof.
  unfold macdBullishCrossover.
  destruct (IndicatorData.macd cur), (IndicatorData.macd prev);
    intros H; try discriminate; split; discriminate.
Qed.

Lemma macdBearishCrossover_defined (cur prev : IndicatorData.t) :
  macdBearishCrossover cur prev = true ->
  IndicatorData.macd cur <> None /\ IndicatorData.macd prev <> None.
Proof.
  unfold macdBearishCrossover.
  destruct (IndicatorData.macd cur), (IndicatorData.macd prev);
    intros H; try discriminate; split; discriminate.
Qed.

End StrategyFacts.

(** *** Worked inputs *)

Module Examples.

Definition candle (time : Z) (high low close volume : float) : Candle.t :=
  {| Candle.time := time; Candle.open := close; Candle.high := high;
     Candle.low := low; Candle.close := close; Candle.volume := volume;
     Candle.isFinal := true |}.

(** Ninety-nine quiet candles ranging over 100..200 and closing at 150,
    followed by one closing at [close] on ten times the volume. *)
Definition windowClosingAt (close : float) : list Candle.t :=
  map (fun i => candle (Z.of_nat i * 60000) 200 100 150 1) (seq 0 99)
  ++ [candle 5940000 200 100 close 10].

(** The last close sits on the 0.5 retracement (150): a support level. *)
Definition window : list Candle.t := windowClosingAt 150.

(** The last close (130) is within 0.5% of no retracement level. *)
Definition windowAwayFromLevels : list Candle.t := windowClosingAt 130.

Definition macdOnly (time : Z) (line signal : float) : IndicatorData.t :=
  {| IndicatorData.time := time;
     IndicatorData.ema7 := None; IndicatorData.ema25 := None;
     IndicatorData.ema99 := None; IndicatorData.rsi := None;
     IndicatorData.macd :=
       Some {| Macd.macd := line; Macd.signal := signal;
               Macd.histogram := line - signal |};
     IndicatorData.bb := None |}.

Definition full (time : Z) (e7 e25 e99 : float) (rsi : option float)
    (line signal : float) : IndicatorData.t :=
  {| IndicatorData.time := time;
     IndicatorData.ema7 := Some e7; IndicatorData.ema25 := Some e25;
     IndicatorData.ema99 := Some e99; IndicatorData.rsi := rsi;
     IndicatorData.macd :=
       Some {| Macd.macd := line; Macd.signal := signal;
               Macd.histogram := line - signal |};
     IndicatorData.bb := None |}.

(** The previous snapshot carries a MACD reading and no EMA at all. *)
Definition prevWithoutEma : IndicatorData.t := macdOnly 5880000 (-1) 0.

Definition curBullish : IndicatorData.t :=
  full 5940000 140 120 100 (Some 55) 1 0.

(** A down-trending reading: EMAs stacked 7 < 25 < 99 above the price. *)
Definition prevBearish : IndicatorData.t := macdOnly 5880000 1 0.

Definition curBearish (rsi : option float) : IndicatorData.t :=
  full 5940000 160 180 190 rsi (-1) 0.

End Examples.

(** *** The sentinel (C10) *)

(** C10: whenever [checkSignals] answers a signal of type NONE -- short
    window, missing snapshot or no rule firing -- the value returned is
    exactly [{ type: NONE, price: 0, time: 0, reason: '' }]; price and time
    are the sentinel 0, never the last candle's close or time. *)
Theorem checkSignals_none_is_sentinel (candles : list Candle.t)
    (indicators : list IndicatorData.t) :
  Signal.type (StrategyService.checkSignals candles indicators) = NONE ->
  StrategyService.checkSignals candles indicators =
    {| Signal.type := NONE; Signal.price := 0; Signal.time := 0%Z;
       Signal.reason := EmptyString |}.
Proof.
  intros Hnone.
  destruct (StrategyFacts.checkSignals_shape candles indicators)
    as [Heq | (last & cur & prev & _ & _ & _ & [[Hty _] | [Hty _]])].
  - exact Heq.
  - rewrite Hty in Hnone. discriminate.
  - rewrite Hty in Hnone. discriminate.
Qed.

(** A 100-candle window on which no rule fires: the answer is the sentinel. *)
Lemma checkSignals_none_is_sentinel_witness :
  StrategyService.checkSignals (Examples.windowClosingAt 130)
    [Examples.prevBearish; Examples.curBearish (Some 25)] =
    {| Signal.type := NONE; Signal.price := 0; Signal.time := 0%Z;
       Signal.reason := EmptyString |}.
Proof.
  apply (checkSignals_none_is_sentinel (Examples.windowClosingAt 130)
           [Examples.prevBearish; Examples.curBearish (Some 25)]).
  vm_compute. reflexivity.
Defined.

(** *** Readiness (C2) *)

Definition hasEma (s : IndicatorData.t) : Prop :=
  IndicatorData.ema7 s <> None /\ IndicatorData.ema25 s <> None /\
  IndicatorData.ema99 s <> None.

Definition hasMacd (s : IndicatorData.t) : Prop :=
  IndicatorData.macd s <> None.

(** Readiness as the claim words it: at least 100 candles, and the latest
    and the preceding snapshot both exist with EMA and MACD fields defined. *)
Definition readyAsStated (candles : list Candle.t)
    (indicators : list IndicatorData.t) : Prop :=
  (100 <= JS.len candles)%Z /\
  exists cur prev,
    JS.index indicators (JS.len indicators - 1) = Some cur /\
    JS.index indicators (JS.len indicators - 2) = Some prev /\
    (hasEma cur /\ hasMacd cur) /\ (hasEma prev /\ hasMacd prev).

(** Readiness as [checkSignals] needs it: the EMA fields are read from the
    latest snapshot only. *)
Definition ready (candles : list Candle.t)
    (indicators : list IndicatorData.t) : Prop :=
  (100 <= JS.len candles)%Z /\
  exists cur prev,
    JS.index indicators (JS.len indicators - 1) = Some cur /\
    JS.index indicators (JS.len indicators - 2) = Some prev /\
    (hasEma cur /\ hasMacd cur) /\ hasMacd prev.

(** C2, as stated, fails: a BUY is returned on a 100-candle window although
    the preceding snapshot has no EMA field. *)
Lemma checkSignals_ignores_previous_ema :
  ~ (Signal.type
       (StrategyService.checkSignals Examples.window
          [Examples.prevWithoutEma; Examples.curBullish]) <> NONE ->
     readyAsStated Examples.window
       [Examples.prevWithoutEma; Examples.curBullish]).
Proof.
  intros H.
  assert (Hty : Signal.type
            (StrategyService.checkSignals Examples.window
               [Examples.prevWithoutEma; Examples.curBullish]) = BUY)
    by (vm_compute; reflexivity).
  assert (R : readyAsStated Examples.window
                [Examples.prevWithoutEma; Examples.curBullish])
    by (apply H; rewrite Hty; discriminate).
  destruct R as (_ & cur & prev & _ & Hprev & _ & (He & _)).
  cbv in Hprev. injection Hprev as <-.
  destruct He as [He _]. apply He. reflexivity.
Qed.

(** C2 (amended): a window of fewer than 100 candles yields the NONE
    sentinel whatever the indicators; and [checkSignals] yields NONE unless
    the window has at least 100 candles, the latest and the preceding snapshot
    both exist, the latest has its three EMA fields and its MACD defined, and
    the preceding one has its MACD defined. *)
Theorem checkSignals_none_unless_ready (candles : list Candle.t)
    (indicators : list IndicatorData.t) :
  ((JS.len candles < 100)%Z ->
   StrategyService.checkSignals candles indicators = StrategyService.none) /\
  (Signal.type (StrategyService.checkSignals candles indicators) <> NONE ->
   ready candles indicators).
Proof.
  split.
  - intros Hlen. unfold StrategyService.checkSignals.
    apply Z.ltb_lt in Hlen. rewrite Hlen. reflexivity.
  - intros Hty.
    destruct (StrategyFacts.checkSignals_shape candles indicators)
      as [Heq | (last & cur & prev & Hf & _ & _ & Hside)].
    + rewrite Heq in Hty. now contradiction Hty.
    + destruct Hf as [Hlen _ Hcur Hprev].
      split; [exact Hlen|]. exists cur, prev.
      split; [exact Hcur|]. split; [exact Hprev|].
      unfold hasMacd, hasEma.
      destruct Hside as [(_ & Ha & Hm) | (_ & Ha & Hm)].
      * apply StrategyFacts.emasAligned_defined in Ha.
        apply StrategyFacts.macdBullishCrossover_defined in Hm.
        tauto.
      * apply StrategyFacts.emasAlignedBearish_defined in Ha.
        apply StrategyFacts.macdBearishCrossover_defined in Hm.
        tauto.
Qed.

(** *** MACD crossover (C4) *)

(** The crossover conditions as the claim words them: the previous MACD line
    at or below (at or above) its signal line. *)
Definition bullishAsStated (c p : Macd.t) : Prop :=
  (Macd.macd p <=? Macd.signal p) = true /\
  (Macd.macd c >? Macd.signal c) = true.

Definition bearishAsStated (c p : Macd.t) : Prop :=
  (Macd.signal p <=? Macd.macd p) = true /\
  (Macd.macd c <? Macd.signal c) = true.

(** The crossover conditions as [checkSignals] tests them: strict on both
    steps. *)
Definition bullishCross (c p : Macd.t) : Prop :=
  (Macd.macd p <? Macd.signal p) = true /\
  (Macd.macd c >? Macd.signal c) = true.

Definition bearishCross (c p : Macd.t) : Prop :=
  (Macd.macd p >? Macd.signal p) = true /\
  (Macd.macd c <? Macd.signal c) = true.

(** C4, as stated, fails: with the previous MACD line equal to its signal
    line (0 and 0) and the current line above it (1 over 0), the stated
    condition holds and [macdBullishCrossover] is false. *)
Lemma macd_touching_is_no_crossover :
  ~ (StrategyService.macdBullishCrossover
       (Examples.macdOnly 60000 1 0) (Examples.macdOnly 0 0 0) = true <->
     bullishAsStated (Macd.mk 1 0 1) (Macd.mk 0 0 0)).
Proof.
  intros [_ H].
  assert (E : StrategyService.macdBullishCrossover
                (Examples.macdOnly 60000 1 0) (Examples.macdOnly 0 0 0)
              = false) by (vm_compute; reflexivity).
  rewrite E in H. discriminate H.
  split; vm_compute; reflexivity.
Qed.

(** C4 (amended): for every pair of snapshots whose MACD fields are both
    defined, [macdBullishCrossover] holds if and only if the previous MACD
    line is strictly below the previous signal line and the current MACD line
    is strictly above the current signal line; [macdBearishCrossover] holds
    if and only if the previous line is strictly above and the current line
    strictly below. *)
Theorem macd_crossover_strict (cur prev : IndicatorData.t) (c p : Macd.t) :
  IndicatorData.macd cur = Some c ->
  IndicatorData.macd prev = Some p ->
  (StrategyService.macdBullishCrossover cur prev = true <-> bullishCross c p)
  /\
  (StrategyService.macdBearishCrossover cur prev = true <-> bearishCross c p).
Proof.
  intros Hc Hp.
  unfold StrategyService.macdBullishCrossover,
    StrategyService.macdBearishCrossover, bullishCross, bearishCross.
  rewrite Hc, Hp. split; apply andb_true_iff.
Qed.

(** The bullish pair of the worked inputs: the line goes from -1 under 0 to 1
    over 0. *)
Lemma macd_crossover_strict_witness :
  (StrategyService.macdBullishCrossover
     Examples.curBullish Examples.prevWithoutEma = true <->
   bullishCross (Macd.mk 1 0 (1 - 0)) (Macd.mk (-1) 0 (-1 - 0)))
  /\
  (StrategyService.macdBearishCrossover
     Examples.curBullish Examples.prevWithoutEma = true <->
   bearishCross (Macd.mk 1 0 (1 - 0)) (Macd.mk (-1) 0 (-1 - 0))).
Proof.
  apply (macd_crossover_strict Examples.curBullish Examples.prevWithoutEma);
    reflexivity.
Defined.

(** *** RSI guard (C8) *)

Lemma rsi_guard_on_usable_reading (cur : IndicatorData.t) (r : float) :
  IndicatorData.rsi cur = Some r -> JS.truthy r = true ->
  StrategyService.isRsiSafeBuy cur = (r <? 70) /\
  StrategyService.isRsiSafeSell cur = (r >? 30).
Proof.
  intros Hr Ht.
  unfold StrategyService.isRsiSafeBuy, StrategyService.isRsiSafeSell,
    StrategyService.rsiVal, JS.or_default.
  rewrite Hr, Ht. split; reflexivity.
Qed.

Lemma rsi_guard_on_missing_reading (cur : IndicatorData.t) :
  IndicatorData.rsi cur = None ->
  StrategyService.rsiVal cur = 50 /\
  StrategyService.isRsiSafeBuy cur = true /\
  StrategyService.isRsiSafeSell cur = true.
Proof.
  intros Hr.
  unfold StrategyService.isRsiSafeBuy, StrategyService.isRsiSafeSell,
    StrategyService.rsiVal, JS.or_default.
  rewrite Hr. repeat split; vm_compute; reflexivity.
Qed.

(** C8: a defined RSI of 0 -- the most oversold reading there is -- is
    replaced by 50: [isRsiSafeSell] holds although 0 > 30 does not.  On the
    same window a SELL goes out at RSI 0 that is withheld at RSI 25. *)
Theorem rsi_zero_read_as_fifty :
  IndicatorData.rsi (Examples.curBearish (Some 0)) = Some 0 /\
  (0 >? 30) = false /\
  StrategyService.rsiVal (Examples.curBearish (Some 0)) = 50 /\
  StrategyService.isRsiSafeSell (Examples.curBearish (Some 0)) = true /\
  Signal.type
    (StrategyService.checkSignals Examples.windowAwayFromLevels
       [Examples.prevBearish; Examples.curBearish (Some 0)]) = SELL /\
  Signal.type
    (StrategyService.checkSignals Examples.windowAwayFromLevels
       [Examples.prevBearish; Examples.curBearish (Some 25)]) = NONE.
Proof. repeat split; vm_compute; reflexivity. Qed.

(** *** Repeated calls (C9) *)

Module HeapFacts.
Import Heap Stateful.

(** A computation returns in [h] having only allocated: every object of [h]
    is where and what it was, [fresh] holds the new ones. *)
Definition allocates {A : Type} (m : M A) (h : heap)
    (post : A -> heap -> Prop) : Prop :=
  exists a fresh, m h = Some (a, h ++ fresh) /\ post a fresh.

Lemma allocates_bind {A B : Type} (m : M A) (f : A -> M B) (h : heap)
    (mid : A -> heap -> Prop) (post : B -> heap -> Prop) :
  allocates m h mid ->
  (forall a fresh, mid a fresh ->
     allocates (f a) (h ++ fresh)
       (fun b fresh' => post b (fresh ++ fresh'))) ->
  allocates (bind m f) h post.
Proof.
  intros (a & fresh & Hm & Hmid) Hf.
  destruct (Hf a fresh Hmid) as (b & fresh' & Hfa & Hpost).
  exists b, (fresh ++ fresh'). split; [|exact Hpost].
  unfold bind. rewrite Hm, Hfa, app_assoc. reflexivity.
Qed.

(** A step that only reads. *)
Lemma allocates_read {A B : Type} (m : M A) (f : A -> M B) (h : heap)
    (a : A) (post : B -> heap -> Prop) :
  m h = Some (a, h) ->
  allocates (f a) h post ->
  allocates (bind m f) h post.
Proof.
  intros Hm (b & fresh & Hf & Hpost).
  exists b, fresh. split; [|exact Hpost].
  unfold bind. rewrite Hm. exact Hf.
Qed.

Lemma allocates_alloc {B : Type} (c : cell) (f : loc -> M B) (h : heap)
    (post : B -> heap -> Prop) :
  allocates (f (List.length h)) (h ++ [c])
    (fun b fresh => post b (c :: fresh)) ->
  allocates (bind (alloc c) f) h post.
Proof.
  intros (b & fresh & Hf & Hpost).
  exists b, (c :: fresh). split; [|exact Hpost].
  unfold bind, alloc. rewrite Hf, <- app_assoc. reflexivity.
Qed.

Lemma allocates_ret {A : Type} (a : A) (h : heap)
    (post : A -> heap -> Prop) :
  post a [] -> allocates (ret a) h post.
Proof.
  intros Hpost. exists a, []. split; [|exact Hpost].
  unfold ret. now rewrite app_nil_r.
Qed.

Lemma allocates_last (c : cell) (h : heap) (post : loc -> heap -> Prop) :
  post (List.length h) [c] -> allocates (alloc c) h post.
Proof. intros Hpost. exists (List.length h), [c]. now split. Qed.

(** *** Objects stay where they are when the heap grows *)

Lemma nth_error_extends (h ext : heap) (l : loc) (c : cell) :
  nth_error h l = Some c -> nth_error (h ++ ext) l = Some c.
Proof.
  intros H. rewrite nth_error_app1; [exact H|].
  apply nth_error_Some. congruence.
Qed.

Lemma nth_error_fresh (h ext : heap) (c : cell) :
  nth_error (h ++ c :: ext) (List.length h) = Some c.
Proof. rewrite nth_error_app2, Nat.sub_diag by lia. reflexivity. Qed.

Lemma candleAt_extends (h ext : heap) (l : loc) (c : Candle.t) :
  candleAt h l = Some c -> candleAt (h ++ ext) l = Some c.
Proof.
  unfold candleAt. intros H.
  destruct (nth_error h l) as [x|] eqn:E; [|discriminate].
  now rewrite (nth_error_extends h ext l x E).
Qed.

Lemma snapshotAt_extends (h ext : heap) (l : loc) (d : IndicatorData.t) :
  snapshotAt h l = Some d -> snapshotAt (h ++ ext) l = Some d.
Proof.
  unfold snapshotAt. intros H.
  destruct (nth_error h l) as [x|] eqn:E; [|discriminate].
  now rewrite (nth_error_extends h ext l x E).
Qed.

Lemma collect_mono {A : Type} (f g : loc -> option A) (items : list loc)
    (xs : list A) :
  (forall l a, f l = Some a -> g l = Some a) ->
  collect f items = Some xs -> collect g items = Some xs.
Proof.
  intros Hfg. revert xs. induction items as [|l rest IH]; intros xs H.
  - exact H.
  - cbn in *. destruct (f l) as [a|] eqn:Ea; [|discriminate].
    destruct (collect f rest) as [tl|]; [|discriminate].
    now rewrite (Hfg l a Ea), (IH tl eq_refl).
Qed.

Lemma candles_extend (h ext : heap) (items : list loc)
    (cs : list Candle.t) :
  collect (candleAt h) items = Some cs ->
  collect (candleAt (h ++ ext)) items = Some cs.
Proof. apply collect_mono. intros l a. apply candleAt_extends. Qed.

(** *** An array of references and its contents *)

Lemma collect_length {A : Type} (f : loc -> option A) (items : list loc)
    (xs : list A) :
  collect f items = Some xs -> List.length items = List.length xs.
Proof.
  revert xs. induction items as [|l rest IH]; intros xs H.
  - now injection H as <-.
  - cbn in H. destruct (f l); [|discriminate].
    destruct (collect f rest) as [tl|]; [|discriminate].
    injection H as <-. cbn. now rewrite (IH tl eq_refl).
Qed.

Lemma collect_len {A : Type} (f : loc -> option A) (items : list loc)
    (xs : list A) :
  collect f items = Some xs -> JS.len items = JS.len xs.
Proof. intros H. unfold JS.len. now rewrite (collect_length f items xs H). Qed.

Lemma collect_nth {A : Type} (f : loc -> option A) (items : list loc)
    (xs : list A) (i : nat) :
  collect f items = Some xs ->
  match nth_error items i with
  | Some l => exists a, f l = Some a /\ nth_error xs i = Some a
  | None => nth_error xs i = None
  end.
Proof.
  revert xs i. induction items as [|l rest IH]; intros xs i H.
  - injection H as <-. now destruct i.
  - cbn in H. destruct (f l) as [a|] eqn:Ea; [|discriminate].
    destruct (collect f rest) as [tl|] eqn:Et; [|discriminate].
    injection H as <-. destruct i as [|i]; cbn.
    + now exists a.
    + apply (IH tl i eq_refl).
Qed.

Lemma collect_index {A : Type} (f : loc -> option A) (items : list loc)
    (xs : list A) (i : Z) :
  collect f items = Some xs ->
  match JS.index items i with
  | Some l => exists a, f l = Some a /\ JS.index xs i = Some a
  | None => JS.index xs i = None
  end.
Proof.
  intros H. unfold JS.index. destruct (i <? 0)%Z; [reflexivity|].
  apply (collect_nth f items xs _ H).
Qed.

Lemma collect_skipn {A : Type} (f : loc -> option A) (n : nat)
    (items : list loc) (xs : list A) :
  collect f items = Some xs ->
  collect f (skipn n items) = Some (skipn n xs).
Proof.
  revert items xs. induction n as [|n IH]; intros items xs H.
  - exact H.
  - destruct items as [|l rest].
    + now injection H as <-.
    + cbn in H. destruct (f l); [|discriminate].
      destruct (collect f rest) as [tl|] eqn:Et; [|discriminate].
      injection H as <-. cbn. now apply IH.
Qed.

Lemma collect_slice_last {A : Type} (f : loc -> option A) (n : nat)
    (items : list loc) (xs : list A) :
  collect f items = Some xs ->
  collect f (JS.slice_last n items) = Some (JS.slice_last n xs).
Proof.
  intros H. unfold JS.slice_last.
  rewrite (collect_length f items xs H). now apply collect_skipn.
Qed.

(** *** The reads *)

Lemma lengthOf_run (h : heap) (arr : loc) (items : list loc) :
  nth_error h arr = Some (ArrayObject items) ->
  lengthOf arr h = Some (JS.len items, h).
Proof. intros H. unfold lengthOf, bind, read. now rewrite H. Qed.

Lemma itemAt_run (h : heap) (arr : loc) (items : list loc) (i : Z) :
  nth_error h arr = Some (ArrayObject items) ->
  itemAt arr i h = Some (JS.index items i, h).
Proof. intros H. unfold itemAt, bind, read. now rewrite H. Qed.

Lemma candleOf_run (h : heap) (l : loc) (c : Candle.t) :
  candleAt h l = Some c -> candleOf (Some l) h = Some (c, h).
Proof.
  unfold candleAt, candleOf, bind, read. intros H.
  destruct (nth_error h l) as [[]|]; try discriminate.
  now injection H as ->.
Qed.

Lemma snapshotOf_run (h : heap) (l : loc) (d : IndicatorData.t) :
  snapshotAt h l = Some d -> snapshotOf l h = Some (d, h).
Proof.
  unfold snapshotAt, snapshotOf, bind, read. intros H.
  destruct (nth_error h l) as [[]|]; try discriminate.
  now injection H as ->.
Qed.

Lemma numberOf_run (h : heap) (l : loc) (x : float) :
  nth_error h l = Some (NumberCell x) -> numberOf l h = Some (x, h).
Proof. intros H. unfold numberOf, bind, read. now rewrite H. Qed.

Lemma numbersOf_run (h : heap) (l : loc) (xs : list float) :
  nth_error h l = Some (NumberArray xs) -> numbersOf l h = Some (xs, h).
Proof. intros H. unfold numbersOf, bind, read. now rewrite H. Qed.

Lemma levelsOf_run (h : heap) (l : loc) (f : FibonacciLevels.t) :
  nth_error h l = Some (LevelsObject f) -> levelsOf l h = Some (f, h).
Proof. intros H. unfold levelsOf, bind, read. now rewrite H. Qed.

Lemma read_run (h : heap) (l : loc) (c : cell) :
  nth_error h l = Some c -> read l h = Some (c, h).
Proof. intros H. unfold read. now rewrite H. Qed.

(** *** The running extremes *)

Lemma update_first (h ext : heap) (c x : cell) :
  update (h ++ c :: ext) (List.length h) x = h ++ x :: ext.
Proof. induction h as [|y h IH]; cbn; [reflexivity|]. now rewrite IH. Qed.

Lemma write_run (h ext : heap) (c x : cell) :
  write (List.length h) x (h ++ c :: ext) = Some (tt, h ++ x :: ext).
Proof. unfold write. now rewrite nth_error_fresh, update_first. Qed.

(** One round of the callback assigns [high] and [low] as [scan] says and
    touches nothing else. *)
Lemma track_run (h : heap) (l : loc) (c : Candle.t) (high low : float) :
  candleAt h l = Some c ->
  track (List.length h) (S (List.length h)) l
        (h ++ [NumberCell high; NumberCell low])
  = Some (tt, h ++ [NumberCell (fst (IndicatorService.scan (high, low) c));
                    NumberCell (snd (IndicatorService.scan (high, low) c))]).
Proof.
  intros Hc.
  assert (Hlow : forall a b,
             nth_error (h ++ [NumberCell a; NumberCell b])
                       (S (List.length h)) = Some (NumberCell b)).
  { intros a b. change (h ++ [NumberCell a; NumberCell b])
      with (h ++ [NumberCell a] ++ [NumberCell b]).
    rewrite app_assoc.
    replace (S (List.length h)) with (List.length (h ++ [NumberCell a]))
      by (rewrite length_app; cbn; lia).
    apply nth_error_fresh. }
  assert (Hwlow : forall a b x,
             write (S (List.length h)) (NumberCell x)
                   (h ++ [NumberCell a; NumberCell b])
             = Some (tt, h ++ [NumberCell a; NumberCell x])).
  { intros a b x. change (h ++ [NumberCell a; NumberCell b])
      with (h ++ [NumberCell a] ++ [NumberCell b]).
    rewrite app_assoc.
    replace (S (List.length h)) with (List.length (h ++ [NumberCell a]))
      by (rewrite length_app; cbn; lia).
    rewrite write_run, <- app_assoc. reflexivity. }
  unfold track, bind.
  rewrite (candleOf_run _ _ _ (candleAt_extends h _ l c Hc)).
  rewrite (numberOf_run _ _ _ (nth_error_fresh h _ _)).
  cbn [IndicatorService.scan fst snd].
  destruct (Candle.high c >? high).
  - rewrite write_run.
    rewrite (candleOf_run _ _ _ (candleAt_extends h _ l c Hc)).
    rewrite (numberOf_run _ _ _ (Hlow _ _)).
    destruct (Candle.low c <? low); [apply Hwlow | reflexivity].
  - unfold ret at 1.
    rewrite (candleOf_run _ _ _ (candleAt_extends h _ l c Hc)).
    rewrite (numberOf_run _ _ _ (Hlow _ _)).
    destruct (Candle.low c <? low); [apply Hwlow | reflexivity].
Qed.

Lemma forEach_track_run (h : heap) (items : list loc) (cs : list Candle.t)
    (high low : float) :
  collect (candleAt h) items = Some cs ->
  forEach (track (List.length h) (S (List.length h))) items
          (h ++ [NumberCell high; NumberCell low])
  = Some (tt, h ++ [NumberCell (fst (fold_left IndicatorService.scan cs
                                       (high, low)));
                    NumberCell (snd (fold_left IndicatorService.scan cs
                                       (high, low)))]).
Proof.
  revert cs high low. induction items as [|l rest IH]; intros cs high low H.
  - injection H as <-. reflexivity.
  - cbn in H. destruct (candleAt h l) as [c|] eqn:Ec; [|discriminate].
    destruct (collect (candleAt h) rest) as [tl|] eqn:Et; [|discriminate].
    injection H as <-. cbn [forEach fold_left]. unfold bind.
    rewrite (track_run h l c high low Ec).
    rewrite (IH tl _ _ eq_refl).
    now destruct (IndicatorService.scan (high, low) c).
Qed.

(** [calculateFibonacciLevels] allocates its two variables and the levels
    object, which holds what the function on values computes. *)
Lemma calculateFibonacciLevels_run (h : heap) (arr : loc)
    (items : list loc) (cs : list Candle.t) :
  nth_error h arr = Some (ArrayObject items) ->
  collect (candleAt h) items = Some cs ->
  allocates (calculateFibonacciLevels arr) h
    (fun r fresh =>
       match IndicatorService.calculateFibonacciLevels cs with
       | Some f =>
           exists l, r = Some l /\
             nth_error (h ++ fresh) l = Some (LevelsObject f)
       | None => r = None
       end).
Proof.
  intros Harr Hcs. unfold calculateFibonacciLevels.
  eapply allocates_read; [apply (lengthOf_run h arr items Harr)|].
  rewrite (collect_len _ _ _ Hcs).
  destruct cs as [|c0 cs'].
  - cbn. now apply allocates_ret.
  - set (cs := c0 :: cs') in *.
    replace (JS.len cs =? 0)%Z with false
      by (symmetry; apply Z.eqb_neq; unfold JS.len; cbn; lia).
    set (hl := fold_left IndicatorService.scan cs (neg_infinity, infinity)).
    exists (Some (S (S (List.length h)))),
      [NumberCell (fst hl); NumberCell (snd hl);
       LevelsObject
         {| FibonacciLevels.r0 := fst hl;
            FibonacciLevels.r0236 := fst hl - 0.236 * (fst hl - snd hl);
            FibonacciLevels.r0382 := fst hl - 0.382 * (fst hl - snd hl);
            FibonacciLevels.r05 := fst hl - 0.5 * (fst hl - snd hl);
            FibonacciLevels.r0618 := fst hl - 0.618 * (fst hl - snd hl);
            FibonacciLevels.r0786 := fst hl - 0.786 * (fst hl - snd hl);
            FibonacciLevels.r1 := snd hl |}].
    split.
    + unfold bind at 1, alloc at 1. unfold bind at 1, alloc at 1.
      rewrite <- app_assoc, length_app. cbn [List.length app].
      replace (List.length h + 1)%nat with (S (List.length h)) by lia.
      unfold bind at 1.
      rewrite (read_run _ _ _ (nth_error_extends h _ arr _ Harr)).
      unfold bind at 1.
      rewrite (forEach_track_run h items cs _ _ Hcs). fold hl.
      unfold bind at 1.
      rewrite (numberOf_run _ _ _ (nth_error_fresh h _ _)).
      unfold bind at 1.
      assert (Hlow : nth_error (h ++ [NumberCell (fst hl); NumberCell (snd hl)])
                       (S (List.length h)) = Some (NumberCell (snd hl))).
      { change (h ++ [NumberCell (fst hl); NumberCell (snd hl)])
          with (h ++ [NumberCell (fst hl)] ++ [NumberCell (snd hl)]).
        rewrite app_assoc.
        replace (S (List.length h))
          with (List.length (h ++ [NumberCell (fst hl)]))
          by (rewrite length_app; cbn; lia).
        apply nth_error_fresh. }
      rewrite (numberOf_run _ _ _ Hlow).
      unfold bind, alloc, ret. rewrite <- app_assoc, length_app.
      cbn [List.length app].
      replace (List.length h + 2)%nat with (S (S (List.length h))) by lia.
      reflexivity.
    + unfold IndicatorService.calculateFibonacciLevels,
        IndicatorService.extremes. subst cs. fold hl.
      destruct hl as [hi lo] eqn:Ehl. cbn [fst snd].
      eexists. split; [reflexivity|].
      change (h ++ ?a :: ?b :: ?c) with (h ++ [a; b] ++ c).
      rewrite app_assoc.
      replace (S (S (List.length h)))
        with (List.length (h ++ [NumberCell hi; NumberCell lo]))
        by (rewrite length_app; cbn; lia).
      apply nth_error_fresh.
Qed.

Lemma sliceLast_run (h : heap) (n : nat) (arr : loc) (items : list loc) :
  nth_error h arr = Some (ArrayObject items) ->
  allocates (sliceLast n arr) h
    (fun r fresh =>
       r = List.length h /\ fresh = [ArrayObject (JS.slice_last n items)]).
Proof.
  intros H. unfold sliceLast.
  eapply allocates_read; [apply (read_run h arr _ H)|].
  now apply allocates_last.
Qed.

Lemma proximity_run (h : heap) (currentPrice : float) (r : option loc)
    (fibLevels : option FibonacciLevels.t) :
  match fibLevels with
  | Some f => exists l, r = Some l /\ nth_error h l = Some (LevelsObject f)
  | None => r = None
  end ->
  allocates (proximity currentPrice r) h
    (fun near _ =>
       near = (StrategyService.nearFibSupport currentPrice fibLevels,
               StrategyService.nearFibResistance currentPrice fibLevels)).
Proof.
  destruct fibLevels as [f|].
  - intros (l & -> & Hl). unfold proximity.
    eapply allocates_read; [apply (levelsOf_run h l f Hl)|].
    apply allocates_alloc.
    eapply allocates_read;
      [apply levelsOf_run, nth_error_extends, Hl|].
    apply allocates_alloc.
    eapply allocates_read;
      [apply numbersOf_run, nth_error_extends, nth_error_fresh|].
    eapply allocates_read; [apply numbersOf_run, nth_error_fresh|].
    now apply allocates_ret.
  - intros ->. now apply allocates_ret.
Qed.

Lemma reduce_volume_run (h : heap) (items : list loc) (cs : list Candle.t)
    (init : float) :
  collect (candleAt h) items = Some cs ->
  reduce (fun acc l => c <- candleOf (Some l) ;; ret (acc + Candle.volume c))
         items init h
  = Some (fold_left (fun acc c => acc + Candle.volume c) cs init, h).
Proof.
  revert cs init. induction items as [|l rest IH]; intros cs init H.
  - injection H as <-. reflexivity.
  - cbn in H. destruct (candleAt h l) as [c|] eqn:Ec; [|discriminate].
    destruct (collect (candleAt h) rest) as [tl|] eqn:Et; [|discriminate].
    injection H as <-. cbn [reduce fold_left]. unfold bind at 1 2.
    rewrite (candleOf_run h l c Ec). unfold ret at 1.
    apply (IH tl _ eq_refl).
Qed.

Lemma answer_run (h : heap) (candles : loc) (items : list loc)
    (cs : list Candle.t) (last : Candle.t) (type : SignalType)
    (price : float) (reason : string) (post : loc -> heap -> Prop) :
  nth_error h candles = Some (ArrayObject items) ->
  collect (candleAt h) items = Some cs ->
  JS.index cs (JS.len cs - 1) = Some last ->
  post (List.length h)
       [SignalObject {| Signal.type := type; Signal.price := price;
                        Signal.time := Candle.time last;
                        Signal.reason := reason |}] ->
  allocates (answer candles type price reason) h post.
Proof.
  intros Harr Hcs Hlast Hpost. unfold answer.
  eapply allocates_read; [apply (lengthOf_run h candles items Harr)|].
  eapply allocates_read; [apply (itemAt_run h candles items _ Harr)|].
  rewrite (collect_len _ _ _ Hcs).
  pose proof (collect_index _ _ _ (JS.len cs - 1) Hcs) as Hi.
  destruct (JS.index items (JS.len cs - 1)) as [l|]; [|congruence].
  destruct Hi as (c & Hc & Hi). assert (c = last) as -> by congruence.
  eapply allocates_read; [apply (candleOf_run h l last Hc)|].
  now apply allocates_last.
Qed.

(** A signal object allocated at the end of a grown heap is new to the heap
    the call started in and is read back through its reference. *)
Lemma fresh_signal (h grown : heap) (s : Signal.t) :
  nth_error h (List.length (h ++ grown)) = None /\
  signalAt (h ++ grown ++ [SignalObject s]) (List.length (h ++ grown))
  = Some s.
Proof.
  split.
  - apply nth_error_None. rewrite length_app. lia.
  - unfold signalAt. now rewrite app_assoc, nth_error_fresh.
Qed.

Ltac grow :=
  repeat first
    [ eassumption
    | apply nth_error_extends
    | apply candleAt_extends
    | apply snapshotAt_extends
    | apply candles_extend ].

Ltac reads lem := eapply allocates_read; [eapply lem; grow | cbv beta].

(** One call: it returns, it has only allocated, and the object it returns
    is new and holds the signal that [StrategyService.checkSignals] computes
    from the contents of the two arrays. *)
Lemma checkSignals_run (h : heap) (candles indicators : loc)
    (cs : list Candle.t) (ds : list IndicatorData.t) :
  candlesAt h candles = Some cs ->
  snapshotsAt h indicators = Some ds ->
  allocates (checkSignals candles indicators) h
    (fun r fresh =>
       nth_error h r = None /\
       signalAt (h ++ fresh) r = Some (StrategyService.checkSignals cs ds)).
Proof.
  unfold candlesAt, snapshotsAt. intros Hcs Hds.
  destruct (nth_error h candles) as [[| |ic| | | |]|] eqn:Hc;
    try discriminate.
  destruct (nth_error h indicators) as [[| |id| | | |]|] eqn:Hd;
    try discriminate.
  pose proof (fresh_signal h []) as Hnow. rewrite app_nil_r in Hnow.
  unfold checkSignals, StrategyService.checkSignals.
  reads lengthOf_run. rewrite (collect_len _ _ _ Hcs).
  destruct (JS.len cs <? 100)%Z eqn:Elen.
  { apply allocates_last. apply Hnow. }
  reads lengthOf_run. reads itemAt_run.
  rewrite (collect_len _ _ _ Hcs).
  pose proof (collect_index _ _ _ (JS.len cs - 1) Hcs) as Hi.
  destruct (JS.index ic (JS.len cs - 1)) as [l|].
  2:{ exfalso. unfold JS.index, JS.len in Hi, Elen.
      apply Z.ltb_ge in Elen.
      destruct (Z.of_nat (List.length cs) - 1 <? 0)%Z eqn:E0;
        [apply Z.ltb_lt in E0; lia|].
      apply nth_error_None in Hi. lia. }
  destruct Hi as (last & Hl & Hlast). rewrite Hlast.
  reads candleOf_run.
  reads lengthOf_run. reads itemAt_run.
  reads lengthOf_run. reads itemAt_run.
  rewrite (collect_len _ _ _ Hds).
  pose proof (collect_index _ _ _ (JS.len ds - 1) Hds) as H1.
  pose proof (collect_index _ _ _ (JS.len ds - 2) Hds) as H2.
  destruct (JS.index id (JS.len ds - 1)) as [cur|].
  2:{ rewrite H1. apply allocates_last. apply Hnow. }
  destruct H1 as (currentIndicator & Hcur & ->).
  destruct (JS.index id (JS.len ds - 2)) as [prev|].
  2:{ rewrite H2. apply allocates_last. apply Hnow. }
  destruct H2 as (prevIndicator & Hprev & ->).
  reads snapshotOf_run. reads snapshotOf_run.
  (* 4. the retracement levels of the last hundred candles *)
  eapply allocates_bind.
  { eapply (sliceLast_run _ 100). grow. }
  cbv beta. intros recent f1 (-> & ->).
  eapply allocates_bind.
  { apply (calculateFibonacciLevels_run _ _ (JS.slice_last 100 ic)
             (JS.slice_last 100 cs)).
    - apply nth_error_fresh.
    - apply candles_extend, collect_slice_last, Hcs. }
  cbv beta. intros fibLevels f2 Hfib.
  eapply allocates_bind.
  { apply (proximity_run _ (Candle.close last) fibLevels _ Hfib). }
  cbv beta. intros near f3 ->. cbn [fst snd].
  (* 5. and 6. the RSI and the volume *)
  reads snapshotOf_run.
  reads lengthOf_run. reads itemAt_run.
  rewrite (collect_len _ _ _ Hcs).
  pose proof (collect_index _ _ _ (JS.len cs - 1) Hcs) as Hi.
  destruct (JS.index ic (JS.len cs - 1)) as [l2|]; [|congruence].
  destruct Hi as (last2 & Hl2 & Hlast2).
  assert (last2 = last) as -> by congruence.
  reads candleOf_run.
  eapply allocates_bind.
  { eapply (sliceLast_run _ 20). grow. }
  cbv beta. intros latest f4 (-> & ->).
  eapply allocates_read; [apply read_run, nth_error_fresh|]. cbv beta.
  eapply allocates_read.
  { apply (reduce_volume_run _ _ (JS.slice_last 20 cs)).
    apply collect_slice_last. grow. }
  cbv beta.
  fold (StrategyService.avgVolume cs).
  fold (StrategyService.isHighVolume last cs).
  set (fibValue := IndicatorService.calculateFibonacciLevels _).
  set (upTrend := StrategyService.isUpTrend _ _).
  set (aligned := StrategyService.emasAligned _).
  set (alignedBearish := StrategyService.emasAlignedBearish _).
  set (bull := StrategyService.macdBullishCrossover _ _).
  set (bear := StrategyService.macdBearishCrossover _ _).
  set (support := StrategyService.nearFibSupport _ _).
  set (resistance := StrategyService.nearFibResistance _ _).
  set (safeBuy := StrategyService.isRsiSafeBuy _).
  set (safeSell := StrategyService.isRsiSafeSell _).
  set (highVolume := StrategyService.isHighVolume _ _).
  cbv zeta.
  set (grown := (((h ++ ?[a]) ++ ?[b]) ++ ?[c]) ++ ?[d]).
  assert (Hgrown : exists g, grown = h ++ g).
  { eexists. subst grown. rewrite <- !app_assoc. reflexivity. }
  destruct Hgrown as (g & Hg).
  assert (Hend : forall s,
             nth_error h (List.length grown) = None /\
             signalAt (h ++ [ArrayObject (JS.slice_last 100 ic)] ++ f2 ++ f3
                         ++ [ArrayObject (JS.slice_last 20 ic)]
                         ++ [SignalObject s])
                      (List.length grown) = Some s).
  { intros s. rewrite Hg.
    replace (h ++ [ArrayObject (JS.slice_last 100 ic)] ++ f2 ++ f3
               ++ [ArrayObject (JS.slice_last 20 ic)] ++ [SignalObject s])
      with (h ++ g ++ [SignalObject s]).
    - apply fresh_signal.
    - rewrite (app_assoc h g), <- Hg. subst grown.
      rewrite <- !app_assoc. reflexivity. }
  assert (Hgc : nth_error grown candles = Some (ArrayObject ic))
    by (subst grown; grow).
  assert (Hgcs : collect (candleAt grown) ic = Some cs)
    by (subst grown; grow).
  clearbody grown.
  destruct (upTrend && aligned && bull && support && safeBuy && highVolume).
  { eapply answer_run; [exact Hgc | exact Hgcs | exact Hlast | apply Hend]. }
  destruct (upTrend && aligned && bull && safeBuy && highVolume
            && negb resistance).
  { eapply answer_run; [exact Hgc | exact Hgcs | exact Hlast | apply Hend]. }
  destruct (negb upTrend && alignedBearish && bear && resistance
            && safeSell && highVolume).
  { eapply answer_run; [exact Hgc | exact Hgcs | exact Hlast | apply Hend]. }
  destruct (negb upTrend && alignedBearish && bear && safeSell
            && highVolume && negb support).
  { eapply answer_run; [exact Hgc | exact Hgcs | exact Hlast | apply Hend]. }
  apply allocates_last. apply Hend.
Qed.

(** An array and its contents are read the same in a grown heap. *)
Lemma candlesAt_extends (h ext : heap) (arr : loc) (cs : list Candle.t) :
  candlesAt h arr = Some cs -> candlesAt (h ++ ext) arr = Some cs.
Proof.
  unfold candlesAt. intros H.
  destruct (nth_error h arr) as [[| |items| | | |]|] eqn:E;
    try discriminate.
  rewrite (nth_error_extends h ext arr _ E). now apply candles_extend.
Qed.

Lemma snapshotsAt_extends (h ext : heap) (arr : loc)
    (ds : list IndicatorData.t) :
  snapshotsAt h arr = Some ds -> snapshotsAt (h ++ ext) arr = Some ds.
Proof.
  unfold snapshotsAt. intros H.
  destruct (nth_error h arr) as [[| |items| | | |]|] eqn:E;
    try discriminate.
  rewrite (nth_error_extends h ext arr _ E).
  revert H. apply collect_mono. intros l a. apply snapshotAt_extends.
Qed.

Lemma returned_run (h : heap) (candles indicators : loc)
    (cs : list Candle.t) (ds : list IndicatorData.t) :
  candlesAt h candles = Some cs ->
  snapshotsAt h indicators = Some ds ->
  returned (checkSignals candles indicators) h
  = Some (StrategyService.checkSignals cs ds) /\
  exists fresh,
    heapAfter (checkSignals candles indicators) h = h ++ fresh.
Proof.
  intros Hcs Hds.
  destruct (checkSignals_run h candles indicators cs ds Hcs Hds)
    as (r & fresh & Hrun & _ & Hs).
  unfold returned, heapAfter. rewrite Hrun. split; [exact Hs|].
  now exists fresh.
Qed.

End HeapFacts.

(** C9: [checkSignals] is deterministic, and no hidden state influences it
    across repeated calls.  On the heap, where hidden state could live: a
    call whose two arguments refer to arrays holding the candles [cs] and
    the snapshots [ds] returns (it does not throw) an object holding the
    signal that [StrategyService.checkSignals cs ds] computes, whatever else
    the heap contains; it only allocates, so every object that existed
    before the call, the two arrays and their elements included, is what it
    was; the same call repeated in the heap the first one left returns the
    same type, price, time and reason; and so does a call in any other heap
    [h'], through any other references, as long as the arrays hold the same
    values. *)
Theorem checkSignals_deterministic (h h' : Heap.heap)
    (candles indicators candles' indicators' : Heap.loc)
    (cs : list Candle.t) (ds : list IndicatorData.t) :
  Stateful.candlesAt h candles = Some cs ->
  Stateful.snapshotsAt h indicators = Some ds ->
  Stateful.candlesAt h' candles' = Some cs ->
  Stateful.snapshotsAt h' indicators' = Some ds ->
  let call := Stateful.checkSignals candles indicators in
  let s := StrategyService.checkSignals cs ds in
  Stateful.returned call h = Some s /\
  (exists fresh, Stateful.heapAfter call h = h ++ fresh) /\
  Stateful.returned call (Stateful.heapAfter call h) = Some s /\
  Stateful.returned (Stateful.checkSignals candles' indicators') h' = Some s.
Proof.
  intros Hcs Hds Hcs' Hds'. cbv zeta.
  destruct (HeapFacts.returned_run h candles indicators cs ds Hcs Hds)
    as (Hfirst & fresh & Hafter).
  split; [exact Hfirst|]. split; [now exists fresh|]. split.
  - rewrite Hafter.
    apply (HeapFacts.returned_run (h ++ fresh) candles indicators cs ds).
    + now apply HeapFacts.candlesAt_extends.
    + now apply HeapFacts.snapshotsAt_extends.
  - apply (HeapFacts.returned_run h' candles' indicators' cs ds Hcs' Hds').
Qed.

Module HeapExamples.
Import Heap.

(** The hundred candles of [Examples.window] at 0..99, their array at 100,
    two snapshots at 101 and 102 and their array at 103. *)
Definition session : heap :=
  map CandleObject Examples.window
  ++ [ArrayObject (seq 0 100%nat);
      SnapshotObject Examples.prevWithoutEma;
      SnapshotObject Examples.curBullish;
      ArrayObject [101; 102]%nat].

(** The same values elsewhere: behind an earlier signal object and an
    unrelated number, with the snapshots ahead of the candles. *)
Definition elsewhere : heap :=
  [SignalObject StrategyService.none; NumberCell 42;
   SnapshotObject Examples.prevWithoutEma;
   SnapshotObject Examples.curBullish;
   ArrayObject [2; 3]%nat]
  ++ map CandleObject Examples.window
  ++ [ArrayObject (seq 5 100%nat)].

End HeapExamples.

(** Two calls on the session heap, one after the other, and one on the other
    heap: a BUY each time, with the same fields. *)
Lemma checkSignals_deterministic_witness :
  let call := Stateful.checkSignals 100%nat 103%nat in
  let s :=
    StrategyService.checkSignals Examples.window
      [Examples.prevWithoutEma; Examples.curBullish] in
  Signal.type s = BUY /\
  Stateful.returned call HeapExamples.session = Some s /\
  (exists fresh,
     Stateful.heapAfter call HeapExamples.session
     = HeapExamples.session ++ fresh) /\
  Stateful.returned call (Stateful.heapAfter call HeapExamples.session)
  = Some s /\
  Stateful.returned (Stateful.checkSignals 105%nat 4%nat) HeapExamples.elsewhere
  = Some s.
Proof.
  cbv zeta. split; [vm_compute; reflexivity|].
  apply (checkSignals_deterministic HeapExamples.session
           HeapExamples.elsewhere 100%nat 103%nat 105%nat 4%nat
           Examples.window
           [Examples.prevWithoutEma; Examples.curBullish]);
    vm_compute; reflexivity.
Defined.

(** ** The candle window (C7) *)

Module WindowFacts.

Lemma index_last {A : Type} (l : list A) (x : A) :
  JS.index (l ++ [x]) (JS.len (l ++ [x]) - 1) = Some x.
Proof.
  unfold JS.index, JS.len. rewrite length_app. cbn [List.length].
  replace (Z.of_nat (List.length l + 1) - 1)%Z with (Z.of_nat (List.length l))
    by lia.
  destruct (Z.of_nat (List.length l) <? 0)%Z eqn:E.
  - apply Z.ltb_lt in E. lia.
  - rewrite Nat2Z.id, nth_error_app2 by lia.
    rewrite Nat.sub_diag. reflexivity.
Qed.

Lemma len_pos {A : Type} (l : list A) (x : A) :
  (0 <? JS.len (l ++ [x]))%Z = true.
Proof.
  unfold JS.len. rewrite length_app. cbn. apply Z.ltb_lt. lia.
Qed.

(** Same time as the last candle: the last candle is overwritten. *)
Lemma applyCandle_replace (w : list Candle.t) (l c : Candle.t) :
  Candle.time l = Candle.time c ->
  App.applyCandle (w ++ [l]) c = w ++ [c].
Proof.
  intros Ht. unfold App.applyCandle.
  rewrite len_pos, index_last, Ht, Z.eqb_refl. cbn [andb].
  rewrite removelast_last. reflexivity.
Qed.

(** Any other candle is pushed; the head is dropped once the length
    passes 400. *)
Lemma applyCandle_push_nonempty (w : list Candle.t) (l c : Candle.t) :
  Candle.time l <> Candle.time c ->
  App.applyCandle (w ++ [l]) c =
    if (400 <? JS.len ((w ++ [l]) ++ [c]))%Z
    then tl ((w ++ [l]) ++ [c]) else (w ++ [l]) ++ [c].
Proof.
  intros Ht. unfold App.applyCandle.
  rewrite len_pos, index_last.
  apply Z.eqb_neq in Ht. rewrite Ht. reflexivity.
Qed.

Lemma applyCandle_push_empty (c : Candle.t) : App.applyCandle [] c = [c].
Proof. reflexivity. Qed.

Lemma applyCandle_length (w : list Candle.t) (c : Candle.t) :
  List.length (App.applyCandle w c) = List.length w \/
  (List.length w < 400 /\
   List.length (App.applyCandle w c) = S (List.length w)) \/
  (400 <= List.length w /\
   List.length (App.applyCandle w c) = List.length w).
Proof.
  unfold App.applyCandle.
  destruct ((0 <? JS.len w)%Z && _) eqn:Hrep.
  - left. apply andb_true_iff in Hrep. destruct Hrep as [Hpos _].
    destruct (exists_last (l := w)) as (w' & l & ->).
    + intros ->. discriminate Hpos.
    + rewrite removelast_last, !length_app. reflexivity.
  - right. unfold JS.len. rewrite length_app. cbn [List.length].
    destruct (400 <? Z.of_nat (List.length w + 1))%Z eqn:Hcap.
    + right. apply Z.ltb_lt in Hcap. split; [lia|].
      destruct w; cbn in *; [lia|]. rewrite length_app. cbn. lia.
    + left. apply Z.ltb_ge in Hcap. split; [lia|].
      rewrite length_app. cbn. lia.
Qed.

End WindowFacts.

Lemma applyAll_bounded (incoming : list Candle.t) (w : list Candle.t) :
  List.length w <= 400 -> List.length (App.applyAll w incoming) <= 400.
Proof.
  unfold App.applyAll. revert w.
  induction incoming as [|c incoming IH]; intros w Hw; cbn; [exact Hw|].
  apply IH. destruct (WindowFacts.applyCandle_length w c) as [H | [H | H]]; lia.
Qed.

(** C7: a candle whose time equals the last element's time replaces the
    last element and leaves the window length unchanged; any other candle is
    appended, and when that makes the length exceed the capacity of 400,
    exactly the oldest element is evicted and the length stays where it was;
    so a window within capacity stays within capacity, after one update and
    along every run of updates: its length never exceeds 400. *)
Theorem applyCandle_replaces_or_appends (w : list Candle.t) (c : Candle.t) :
  (forall w' l, w = w' ++ [l] -> Candle.time l = Candle.time c ->
     App.applyCandle w c = w' ++ [c] /\
     List.length (App.applyCandle w c) = List.length w) /\
  ((w = [] \/
    exists w' l, w = w' ++ [l] /\ Candle.time l <> Candle.time c) ->
     ((List.length w < 400)%nat -> App.applyCandle w c = w ++ [c]) /\
     ((400 <= List.length w)%nat ->
        exists oldest rest,
          w = oldest :: rest /\ App.applyCandle w c = rest ++ [c] /\
          List.length (App.applyCandle w c) = List.length w)) /\
  ((List.length w <= 400)%nat ->
     (List.length (App.applyCandle w c) <= 400)%nat /\
     forall incoming, (List.length (App.applyAll w incoming) <= 400)%nat).
Proof.
  split; [|split].
  - intros w' l -> Ht. rewrite WindowFacts.applyCandle_replace by exact Ht.
    split; [reflexivity|]. rewrite !length_app. reflexivity.
  - intros Hpush.
    assert (E : App.applyCandle w c =
                if (400 <? JS.len (w ++ [c]))%Z
                then tl (w ++ [c]) else w ++ [c]).
    { destruct Hpush as [-> | (w' & l & -> & Ht)].
      - reflexivity.
      - apply WindowFacts.applyCandle_push_nonempty. exact Ht. }
    rewrite E. unfold JS.len. rewrite length_app. cbn [List.length].
    split.
    + intros Hlt.
      destruct (400 <? Z.of_nat (List.length w + 1))%Z eqn:Hcap;
        [apply Z.ltb_lt in Hcap; lia | reflexivity].
    + intros Hge.
      destruct (400 <? Z.of_nat (List.length w + 1))%Z eqn:Hcap;
        [|apply Z.ltb_ge in Hcap; lia].
      destruct w as [|oldest rest]; [cbn in Hge; lia|].
      exists oldest, rest. cbn [tl app].
      split; [reflexivity|]. split; [reflexivity|].
      rewrite length_app. cbn [List.length]. lia.
  - intros Hw. split.
    + destruct (WindowFacts.applyCandle_length w c) as [H | [H | H]]; lia.
    + intros incoming. apply applyAll_bounded. exact Hw.
Qed.

(** A live update of the last candle of a 100-candle window, then the close
    of the next period. *)
Example applyCandle_live_update_then_close :
  let tick := Examples.candle 5940000 210 100 205 3 in
  let next := Examples.candle 6000000 210 100 206 1 in
  App.applyCandle Examples.window tick =
    removelast Examples.window ++ [tick] /\
  App.applyAll Examples.window [tick; next] =
    removelast Examples.window ++ [tick; next].
Proof. split; vm_compute; reflexivity. Qed.

(** ** The signal feed and the alert log (C3) *)

Module FeedFacts.

Lemma slice_last_snoc {A : Type} (n : nat) (l : list A) (x : A) :
  exists l', JS.slice_last (S n) (l ++ [x]) = l' ++ [x].
Proof.
  unfold JS.slice_last. rewrite length_app. cbn [List.length].
  exists (skipn (List.length l + 1 - S n) l).
  rewrite skipn_app.
  replace (List.length l + 1 - S n - List.length l)%nat with 0%nat by lia.
  reflexivity.
Qed.

(** The bracketed tag that [recordSignal] puts in front of a reason contains
    the interval, for each of the five intervals. *)
Lemma tagged_reason_includes (interval reason : string) :
  In interval App.INTERVALS ->
  JS.includes ("[" ++ interval ++ "] " ++ reason)%string interval = true.
Proof.
  unfold App.INTERVALS. cbn [In].
  intros [<- | [<- | [<- | [<- | [<- | []]]]]]; reflexivity.
Qed.

Lemma recordSignal_duplicate (env : App.Env) (interval : string)
    (s : Signal.t) (st : App.State) :
  App.isDuplicate (App.signals st) interval s = true ->
  App.recordSignal env interval s st = st.
Proof. intros H. unfold App.recordSignal. rewrite H. reflexivity. Qed.

Lemma recordSignal_fresh (env : App.Env) (interval : string)
    (s : Signal.t) (st : App.State) :
  App.isDuplicate (App.signals st) interval s = false ->
  App.signals (App.recordSignal env interval s st) =
    JS.slice_last 20
      (App.signals st ++
       [{| Signal.type := Signal.type s; Signal.price := Signal.price s;
           Signal.time := Signal.time s;
           Signal.reason :=
             ("[" ++ interval ++ "] " ++ Signal.reason s)%string |}]).
Proof. intros H. unfold App.recordSignal. rewrite H. reflexivity. Qed.

(** Straight after a signal of some interval was recorded, a signal of the
    same interval and the same candle time is a duplicate: the session state
    is left as it is. *)
Lemma immediate_repeat_suppressed (env : App.Env) (interval : string)
    (s1 s2 : Signal.t) (st : App.State) :
  In interval App.INTERVALS ->
  Signal.time s2 = Signal.time s1 ->
  App.isDuplicate (App.signals st) interval s1 = false ->
  App.recordSignal env interval s2 (App.recordSignal env interval s1 st) =
  App.recordSignal env interval s1 st.
Proof.
  intros Hin Ht Hfresh.
  apply recordSignal_duplicate.
  rewrite (recordSignal_fresh env interval s1 st Hfresh).
  destruct (slice_last_snoc 19 (App.signals st)
              {| Signal.type := Signal.type s1;
                 Signal.price := Signal.price s1;
                 Signal.time := Signal.time s1;
                 Signal.reason :=
                   ("[" ++ interval ++ "] " ++ Signal.reason s1)%string |})
    as [l' ->].
  unfold App.isDuplicate.
  rewrite WindowFacts.len_pos, WindowFacts.index_last.
  cbn [Signal.time Signal.reason andb].
  rewrite Ht, Z.eqb_refl, tagged_reason_includes by exact Hin.
  reflexivity.
Qed.

End FeedFacts.

Module Session.

Definition env : App.Env :=
  {| App.activeInterval := "1h"; App.accountBalance := 1000;
     App.riskPerTrade := 0.02 |}.

(** A BUY detected on the candle opened at 5940000. *)
Definition buyAt5940000 : Signal.t :=
  StrategyService.checkSignals Examples.window
    [Examples.prevWithoutEma; Examples.curBullish].

(** A SELL detected on another candle. *)
Definition sellAt3600000 : Signal.t :=
  {| Signal.type := SELL; Signal.price := 130; Signal.time := 3600000;
     Signal.reason :=
       "Convergencia: EMA(7<25<99) + MACD Bearish + Volumen" |}.

(** The 5m timeframe detects the same signal on the same candle twice in a
    row; in between, the 1h timeframe detects one of its own. *)
Definition interleaved : list (string * Signal.t) :=
  [("5m", buyAt5940000); ("1h", sellAt3600000); ("5m", buyAt5940000)]%string.

(** The 15m and the 5m timeframe each detect a signal on candles that open at
    the same time. *)
Definition sameOpenTime : list (string * Signal.t) :=
  [("15m", buyAt5940000); ("5m", buyAt5940000)]%string.

Definition alertIds (st : App.State) : list string :=
  map AlertHistoryItem.id (App.alertHistory st).

End Session.

(** C3: the duplicate test looks at the last entry of the feed shared by all
    timeframes, not at the last signal of the timeframe at hand.  When a 1h
    signal arrives between two detections of the same 5m candle, the second
    detection is logged again: the alert log holds two entries for the pair
    (5m, 5940000).  The test also matches the interval as a substring of the
    tagged reason, so a 5m signal straight after a 15m signal of the same
    open time is dropped and the log holds no entry for it. *)
Theorem interleaved_repeat_logged_twice :
  Session.alertIds (App.recordAll Session.env Session.interleaved App.initial)
    = ["5m-5940000"; "1h-3600000"; "5m-5940000"]%string /\
  Session.alertIds (App.recordAll Session.env Session.sameOpenTime App.initial)
    = ["15m-5940000"]%string.
Proof. split; vm_compute; reflexivity. Qed.

(** ** Alignment of the indicator snapshots (C5) *)

Module PipelineFacts.

Lemma mapi_from_length {A B : Type} (f : A -> nat -> B) (k : nat)
    (l : list A) :
  List.length (JS.mapi_from f k l) = List.length l.
Proof.
  revert k. induction l as [|x l IH]; intros k; cbn; [reflexivity|].
  now rewrite IH.
Qed.

Lemma mapi_from_nth {A B : Type} (f : A -> nat -> B) (l : list A)
    (k i : nat) :
  nth_error (JS.mapi_from f k l) i =
  option_map (fun x => f x (k + i)%nat) (nth_error l i).
Proof.
  revert k i. induction l as [|x l IH]; intros k [|i]; cbn;
    try reflexivity.
  - now rewrite Nat.add_0_r.
  - rewrite IH. now rewrite Nat.add_succ_r.
Qed.

Lemma mapi_nth {A B : Type} (f : A -> nat -> B) (l : list A) (i : nat) :
  nth_error (JS.mapi f l) i = option_map (fun x => f x i) (nth_error l i).
Proof. unfold JS.mapi. now rewrite mapi_from_nth. Qed.

Lemma index_of_nat {A : Type} (l : list A) (i k : nat) :
  (k <= i)%nat ->
  JS.index l (Z.of_nat i - Z.of_nat k) = nth_error l (i - k).
Proof.
  intros H. unfold JS.index.
  destruct (Z.of_nat i - Z.of_nat k <? 0)%Z eqn:E.
  - apply Z.ltb_lt in E. lia.
  - f_equal. lia.
Qed.

(** [if (i >= k) data.f = arr[i - k]] sets the field exactly from index [k]
    on, provided [arr] reaches the end of the series. *)
Lemma offset_field {A : Type} (arr : list A) (n k i : nat) :
  (i < n)%nat -> (n - k <= List.length arr)%nat ->
  (if (k <=? i)%nat then nth_error arr (i - k) else None) <> None <->
  (k <= i)%nat.
Proof.
  intros Hi Hlen. destruct (k <=? i)%nat eqn:E.
  - apply Nat.leb_le in E. split; [intros _; exact E|]. intros _.
    apply nth_error_Some. lia.
  - apply Nat.leb_gt in E. split; [intros H; now contradiction H | lia].
Qed.

(** Snapshot [i] is built from candle [i]'s time and the index [i]. *)
Lemma calculateIndicators_nth {TI : TechnicalIndicators}
    (candles : list Candle.t) (i : nat) (c : Candle.t) :
  nth_error candles i = Some c ->
  nth_error (IndicatorService.calculateIndicators candles) i =
  let closes := map Candle.close candles in
  Some (IndicatorService.snapshot
          (EMA_calculate 7 closes) (EMA_calculate 25 closes)
          (EMA_calculate 99 closes) (RSI_calculate 14 closes)
          (MACD_calculate 12 26 9 closes)
          (BollingerBands_calculate 20 2 closes) (Candle.time c) i).
Proof.
  intros Hc. unfold IndicatorService.calculateIndicators.
  rewrite mapi_nth, nth_error_map, Hc. reflexivity.
Qed.

Lemma calculateIndicators_length {TI : TechnicalIndicators}
    (candles : list Candle.t) :
  List.length (IndicatorService.calculateIndicators candles) =
  List.length candles.
Proof.
  unfold IndicatorService.calculateIndicators, JS.mapi.
  now rewrite mapi_from_length, length_map.
Qed.

(** The same for the two object-valued fields, read through [JS.index]. *)
Lemma offset_object {A B : Type} (arr : list A) (f : A -> B) (n i : nat)
    (k : Z) (k' : nat) :
  k = Z.of_nat k' ->
  (i < n)%nat -> (n - k' <= List.length arr)%nat ->
  (if (0 <=? Z.of_nat i - k)%Z
   then match JS.index arr (Z.of_nat i - k) with
        | Some a => Some (f a)
        | None => None
        end
   else None) <> None <-> (k' <= i)%nat.
Proof.
  intros -> Hi Hlen.
  destruct (0 <=? Z.of_nat i - Z.of_nat k')%Z eqn:E.
  - apply Z.leb_le in E. split; [intros _; lia|]. intros Hk.
    rewrite index_of_nat by exact Hk.
    destruct (nth_error arr (i - k')) eqn:N; [discriminate|].
    apply nth_error_None in N. lia.
  - apply Z.leb_gt in E. split; [intros H; now contradiction H | lia].
Qed.

End PipelineFacts.

(** A field of a snapshot is set. *)
Definition isSet {A : Type} (o : option A) : Prop := o <> None.

(** What the pipeline relies on from the indicator package for one series of
    closes: each result array reaches the end of the series, that is, it has
    at least as many values as there are candles from the indicator's first
    defined index on. *)
Definition reachesEnd (TI : TechnicalIndicators) (closes : list float)
  : Prop :=
  let n := List.length closes in
  (n - 6 <= List.length (EMA_calculate 7 closes))%nat /\
  (n - 24 <= List.length (EMA_calculate 25 closes))%nat /\
  (n - 98 <= List.length (EMA_calculate 99 closes))%nat /\
  (n - 14 <= List.length (RSI_calculate 14 closes))%nat /\
  (n - 33 <= List.length (MACD_calculate 12 26 9 closes))%nat /\
  (n - 19 <= List.length (BollingerBands_calculate 20 2 closes))%nat.

(** C5: [calculateIndicators] returns one snapshot per candle, snapshot [i]
    carrying the time of candle [i]; and, the package's arrays reaching the
    end of the series, snapshot [i] has [ema7] set exactly when [i >= 6],
    [ema25] exactly when [i >= 24], [ema99] exactly when [i >= 98], [rsi]
    exactly when [i >= 14], [bb] exactly when [i >= 19] and [macd] exactly
    when [i >= 26 + 9 - 2 = 33]; below its offset a field is unset. *)
Theorem calculateIndicators_aligned (TI : TechnicalIndicators)
    (candles : list Candle.t) :
  reachesEnd TI (map Candle.close candles) ->
  let out := IndicatorService.calculateIndicators candles in
  List.length out = List.length candles /\
  forall (i : nat) (c : Candle.t),
    nth_error candles i = Some c ->
    exists s,
      nth_error out i = Some s /\
      IndicatorData.time s = Candle.time c /\
      (isSet (IndicatorData.ema7 s) <-> (6 <= i)%nat) /\
      (isSet (IndicatorData.ema25 s) <-> (24 <= i)%nat) /\
      (isSet (IndicatorData.ema99 s) <-> (98 <= i)%nat) /\
      (isSet (IndicatorData.rsi s) <-> (14 <= i)%nat) /\
      (isSet (IndicatorData.bb s) <-> (19 <= i)%nat) /\
      (isSet (IndicatorData.macd s) <-> (33 <= i)%nat).
Proof.
  intros (H7 & H25 & H99 & Hrsi & Hmacd & Hbb) out. subst out.
  rewrite length_map in *.
  split; [apply PipelineFacts.calculateIndicators_length|].
  intros i c Hc.
  assert (Hi : (i < List.length candles)%nat)
    by (apply nth_error_Some; congruence).
  rewrite (PipelineFacts.calculateIndicators_nth candles i c Hc). cbv zeta.
  eexists. split; [reflexivity|].
  unfold IndicatorService.snapshot, isSet.
  cbn [IndicatorData.time IndicatorData.ema7 IndicatorData.ema25
       IndicatorData.ema99 IndicatorData.rsi IndicatorData.macd
       IndicatorData.bb].
  split; [reflexivity|].
  split; [apply (PipelineFacts.offset_field _ (List.length candles));
          assumption|].
  split; [apply (PipelineFacts.offset_field _ (List.length candles));
          assumption|].
  split; [apply (PipelineFacts.offset_field _ (List.length candles));
          assumption|].
  split; [apply (PipelineFacts.offset_field _ (List.length candles));
          assumption|].
  split.
  - apply (PipelineFacts.offset_object _ _ (List.length candles));
      [reflexivity | assumption | assumption].
  - apply (PipelineFacts.offset_object _ _ (List.length candles));
      [reflexivity | assumption | assumption].
Qed.

(** The reference instance reaches the end of every series. *)

Module ReferenceFacts.
Import ReferenceIndicators.

Lemma ema_from_length (k prev : float) (l : list float) :
  List.length (ema_from k prev l) = List.length l.
Proof.
  revert prev. induction l as [|c l IH]; intros prev; cbn; [reflexivity|].
  now rewrite IH.
Qed.

Lemma EMA_length (p : nat) (values : list float) :
  List.length (EMA p values) =
  if (List.length values <? p)%nat then 0%nat
  else S (List.length values - p).
Proof.
  unfold EMA. destruct (List.length values <? p)%nat; [reflexivity|].
  cbn [List.length]. now rewrite ema_from_length, length_skipn.
Qed.

Lemma changes_length (prev : float) (l : list float) :
  List.length (changes prev l) = List.length l.
Proof.
  revert prev. induction l as [|c l IH]; intros prev; cbn; [reflexivity|].
  now rewrite IH.
Qed.

Lemma wilder_length (p g l : float) (ds : list float) :
  List.length (wilder p g l ds) = List.length ds.
Proof.
  revert g l. induction ds as [|d ds IH]; intros g l; cbn; [reflexivity|].
  now rewrite IH.
Qed.

Lemma RSI_length (p : nat) (values : list float) :
  (List.length values - p <= List.length (RSI p values))%nat.
Proof.
  unfold RSI. destruct values as [|v0 rest]; [cbn; lia|].
  rewrite changes_length.
  destruct (List.length rest <? p)%nat eqn:E.
  - apply Nat.ltb_lt in E. cbn [List.length]. lia.
  - apply Nat.ltb_ge in E. cbn [List.length].
    rewrite wilder_length, length_skipn, changes_length. lia.
Qed.

Lemma windows_length (p : nat) (l : list float) :
  (1 <= p)%nat ->
  (S (List.length l) - p <= List.length (windows p l))%nat.
Proof.
  intros Hp. induction l as [|x l IH]; [cbn [List.length windows]; lia|].
  cbn [windows]. destruct (Nat.leb_spec p (List.length (x :: l))) as [E|E];
    cbn [List.length] in *; lia.
Qed.

Lemma MACD_length (values : list float) :
  (List.length values - 33 <= List.length (MACD 12 26 9 values))%nat.
Proof.
  unfold MACD.
  rewrite length_map, length_combine, length_skipn, !EMA_length,
    length_map, length_combine, length_skipn, !EMA_length.
  destruct (List.length values <? 12)%nat eqn:E12;
    destruct (List.length values <? 26)%nat eqn:E26;
    repeat match goal with
      | H : (_ <? _)%nat = true |- _ => apply Nat.ltb_lt in H
      | H : (_ <? _)%nat = false |- _ => apply Nat.ltb_ge in H
      end;
    match goal with
    | |- context [(?a <? 9)%nat] => destruct (a <? 9)%nat eqn:E9
    end;
    repeat match goal with
      | H : (_ <? _)%nat = true |- _ => apply Nat.ltb_lt in H
      | H : (_ <? _)%nat = false |- _ => apply Nat.ltb_ge in H
      end; lia.
Qed.

Lemma reference_reachesEnd (closes : list float) :
  reachesEnd reference closes.
Proof.
  unfold reachesEnd. cbn [EMA_calculate RSI_calculate MACD_calculate
    BollingerBands_calculate reference]. cbv zeta.
  rewrite !EMA_length.
  repeat split.
  - destruct (Nat.ltb_spec (List.length closes) 7); lia.
  - destruct (Nat.ltb_spec (List.length closes) 25); lia.
  - destruct (Nat.ltb_spec (List.length closes) 99); lia.
  - apply RSI_length.
  - apply MACD_length.
  - unfold BollingerBands. rewrite length_map.
    pose proof (windows_length 20 closes). lia.
Qed.

End ReferenceFacts.

(** The alignment on a 100-candle window, with the reference instance of the
    package. *)
Lemma calculateIndicators_aligned_witness :
  let TI := ReferenceIndicators.reference in
  let candles := Examples.windowAwayFromLevels in
  let out := IndicatorService.calculateIndicators candles in
  List.length out = List.length candles /\
  forall (i : nat) (c : Candle.t),
    nth_error candles i = Some c ->
    exists s,
      nth_error out i = Some s /\
      IndicatorData.time s = Candle.time c /\
      (isSet (IndicatorData.ema7 s) <-> (6 <= i)%nat) /\
      (isSet (IndicatorData.ema25 s) <-> (24 <= i)%nat) /\
      (isSet (IndicatorData.ema99 s) <-> (98 <= i)%nat) /\
      (isSet (IndicatorData.rsi s) <-> (14 <= i)%nat) /\
      (isSet (IndicatorData.bb s) <-> (19 <= i)%nat) /\
      (isSet (IndicatorData.macd s) <-> (33 <= i)%nat).
Proof.
  intros TI candles.
  apply (calculateIndicators_aligned ReferenceIndicators.reference
           Examples.windowAwayFromLevels).
  repeat split; apply Nat.leb_le; vm_compute; reflexivity.
Defined.

(** ** Fibonacci retracement levels (C6) *)

Module FibFacts.

(** The running maximum and minimum kept by the [forEach] loop. *)
Definition runMax (xs : list float) (h : float) : float :=
  fold_left (fun h x => if x >? h then x else h) xs h.

Definition runMin (xs : list float) (l : float) : float :=
  fold_left (fun l x => if x <? l then x else l) xs l.

Lemma extremes_from (candles : list Candle.t) (h l : float) :
  fold_left IndicatorService.scan candles (h, l) =
  (runMax (map Candle.high candles) h, runMin (map Candle.low candles) l).
Proof.
  revert h l. induction candles as [|c cs IH]; intros h l; [reflexivity|].
  cbn [fold_left map]. unfold IndicatorService.scan at 2.
  rewrite IH. reflexivity.
Qed.

Lemma extremes_split (candles : list Candle.t) :
  IndicatorService.extremes candles =
  (runMax (map Candle.high candles) neg_infinity,
   runMin (map Candle.low candles) infinity).
Proof. apply extremes_from. Qed.

Lemma gtb_number (x h : float) : (x >? h) = true -> PrimFloat.is_nan x = false.
Proof.
  unfold JS.gtb. rewrite ltb_spec, FloatOrder.is_nan_number. unfold SFltb.
  destruct (Prim2SF h), (Prim2SF x); cbn; congruence.
Qed.

Lemma ltb_number (x l : float) : (x <? l) = true -> PrimFloat.is_nan x = false.
Proof.
  rewrite ltb_spec, FloatOrder.is_nan_number. unfold SFltb.
  destruct (Prim2SF x), (Prim2SF l); cbn; congruence.
Qed.

(** Nothing but minus infinity fails to exceed minus infinity. *)
Lemma not_above_neg_infinity (x : float) :
  PrimFloat.is_nan x = false -> (x >? neg_infinity) = false ->
  x = neg_infinity.
Proof.
  unfold JS.gtb. rewrite ltb_spec, FloatOrder.is_nan_number. intros Hn Hlt.
  apply Prim2SF_inj. change (Prim2SF neg_infinity) with (S754_infinity true)
    in *.
  destruct (Prim2SF x) as [s|[|]| |s m e]; try destruct s; cbn in *;
    congruence.
Qed.

Lemma not_below_infinity (x : float) :
  PrimFloat.is_nan x = false -> (x <? infinity) = false -> x = infinity.
Proof.
  rewrite ltb_spec, FloatOrder.is_nan_number. intros Hn Hlt.
  apply Prim2SF_inj. change (Prim2SF infinity) with (S754_infinity false)
    in *.
  destruct (Prim2SF x) as [s|[|]| |s m e]; try destruct s; cbn in *;
    congruence.
Qed.

Lemma runMax_cons (x : float) (xs : list float) (h : float) :
  runMax (x :: xs) h = runMax xs (if x >? h then x else h).
Proof. reflexivity. Qed.

Lemma runMin_cons (x : float) (xs : list float) (l : float) :
  runMin (x :: xs) l = runMin xs (if x <? l then x else l).
Proof. reflexivity. Qed.

Lemma runMax_above_start (xs : list float) (h : float) :
  PrimFloat.is_nan h = false -> (h <=? runMax xs h) = true.
Proof.
  revert h. induction xs as [|x xs IH]; intros h Hh.
  - now apply FloatOrder.leb_refl.
  - rewrite runMax_cons. destruct (x >? h) eqn:E.
    + apply FloatOrder.leb_trans with x.
      * apply FloatOrder.ltb_leb. exact E.
      * apply IH. eapply gtb_number; exact E.
    + now apply IH.
Qed.

Lemma runMax_above_each (xs : list float) (h x : float) :
  PrimFloat.is_nan h = false -> In x xs -> PrimFloat.is_nan x = false ->
  (x <=? runMax xs h) = true.
Proof.
  revert h. induction xs as [|y xs IH]; intros h Hh Hin Hx; [destruct Hin|].
  rewrite runMax_cons. destruct Hin as [-> | Hin].
  - destruct (x >? h) eqn:E.
    + now apply runMax_above_start.
    + apply FloatOrder.leb_trans with h.
      * apply FloatOrder.not_ltb_leb; assumption.
      * now apply runMax_above_start.
  - destruct (y >? h) eqn:E; apply IH; auto.
    eapply gtb_number; exact E.
Qed.

Lemma runMax_attained (xs : list float) (h : float) :
  runMax xs h = h \/
  (In (runMax xs h) xs /\ PrimFloat.is_nan (runMax xs h) = false).
Proof.
  revert h. induction xs as [|x xs IH]; intros h; [now left|].
  rewrite runMax_cons. destruct (x >? h) eqn:E.
  - right. destruct (IH x) as [-> | [Hin Hn]].
    + split; [now left|]. eapply gtb_number; exact E.
    + split; [now right | exact Hn].
  - destruct (IH h) as [-> | [Hin Hn]]; [now left|].
    right. split; [now right | exact Hn].
Qed.

Lemma runMin_below_start (xs : list float) (l : float) :
  PrimFloat.is_nan l = false -> (runMin xs l <=? l) = true.
Proof.
  revert l. induction xs as [|x xs IH]; intros l Hl.
  - now apply FloatOrder.leb_refl.
  - rewrite runMin_cons. destruct (x <? l) eqn:E.
    + apply FloatOrder.leb_trans with x.
      * apply IH. eapply ltb_number; exact E.
      * apply FloatOrder.ltb_leb. exact E.
    + now apply IH.
Qed.

Lemma runMin_below_each (xs : list float) (l x : float) :
  PrimFloat.is_nan l = false -> In x xs -> PrimFloat.is_nan x = false ->
  (runMin xs l <=? x) = true.
Proof.
  revert l. induction xs as [|y xs IH]; intros l Hl Hin Hx; [destruct Hin|].
  rewrite runMin_cons. destruct Hin as [-> | Hin].
  - destruct (x <? l) eqn:E.
    + now apply runMin_below_start.
    + apply FloatOrder.leb_trans with l.
      * now apply runMin_below_start.
      * apply FloatOrder.not_ltb_leb; assumption.
  - destruct (y <? l) eqn:E; apply IH; auto.
    eapply ltb_number; exact E.
Qed.

Lemma runMin_attained (xs : list float) (l : float) :
  runMin xs l = l \/
  (In (runMin xs l) xs /\ PrimFloat.is_nan (runMin xs l) = false).
Proof.
  revert l. induction xs as [|x xs IH]; intros l; [now left|].
  rewrite runMin_cons. destruct (x <? l) eqn:E.
  - right. destruct (IH x) as [-> | [Hin Hn]].
    + split; [now left|]. eapply ltb_number; exact E.
    + split; [now right | exact Hn].
  - destruct (IH l) as [-> | [Hin Hn]]; [now left|].
    right. split; [now right | exact Hn].
Qed.

End FibFacts.

(** The values of a list that are numbers (not NaN). *)
Definition numbers (xs : list float) : list float :=
  filter (fun x => negb (PrimFloat.is_nan x)) xs.

Definition isMaximum (h : float) (xs : list float) : Prop :=
  In h xs /\ forall x, In x xs -> (x <=? h) = true.

Definition isMinimum (l : float) (xs : list float) : Prop :=
  In l xs /\ forall x, In x xs -> (l <=? x) = true.

Lemma numbers_all (xs : list float) :
  Forall (fun x => PrimFloat.is_nan x = false) xs -> numbers xs = xs.
Proof.
  unfold numbers. induction 1 as [|x xs Hx _ IH]; [reflexivity|].
  cbn. rewrite Hx. cbn. now rewrite IH.
Qed.

Lemma extremes_maximum (candles : list Candle.t) :
  let highs := numbers (map Candle.high candles) in
  (highs <> [] -> isMaximum (fst (IndicatorService.extremes candles)) highs)
  /\ (highs = [] -> fst (IndicatorService.extremes candles) = neg_infinity).
Proof.
  intros highs. rewrite FibFacts.extremes_split. cbn [fst].
  set (xs := map Candle.high candles) in *.
  assert (Hall : forall x, In x highs ->
            (x <=? FibFacts.runMax xs neg_infinity) = true).
  { intros x Hx. apply filter_In in Hx. destruct Hx as [Hin Hn].
    apply negb_true_iff in Hn.
    apply FibFacts.runMax_above_each; [reflexivity | exact Hin | exact Hn]. }
  destruct (FibFacts.runMax_attained xs neg_infinity) as [E | [Hin Hn]].
  - split; [|intros _; exact E].
    intros Hne. split; [|exact Hall].
    destruct highs as [|x rest] eqn:Eh; [now contradiction Hne|].
    assert (Hx : In x (x :: rest)) by now left.
    pose proof (Hall x Hx) as Hle. rewrite E in *.
    assert (x = neg_infinity) as <-; [|exact Hx].
    apply FibFacts.not_above_neg_infinity.
    + eapply FloatOrder.leb_number_l; exact Hle.
    + unfold JS.gtb. rewrite ltb_spec. rewrite leb_spec in Hle.
      change (Prim2SF neg_infinity) with (S754_infinity true) in *.
      destruct (Prim2SF x) as [s|[|]| |s m e]; try destruct s; cbn in *;
        congruence.
  - assert (Hh : In (FibFacts.runMax xs neg_infinity) highs).
    { apply filter_In. split; [exact Hin|]. now rewrite Hn. }
    split.
    + intros _. split; [exact Hh | exact Hall].
    + intros E. rewrite E in Hh. destruct Hh.
Qed.

Lemma extremes_minimum (candles : list Candle.t) :
  let lows := numbers (map Candle.low candles) in
  (lows <> [] -> isMinimum (snd (IndicatorService.extremes candles)) lows)
  /\ (lows = [] -> snd (IndicatorService.extremes candles) = infinity).
Proof.
  intros lows. rewrite FibFacts.extremes_split. cbn [snd].
  set (xs := map Candle.low candles) in *.
  assert (Hall : forall x, In x lows ->
            (FibFacts.runMin xs infinity <=? x) = true).
  { intros x Hx. apply filter_In in Hx. destruct Hx as [Hin Hn].
    apply negb_true_iff in Hn.
    apply FibFacts.runMin_below_each; [reflexivity | exact Hin | exact Hn]. }
  destruct (FibFacts.runMin_attained xs infinity) as [E | [Hin Hn]].
  - split; [|intros _; exact E].
    intros Hne. split; [|exact Hall].
    destruct lows as [|x rest] eqn:El; [now contradiction Hne|].
    assert (Hx : In x (x :: rest)) by now left.
    pose proof (Hall x Hx) as Hle. rewrite E in *.
    assert (Hxn : PrimFloat.is_nan x = false).
    { assert (Hx' : In x (numbers xs)) by (fold lows; rewrite El; now left).
      apply filter_In in Hx'. destruct Hx' as [_ Hx'].
      now apply negb_true_iff in Hx'. }
    assert (x = infinity) as <-; [|exact Hx].
    apply FibFacts.not_below_infinity; [exact Hxn|].
    rewrite ltb_spec. rewrite leb_spec in Hle.
    change (Prim2SF infinity) with (S754_infinity false) in *.
    destruct (Prim2SF x) as [s|[|]| |s m e]; try destruct s; cbn in *;
      congruence.
  - assert (Hl : In (FibFacts.runMin xs infinity) lows).
    { apply filter_In. split; [exact Hin|]. now rewrite Hn. }
    split.
    + intros _. split; [exact Hl | exact Hall].
    + intros E. rewrite E in Hl. destruct Hl.
Qed.

(** When every high and low is a number, these are the maximum of all the
    highs and the minimum of all the lows. *)
Lemma extremes_on_numbers (candles : list Candle.t) :
  candles <> [] ->
  Forall (fun c => PrimFloat.is_nan (Candle.high c) = false /\
                   PrimFloat.is_nan (Candle.low c) = false) candles ->
  isMaximum (fst (IndicatorService.extremes candles))
            (map Candle.high candles) /\
  isMinimum (snd (IndicatorService.extremes candles))
            (map Candle.low candles).
Proof.
  intros Hne Hall.
  assert (Hh : numbers (map Candle.high candles) = map Candle.high candles).
  { apply numbers_all. apply Forall_map.
    eapply Forall_impl; [|exact Hall]. intros c [H _]. exact H. }
  assert (Hl : numbers (map Candle.low candles) = map Candle.low candles).
  { apply numbers_all. apply Forall_map.
    eapply Forall_impl; [|exact Hall]. intros c [_ H]. exact H. }
  destruct (extremes_maximum candles) as [Hmax _].
  destruct (extremes_minimum candles) as [Hmin _].
  cbv zeta in Hmax, Hmin. rewrite Hh in Hmax. rewrite Hl in Hmin.
  destruct candles as [|c cs]; [now contradiction Hne|].
  split; [apply Hmax | apply Hmin]; discriminate.
Qed.

(** C6: for every non-empty candle list, [calculateFibonacciLevels] returns
    seven levels: level 0 is [high] and level 1 is [low], exactly, and the
    levels for the ratios 0.236, 0.382, 0.5, 0.618 and 0.786 are
    [high - r * (high - low)], where [high] is the maximum of the candles'
    highs and [low] the minimum of their lows (taken over the values that are
    numbers; minus and plus infinity when there is none); for [high = 200]
    and [low = 100], level 0.618 is 138.2 and level 1 is 100. *)
Theorem calculateFibonacciLevels_levels (candles : list Candle.t) :
  candles <> [] ->
  exists high low : float,
    IndicatorService.calculateFibonacciLevels candles =
      Some {| FibonacciLevels.r0 := high;
              FibonacciLevels.r0236 := high - 0.236 * (high - low);
              FibonacciLevels.r0382 := high - 0.382 * (high - low);
              FibonacciLevels.r05 := high - 0.5 * (high - low);
              FibonacciLevels.r0618 := high - 0.618 * (high - low);
              FibonacciLevels.r0786 := high - 0.786 * (high - low);
              FibonacciLevels.r1 := low |} /\
    (let highs := numbers (map Candle.high candles) in
     (highs <> [] -> isMaximum high highs) /\
     (highs = [] -> high = neg_infinity)) /\
    (let lows := numbers (map Candle.low candles) in
     (lows <> [] -> isMinimum low lows) /\
     (lows = [] -> low = infinity)) /\
    (high = 200 -> low = 100 ->
     high - 0.618 * (high - low) = 138.2 /\ low = 100).
Proof.
  intros Hne.
  exists (fst (IndicatorService.extremes candles)),
         (snd (IndicatorService.extremes candles)).
  split; [|split; [|split]].
  - unfold IndicatorService.calculateFibonacciLevels.
    destruct candles as [|c cs]; [now contradiction Hne|].
    destruct (IndicatorService.extremes (c :: cs)) as [high low].
    reflexivity.
  - apply extremes_maximum.
  - apply extremes_minimum.
  - intros -> ->. split; vm_compute; reflexivity.
Qed.

(** The levels of a window ranging over 100..200. *)
Lemma calculateFibonacciLevels_levels_witness :
  exists high low : float,
    IndicatorService.calculateFibonacciLevels Examples.window =
      Some {| FibonacciLevels.r0 := high;
              FibonacciLevels.r0236 := high - 0.236 * (high - low);
              FibonacciLevels.r0382 := high - 0.382 * (high - low);
              FibonacciLevels.r05 := high - 0.5 * (high - low);
              FibonacciLevels.r0618 := high - 0.618 * (high - low);
              FibonacciLevels.r0786 := high - 0.786 * (high - low);
              FibonacciLevels.r1 := low |} /\
    (let highs := numbers (map Candle.high Examples.window) in
     (highs <> [] -> isMaximum high highs) /\
     (highs = [] -> high = neg_infinity)) /\
    (let lows := numbers (map Candle.low Examples.window) in
     (lows <> [] -> isMinimum low lows) /\
     (lows = [] -> low = infinity)) /\
    (high = 200 -> low = 100 ->
     high - 0.618 * (high - low) = 138.2 /\ low = 100).
Proof.
  apply (calculateFibonacciLevels_levels Examples.window).
  vm_compute. discriminate.
Defined.

(* ================================================================== *)
(** ** Rounding of binary64 products, sums and differences *)
(* ================================================================== *)

(** The risk engine multiplies the entry price by [1 - pct] and [1 + pct].
    This part relates the rounded results to the entry price, from the
    specification of the primitive operations (round to nearest, ties to
    even). *)

Module Rounding.

Local Open Scope Z_scope.

(** binary64: 53 bits of precision, exponents of finite values in
    [-1074, 971]. *)
Abbreviation fexp64 := (SpecFloat.fexp prec emax).

Lemma fexp64_eq (e : Z) : fexp64 e = Z.max (e - 53) (-1074).
Proof. reflexivity. Qed.

Lemma digits2_pos_bounds (m : positive) :
  2 ^ (Zpos (digits2_pos m) - 1) <= Zpos m < 2 ^ Zpos (digits2_pos m).
Proof.
  induction m as [m IH | m IH |]; cbn [digits2_pos].
  - rewrite Pos2Z.inj_succ, Z.pow_succ_r by lia.
    replace (Z.succ (Zpos (digits2_pos m)) - 1) with
      (Z.succ (Zpos (digits2_pos m) - 1)) by lia.
    rewrite Z.pow_succ_r by lia. lia.
  - rewrite Pos2Z.inj_succ, Z.pow_succ_r by lia.
    replace (Z.succ (Zpos (digits2_pos m)) - 1) with
      (Z.succ (Zpos (digits2_pos m) - 1)) by lia.
    rewrite Z.pow_succ_r by lia. lia.
  - cbn. lia.
Qed.

Lemma digits2_pos_unique (m : positive) (k : Z) :
  2 ^ (k - 1) <= Zpos m < 2 ^ k -> Zpos (digits2_pos m) = k.
Proof.
  intros [Hlo Hhi]. pose proof (digits2_pos_bounds m) as [Blo Bhi].
  assert (0 < k).
  { destruct (Z.ltb_spec 0 k); [assumption|].
    assert (2 ^ k <= 2 ^ 0) by (apply Z.pow_le_mono_r; lia).
    cbn in *. lia. }
  destruct (Z.lt_trichotomy (Zpos (digits2_pos m)) k) as [Hlt | [Heq | Hgt]];
    [|exact Heq|].
  - assert (2 ^ Zpos (digits2_pos m) <= 2 ^ (k - 1))
      by (apply Z.pow_le_mono_r; lia). lia.
  - assert (2 ^ k <= 2 ^ (Zpos (digits2_pos m) - 1))
      by (apply Z.pow_le_mono_r; lia). lia.
Qed.

Lemma iter_shift {A : Type} (f : A -> A) (n : nat) (x : A) :
  Nat.iter n f (f x) = f (Nat.iter n f x).
Proof. now rewrite <- Nat.iter_succ_r. Qed.

(** [iter_pos] is plain iteration. *)
Lemma iter_pos_nat {A : Type} (f : A -> A) (p : positive) (x : A) :
  iter_pos f p x = Nat.iter (Pos.to_nat p) f x.
Proof.
  revert x. induction p as [p IH | p IH |]; intros x; cbn [iter_pos].
  - rewrite !IH, Pos2Nat.inj_xI.
    replace (2 * Pos.to_nat p)%nat with (Pos.to_nat p + Pos.to_nat p)%nat
      by lia.
    now rewrite Nat.iter_succ, Nat.iter_add, !iter_shift.
  - rewrite !IH, Pos2Nat.inj_xO.
    replace (2 * Pos.to_nat p)%nat with (Pos.to_nat p + Pos.to_nat p)%nat
      by lia.
    now rewrite Nat.iter_add.
  - reflexivity.
Qed.

(** What [k] right shifts of the mantissa [M] leave: the quotient, and the
    position of the remainder relative to half a unit. *)
Definition shr_inv (M k : Z) (mrs : shr_record) : Prop :=
  0 <= shr_m mrs /\
  let R := M - shr_m mrs * 2 ^ k in
  match shr_r mrs, shr_s mrs with
  | false, false => R = 0
  | false, true => 0 < R /\ 2 * R < 2 ^ k
  | true, false => 2 * R = 2 ^ k
  | true, true => 2 ^ k < 2 * R /\ R < 2 ^ k
  end.

Lemma shr_1_inv (M k : Z) (mrs : shr_record) :
  0 <= k -> shr_inv M k mrs -> shr_inv M (k + 1) (shr_1 mrs).
Proof.
  intros Hk. destruct mrs as [m r s]. unfold shr_inv. cbn [shr_m shr_r shr_s].
  rewrite Z.pow_add_r, Z.pow_1_r by lia.
  assert (HP : 0 < 2 ^ k) by (apply Z.pow_pos_nonneg; lia).
  generalize dependent (2 ^ k). intros P HP. cbv zeta.
  intros [Hm HR].
  destruct m as [|[p|p|]|p]; try lia.
  - (* 0 *)
    cbn [shr_1 shr_m shr_r shr_s].
    destruct r, s; cbn [orb]; split; lia.
  - (* 2p + 1 *)
    assert (E1 : Z.pos p~1 * P = 2 * (Z.pos p * P) + P)
      by (rewrite Pos2Z.inj_xI; ring).
    assert (E2 : Z.pos p * (P * 2) = 2 * (Z.pos p * P)) by ring.
    rewrite E1 in HR. cbn [shr_1 shr_m shr_r shr_s]. rewrite E2.
    generalize dependent (Z.pos p * P). intros X HR.
    destruct r, s; cbn [orb]; split; lia.
  - (* 2p *)
    assert (E1 : Z.pos p~0 * P = 2 * (Z.pos p * P))
      by (rewrite Pos2Z.inj_xO; ring).
    assert (E2 : Z.pos p * (P * 2) = 2 * (Z.pos p * P)) by ring.
    rewrite E1 in HR. cbn [shr_1 shr_m shr_r shr_s]. rewrite E2.
    generalize dependent (Z.pos p * P). intros X HR.
    destruct r, s; cbn [orb]; split; lia.
  - (* 1 *)
    cbn [shr_1 shr_m shr_r shr_s].
    destruct r, s; cbn [orb]; split; lia.
Qed.

Lemma shr_iter_inv (M : Z) (n : nat) :
  0 <= M ->
  shr_inv M (Z.of_nat n)
    (Nat.iter n shr_1 {| shr_m := M; shr_r := false; shr_s := false |}).
Proof.
  intros HM. induction n as [|n IH].
  - unfold shr_inv, Nat.iter. cbn [nat_rect shr_m shr_r shr_s Z.of_nat].
    rewrite Z.pow_0_r. cbv zeta. lia.
  - rewrite Nat2Z.inj_succ, <- Z.add_1_r, Nat.iter_succ.
    apply shr_1_inv; [lia | exact IH].
Qed.

(** The first [shr_fexp] of [binary_round_aux] on a positive mantissa whose
    exponent does not exceed the canonical one. *)
Lemma shr_exact_inv (M : positive) (e n : Z) :
  0 <= n ->
  exists mrs,
    shr {| shr_m := Zpos M; shr_r := false; shr_s := false |} e n
      = (mrs, e + n) /\
    shr_inv (Zpos M) n mrs.
Proof.
  intros Hn. destruct n as [|p|p]; [| |lia].
  - eexists. split; [cbn [shr]; rewrite Z.add_0_r; reflexivity|].
    unfold shr_inv. cbn [shr_m shr_r shr_s]. rewrite Z.pow_0_r.
    cbv zeta. lia.
  - eexists. split; [reflexivity|].
    rewrite iter_pos_nat, <- (positive_nat_Z p).
    apply shr_iter_inv. lia.
Qed.


(** Rounding the quotient to nearest, ties to even, moves it up by at most
    one, and only when the remainder is not zero. *)
Lemma round_after_shift (M n : Z) (mrs : shr_record) :
  0 <= n -> shr_inv M n mrs ->
  let m2 := round_nearest_even (shr_m mrs) (loc_of_shr_record mrs) in
  0 <= m2 /\
  (exists m1, 0 <= m1 /\ m1 * 2 ^ n <= M < (m1 + 1) * 2 ^ n /\
              m1 <= m2 <= m1 + 1) /\
  (forall K, M <= K * 2 ^ n -> m2 <= K) /\
  (forall K, K * 2 ^ n <= M -> K <= m2).
Proof.
  intros Hn [Hm HR]. destruct mrs as [m1 r sb].
  cbn [shr_m shr_r shr_s] in *.
  assert (HP : 0 < 2 ^ n) by (apply Z.pow_pos_nonneg; lia).
  generalize dependent (2 ^ n). intros P HR HP. cbv zeta in HR.
  assert (Hdn : forall K, K * P <= M -> M < (m1 + 1) * P -> K <= m1).
  { intros K H1 H2.
    assert (H : K * P < (m1 + 1) * P) by lia.
    apply Z.mul_lt_mono_pos_r in H; lia. }
  assert (Hstrict : forall K, M <= K * P -> m1 * P < M -> m1 + 1 <= K).
  { intros K H1 H2.
    assert (H : m1 * P < K * P) by lia.
    apply Z.mul_lt_mono_pos_r in H; lia. }
  assert (Hle : forall K, M <= K * P -> m1 * P <= M -> m1 <= K).
  { intros K H1 H2.
    assert (H : m1 * P <= K * P) by lia.
    apply Z.mul_le_mono_pos_r in H; lia. }
  assert (E1 : (m1 + 1) * P = m1 * P + P) by ring.
  destruct r, sb; cbn [loc_of_shr_record round_nearest_even].
  - (* above half *)
    split; [lia|]. split; [exists m1; lia|]. split.
    + intros K HK. apply Hstrict; [exact HK | lia].
    + intros K HK. assert (K <= m1) by (apply Hdn; [exact HK | lia]). lia.
  - (* exactly half *)
    assert (Hm2 : m1 <= (if Z.even m1 then m1 else m1 + 1) <= m1 + 1)
      by (destruct (Z.even m1); lia).
    split; [lia|]. split; [exists m1; lia|]. split.
    + intros K HK. assert (m1 + 1 <= K) by (apply Hstrict; [exact HK | lia]).
      lia.
    + intros K HK. assert (K <= m1) by (apply Hdn; [exact HK | lia]). lia.
  - (* below half *)
    split; [lia|]. split; [exists m1; lia|]. split.
    + intros K HK. apply Hle; [exact HK | lia].
    + intros K HK. apply Hdn; [exact HK | lia].
  - (* exact *)
    split; [lia|]. split; [exists m1; lia|]. split.
    + intros K HK. apply Hle; [exact HK | lia].
    + intros K HK. apply Hdn; [exact HK | lia].
Qed.

Lemma shr_nonpos (mrs : shr_record) (e n : Z) :
  n <= 0 -> shr mrs e n = (mrs, e).
Proof. intros H. destruct n; [reflexivity | lia | reflexivity]. Qed.

Lemma E_lower (x : Z) : -1074 <= fexp64 x.
Proof. rewrite fexp64_eq. lia. Qed.

(** [binary_round_aux] on an exact positive mantissa [M] at exponent [e],
    [e] not above the canonical exponent [E]: the result is determined by a
    rounded mantissa [m2] at exponent [E]. *)
Lemma binary_round_aux_char (s : bool) (M : positive) (e : Z) :
  let E := fexp64 (Zpos (digits2_pos M) + e) in
  e <= E ->
  exists m2 : Z,
    0 <= m2 <= 2 ^ 53 /\
    (forall K, Zpos M <= K * 2 ^ (E - e) -> m2 <= K) /\
    (forall K, K * 2 ^ (E - e) <= Zpos M -> K <= m2) /\
    (-1074 < E -> 2 ^ 52 <= m2) /\
    binary_round_aux prec emax s (Zpos M) e loc_Exact =
      if m2 =? 0 then S754_zero s
      else if m2 <? 2 ^ 53 then
        if E <=? 971 then S754_finite s (Z.to_pos m2) E else S754_infinity s
      else
        if E + 1 <=? 971 then S754_finite s (Z.to_pos (2 ^ 52)) (E + 1)
        else S754_infinity s.
Proof.
  intros E HE.
  pose proof (digits2_pos_bounds M) as [Dlo Dhi].
  set (d := Zpos (digits2_pos M)) in *.
  assert (HEeq : E = Z.max (d + e - 53) (-1074)) by reflexivity.
  assert (Hn : 0 <= E - e) by lia.
  destruct (shr_exact_inv M e (E - e) Hn) as (mrs & Hshr & Hinv).
  replace (e + (E - e)) with E in Hshr by lia.
  destruct (round_after_shift _ _ _ Hn Hinv) as (H0 & _ & Ha & Hb).
  set (m2 := round_nearest_even (shr_m mrs) (loc_of_shr_record mrs)) in *.
  exists m2.
  assert (Hhi : m2 <= 2 ^ 53).
  { apply Ha. rewrite <- Z.pow_add_r by lia.
    assert (2 ^ d <= 2 ^ (53 + (E - e))) by (apply Z.pow_le_mono_r; lia).
    lia. }
  assert (Hlo : -1074 < E -> 2 ^ 52 <= m2).
  { intros Hnorm. apply Hb. rewrite <- Z.pow_add_r by lia.
    replace (52 + (E - e)) with (d - 1) by lia. exact Dlo. }
  split; [lia|]. split; [exact Ha|]. split; [exact Hb|]. split; [exact Hlo|].
  unfold binary_round_aux, shr_fexp.
  cbn [shr_record_of_loc Zdigits2]. fold d. fold E. rewrite Hshr. fold m2.
  change (emax - prec) with 971.
  destruct (Z.eqb_spec m2 0) as [Hz | Hnz].
  - rewrite Hz. cbn [Zdigits2]. rewrite shr_nonpos.
    + reflexivity.
    + pose proof (E_lower (d + e)). fold E in H. rewrite fexp64_eq. lia.
  - destruct m2 as [|q|q] eqn:Em2; [lia| |lia].
    cbn [Zdigits2].
    pose proof (digits2_pos_bounds q) as [Qlo Qhi].
    destruct (Z.ltb_spec (Zpos q) (2 ^ 53)) as [Hlt | Hge].
    + assert (Hd2 : Zpos (digits2_pos q) <= 53).
      { destruct (Z.leb_spec (Zpos (digits2_pos q)) 53); [assumption|].
        assert (2 ^ 53 <= 2 ^ (Zpos (digits2_pos q) - 1))
          by (apply Z.pow_le_mono_r; lia). lia. }
      assert (Hfix : fexp64 (Zpos (digits2_pos q) + E) - E = 0).
      { rewrite fexp64_eq.
        destruct (Z.eq_dec E (-1074)) as [Emin | Enorm]; [lia|].
        assert (Hq : 2 ^ 52 <= Zpos q) by (apply Hlo; lia).
        rewrite (digits2_pos_unique q 53) by (cbn in *; lia). lia. }
      rewrite Hfix. cbn [shr shr_m]. rewrite Pos2Z.id. reflexivity.
    + assert (Hq : Zpos q = 2 ^ 53) by lia.
      rewrite (digits2_pos_unique q 54) by (cbn in *; lia).
      assert (Hfix : fexp64 (54 + E) - E = 1) by (rewrite fexp64_eq; lia).
      rewrite Hfix. injection Hq as ->. cbn [shr iter_pos shr_1 shr_m].
      reflexivity.
Qed.

(** Values are compared as integers after scaling by [2 ^ scale]: every
    exponent met below is at least [- scale]. *)
Definition scale : Z := 2200.

Definition scaled (m e : Z) : Z := m * 2 ^ (e + scale).

Lemma bounded_facts (mx : positive) (ex : Z) :
  bounded prec emax mx ex = true ->
  -1074 <= ex <= 971 /\ Zpos mx < 2 ^ 53 /\ (-1074 < ex -> 2 ^ 52 <= Zpos mx)
  /\ fexp64 (Zpos (digits2_pos mx) + ex) = ex.
Proof.
  unfold bounded, canonical_mantissa. intros H.
  apply andb_true_iff in H. destruct H as [Hc Hb].
  apply Z.eqb_eq in Hc. apply Z.leb_le in Hb.
  change (emax - prec) with 971 in Hb.
  pose proof (digits2_pos_bounds mx) as [Dlo Dhi].
  pose proof Hc as Hc'. rewrite fexp64_eq in Hc'.
  set (d := Zpos (digits2_pos mx)) in *.
  assert (Hd : d <= 53) by lia.
  repeat split; try lia.
  - assert (2 ^ d <= 2 ^ 53) by (apply Z.pow_le_mono_r; lia). lia.
  - intros Hn. assert (d = 53) by lia.
    replace (d - 1) with 52 in Dlo by lia. exact Dlo.
Qed.

Lemma pow2_pos (k : Z) : 0 <= k -> 0 < 2 ^ k.
Proof. intros. apply Z.pow_pos_nonneg; lia. Qed.

(** Comparing scaled values at two exponents above a common one. *)
Lemma scaled_le_cancel (a b e1 e2 : Z) :
  - scale <= e1 -> e1 <= e2 ->
  (scaled a e1 <= scaled b e2 <-> a <= b * 2 ^ (e2 - e1)).
Proof.
  intros H1 H2. unfold scaled.
  replace (e2 + scale) with ((e2 - e1) + (e1 + scale)) by lia.
  rewrite (Z.pow_add_r 2 (e2 - e1) (e1 + scale)) by lia.
  pose proof (pow2_pos (e1 + scale) ltac:(lia)) as HP.
  rewrite Z.mul_assoc. split; intros H.
  - apply Z.mul_le_mono_pos_r in H; assumption.
  - apply Z.mul_le_mono_pos_r; assumption.
Qed.

Lemma scaled_ge_cancel (a b e1 e2 : Z) :
  - scale <= e1 -> e1 <= e2 ->
  (scaled b e2 <= scaled a e1 <-> b * 2 ^ (e2 - e1) <= a).
Proof.
  intros H1 H2. unfold scaled.
  replace (e2 + scale) with ((e2 - e1) + (e1 + scale)) by lia.
  rewrite (Z.pow_add_r 2 (e2 - e1) (e1 + scale)) by lia.
  pose proof (pow2_pos (e1 + scale) ltac:(lia)) as HP.
  rewrite Z.mul_assoc. split; intros H.
  - apply Z.mul_le_mono_pos_r in H; assumption.
  - apply Z.mul_le_mono_pos_r; assumption.
Qed.

Lemma scaled_digits_lower (M : positive) (e : Z) :
  - scale <= e ->
  2 ^ (Zpos (digits2_pos M) - 1 + (e + scale)) <= scaled (Zpos M) e.
Proof.
  intros He. pose proof (digits2_pos_bounds M) as [Dlo _].
  rewrite Z.pow_add_r by lia. unfold scaled.
  apply Z.mul_le_mono_nonneg_r; [|exact Dlo].
  apply Z.lt_le_incl, pow2_pos. lia.
Qed.

Lemma scaled_upper (m e k : Z) :
  - scale <= e -> 0 <= k -> m < 2 ^ k ->
  scaled m e < 2 ^ (k + (e + scale)).
Proof.
  intros He Hk Hm. rewrite Z.pow_add_r by lia. unfold scaled.
  apply Z.mul_lt_mono_pos_r; [|exact Hm]. apply pow2_pos. lia.
Qed.

(** Rounding an exact value that does not exceed a representable one gives a
    result that does not exceed it either. *)
Lemma round_le (s : bool) (M : positive) (e : Z) (mx : positive) (ex : Z) :
  e <= fexp64 (Zpos (digits2_pos M) + e) ->
  - scale <= e ->
  bounded prec emax mx ex = true ->
  scaled (Zpos M) e <= scaled (Zpos mx) ex ->
  binary_round_aux prec emax s (Zpos M) e loc_Exact = S754_zero s \/
  exists m' e',
    binary_round_aux prec emax s (Zpos M) e loc_Exact = S754_finite s m' e' /\
    (e' < ex \/ (e' = ex /\ (m' <= mx)%positive)).
Proof.
  intros HE He Hb Hle.
  assert (Hs : scale = 2200) by reflexivity.
  destruct (bounded_facts _ _ Hb) as (Hex & Hmx & Hnorm).
  destruct (binary_round_aux_char s M e HE) as (m2 & Hm2 & Ha & _ & Hlo & ->).
  pose proof (digits2_pos_bounds M) as [Dlo Dhi].
  pose proof (eq_refl : fexp64 (Zpos (digits2_pos M) + e) =
                        Z.max (Zpos (digits2_pos M) + e - 53) (-1074)) as HEeq.
  set (d := Zpos (digits2_pos M)) in *.
  set (E := fexp64 (d + e)) in *.
  change (2 ^ 53) with 9007199254740992 in *.
  change (2 ^ 52) with 4503599627370496 in *.
  destruct (Z.le_gt_cases E ex) as [HEx | HEx].
  - assert (Hk : m2 <= Zpos mx * 2 ^ (ex - E)).
    { apply Ha. rewrite <- Z.mul_assoc, <- Z.pow_add_r by lia.
      replace (ex - E + (E - e)) with (ex - e) by lia.
      apply scaled_le_cancel; [lia | lia | exact Hle]. }
    destruct (Z.eqb_spec m2 0) as [Hz | Hnz]; [now left|]. right.
    destruct (Z.ltb_spec m2 9007199254740992) as [Hlt | Hge].
    + rewrite (proj2 (Z.leb_le E 971)) by lia.
      exists (Z.to_pos m2), E. split; [reflexivity|].
      destruct (Z.eq_dec E ex) as [Heq | Hne]; [right | left; lia].
      split; [exact Heq|]. rewrite Heq, Z.sub_diag, Z.pow_0_r in Hk. lia.
    + assert (Hgap : 1 <= ex - E).
      { destruct (Z.eq_dec E ex) as [Heq | Hne]; [|lia].
        rewrite Heq, Z.sub_diag, Z.pow_0_r in Hk. lia. }
      rewrite (proj2 (Z.leb_le (E + 1) 971)) by lia.
      exists (Z.to_pos 4503599627370496), (E + 1). split; [reflexivity|].
      destruct (Z.eq_dec (E + 1) ex) as [Heq | Hne]; [right | left; lia].
      split; [exact Heq|].
      replace (ex - E) with 1 in Hk by lia. rewrite Z.pow_1_r in Hk. lia.
  - exfalso.
    assert (HEn : E = d + e - 53) by lia.
    pose proof (scaled_digits_lower M e He) as H1. fold d in H1.
    pose proof (scaled_upper (Zpos mx) ex 53 ltac:(lia) ltac:(lia) Hmx) as H2.
    assert (H3 : 2 ^ (53 + (ex + scale)) <= 2 ^ (d - 1 + (e + scale)))
      by (apply Z.pow_le_mono_r; lia).
    lia.
Qed.

(** Rounding an exact value that is at least a representable one gives a
    result that is at least that one. *)
Lemma round_ge (s : bool) (M : positive) (e : Z) (mx : positive) (ex : Z) :
  e <= fexp64 (Zpos (digits2_pos M) + e) ->
  - scale <= e ->
  bounded prec emax mx ex = true ->
  scaled (Zpos mx) ex <= scaled (Zpos M) e ->
  binary_round_aux prec emax s (Zpos M) e loc_Exact = S754_infinity s \/
  exists m' e',
    binary_round_aux prec emax s (Zpos M) e loc_Exact = S754_finite s m' e' /\
    (ex < e' \/ (e' = ex /\ (mx <= m')%positive)).
Proof.
  intros HE He Hb Hle.
  assert (Hs : scale = 2200) by reflexivity.
  destruct (bounded_facts _ _ Hb) as (Hex & Hmx & Hnorm).
  destruct (binary_round_aux_char s M e HE) as (m2 & Hm2 & _ & Hbk & Hlo & ->).
  pose proof (eq_refl : fexp64 (Zpos (digits2_pos M) + e) =
                        Z.max (Zpos (digits2_pos M) + e - 53) (-1074)) as HEeq.
  set (d := Zpos (digits2_pos M)) in *.
  set (E := fexp64 (d + e)) in *.
  change (2 ^ 53) with 9007199254740992 in *.
  change (2 ^ 52) with 4503599627370496 in *.
  destruct (Z.le_gt_cases E ex) as [HEx | HEx].
  - assert (Hk : Zpos mx * 2 ^ (ex - E) <= m2).
    { apply Hbk. rewrite <- Z.mul_assoc, <- Z.pow_add_r by lia.
      replace (ex - E + (E - e)) with (ex - e) by lia.
      apply scaled_ge_cancel; [lia | lia | exact Hle]. }
    assert (HP : 0 < 2 ^ (ex - E)) by (apply pow2_pos; lia).
    assert (Hpos : 0 < m2) by nia.
    destruct (Z.eqb_spec m2 0) as [Hz | Hnz]; [lia|].
    destruct (Z.ltb_spec m2 9007199254740992) as [Hlt | Hge].
    + destruct (Z.leb_spec E 971); [right | now left].
      exists (Z.to_pos m2), E. split; [reflexivity|].
      destruct (Z.eq_dec E ex) as [Heq | Hne].
      * right. split; [exact Heq|].
        rewrite Heq, Z.sub_diag, Z.pow_0_r in Hk. lia.
      * exfalso. assert (Hn : 4503599627370496 <= Zpos mx)
          by (apply Hnorm; lia).
        assert (Hp : 2 ^ 1 <= 2 ^ (ex - E)) by (apply Z.pow_le_mono_r; lia).
        rewrite Z.pow_1_r in Hp. nia.
    + destruct (Z.leb_spec (E + 1) 971); [right | now left].
      exists (Z.to_pos 4503599627370496), (E + 1). split; [reflexivity|].
      destruct (Z.lt_trichotomy ex (E + 1)) as [Hlt | [Heq | Hgt]].
      * left. exact Hlt.
      * right. split; [lia|].
        replace (ex - E) with 1 in Hk by lia. rewrite Z.pow_1_r in Hk. lia.
      * exfalso. assert (Hn : 4503599627370496 <= Zpos mx)
          by (apply Hnorm; lia).
        assert (Hp : 2 ^ 2 <= 2 ^ (ex - E)) by (apply Z.pow_le_mono_r; lia).
        change (2 ^ 2) with 4 in Hp. nia.
  - assert (Hn : 4503599627370496 <= m2) by (apply Hlo; lia).
    destruct (Z.eqb_spec m2 0) as [Hz | Hnz]; [lia|].
    destruct (Z.ltb_spec m2 9007199254740992) as [Hlt | Hge].
    + destruct (Z.leb_spec E 971); [right | now left].
      exists (Z.to_pos m2), E. split; [reflexivity|]. left. exact HEx.
    + destruct (Z.leb_spec (E + 1) 971); [right | now left].
      exists (Z.to_pos 4503599627370496), (E + 1). split; [reflexivity|].
      left. lia.
Qed.

(** The result of [binary_round_aux] carries the sign it was given and is
    never NaN. *)
Lemma binary_round_aux_shape (s : bool) (M : positive) (e : Z) :
  e <= fexp64 (Zpos (digits2_pos M) + e) ->
  binary_round_aux prec emax s (Zpos M) e loc_Exact = S754_zero s \/
  binary_round_aux prec emax s (Zpos M) e loc_Exact = S754_infinity s \/
  exists m' e',
    binary_round_aux prec emax s (Zpos M) e loc_Exact = S754_finite s m' e'.
Proof.
  intros HE.
  destruct (binary_round_aux_char s M e HE) as (m2 & _ & _ & _ & _ & ->).
  repeat match goal with
    | |- context [if ?b then _ else _] => destruct b
    end; eauto.
Qed.

(** *** Alignment *)

Lemma iter_xO (m d : positive) :
  Zpos (Pos.iter xO m d) = Zpos m * 2 ^ Zpos d.
Proof.
  induction d as [|d IH] using Pos.peano_ind.
  - cbn [Pos.iter]. rewrite Z.pow_1_r. lia.
  - rewrite Pos.iter_succ, Pos2Z.inj_xO, IH, Pos2Z.inj_succ,
      Z.pow_succ_r by lia. ring.
Qed.

Lemma shl_align_down (m : positive) (e e' : Z) :
  e' <= e ->
  snd (shl_align m e e') = e' /\
  Zpos (fst (shl_align m e e')) = Zpos m * 2 ^ (e - e').
Proof.
  intros H. unfold shl_align.
  destruct (e' - e) as [|d|d] eqn:Ed; cbn [fst snd].
  - assert (e' = e) by lia. subst e'. rewrite Z.sub_diag, Z.pow_0_r. lia.
  - lia.
  - rewrite iter_xO. replace (e - e') with (Zpos d) by lia. lia.
Qed.

Lemma shl_align_up (m : positive) (e e' : Z) :
  e <= e' -> shl_align m e e' = (m, e).
Proof.
  intros H. unfold shl_align.
  destruct (e' - e) as [|d|d] eqn:Ed; [reflexivity | reflexivity | lia].
Qed.

Lemma digits2_pos_shift (m q : positive) (k : Z) :
  0 <= k -> Zpos q = Zpos m * 2 ^ k ->
  Zpos (digits2_pos q) = Zpos (digits2_pos m) + k.
Proof.
  intros Hk Hq. apply digits2_pos_unique.
  pose proof (digits2_pos_bounds m) as [Dlo Dhi].
  pose proof (pow2_pos k Hk) as HP.
  rewrite Hq.
  replace (Zpos (digits2_pos m) + k - 1) with (Zpos (digits2_pos m) - 1 + k)
    by lia.
  rewrite !Z.pow_add_r by lia. split.
  - apply Z.mul_le_mono_nonneg_r; lia.
  - apply Z.mul_lt_mono_pos_r; lia.
Qed.

(** [binary_round] first aligns the mantissa so that [binary_round_aux]
    starts at or below the canonical exponent, without changing the value. *)
Lemma binary_round_aligned (s : bool) (m : positive) (e : Z) :
  - scale <= e -> -1074 <= e ->
  exists (M : positive) (e0 : Z),
    binary_round prec emax s m e =
      binary_round_aux prec emax s (Zpos M) e0 loc_Exact /\
    e0 <= fexp64 (Zpos (digits2_pos M) + e0) /\
    - scale <= e0 /\
    scaled (Zpos M) e0 = scaled (Zpos m) e.
Proof.
  intros He Hemin. unfold binary_round.
  set (E := SpecFloat.fexp prec emax (Zpos (digits2_pos m) + e)).
  assert (Hs : scale = 2200) by reflexivity.
  pose proof (E_lower (Zpos (digits2_pos m) + e)) as HEl. fold E in HEl.
  destruct (Z.le_gt_cases e E) as [Hle | Hgt].
  - rewrite shl_align_up by exact Hle.
    exists m, e. repeat split; try assumption.
  - destruct (shl_align_down m e E ltac:(lia)) as [Hsnd Hfst].
    destruct (shl_align m e E) as [mz ez]. cbn [fst snd] in *. subst ez.
    exists mz, E. split; [reflexivity|].
    rewrite (digits2_pos_shift m mz (e - E)) by (assumption || lia).
    replace (Zpos (digits2_pos m) + (e - E) + E)
      with (Zpos (digits2_pos m) + e) by lia.
    fold E. split; [lia|]. split; [lia|].
    unfold scaled. rewrite Hfst, <- Z.mul_assoc, <- Z.pow_add_r by lia.
    f_equal. f_equal. lia.
Qed.

(** *** Orders on positive finite values *)

Lemma SFleb_finite_pos (m1 : positive) (e1 : Z) (m2 : positive) (e2 : Z) :
  e1 < e2 \/ (e1 = e2 /\ (m1 <= m2)%positive) ->
  SFleb (S754_finite false m1 e1) (S754_finite false m2 e2) = true.
Proof.
  unfold SFleb, SFcompare. intros [H | [-> H]].
  - apply Z.compare_lt_iff in H. rewrite H. reflexivity.
  - rewrite Z.compare_refl.
    change (PosDef.Pos.compare_cont Eq m1 m2) with (Pos.compare m1 m2).
    destruct (Pos.compare_spec m1 m2); try reflexivity. lia.
Qed.

Lemma SFleb_signed_below (s : bool) (x : spec_float) (mx : positive)
    (ex : Z) :
  x = S754_zero s \/ x = S754_infinity true \/
  (exists m e, x = S754_finite true m e) ->
  SFleb x (S754_finite false mx ex) = true.
Proof.
  intros [-> | [-> | (m & e & ->)]]; reflexivity.
Qed.

(** One, as a binary64 value. *)
Definition one64 : spec_float := S754_finite false 4503599627370496 (-52).

(** A value at most one has a mantissa at most [2 ^ - e]. *)
Lemma at_most_one (mf : positive) (ef : Z) :
  bounded prec emax mf ef = true ->
  SFleb (S754_finite false mf ef) one64 = true ->
  ef <= -52 /\ Zpos mf <= 2 ^ (- ef).
Proof.
  intros Hb Hle. destruct (bounded_facts _ _ Hb) as (Hef & Hmf & _).
  unfold SFleb, one64, SFcompare in Hle.
  destruct (Z.compare_spec ef (-52)) as [Heq | Hlt | Hgt].
  - subst ef. rewrite Pos.compare_cont_spec in Hle.
    cbn [Pos.switch_Eq] in Hle.
    rewrite Pos2Z.inj_compare in Hle.
    destruct (Z.compare_spec (Zpos mf) (Zpos 4503599627370496));
      try discriminate; split; lia.
  - split; [lia|].
    assert (2 ^ 53 <= 2 ^ (- ef)) by (apply Z.pow_le_mono_r; lia). lia.
  - discriminate.
Qed.

(** A value at least one has a mantissa at least [2 ^ - e] when its exponent
    is not positive. *)
Lemma at_least_one (mg : positive) (eg : Z) :
  bounded prec emax mg eg = true ->
  SFleb one64 (S754_finite false mg eg) = true ->
  -52 <= eg /\ (eg <= 0 -> 2 ^ (- eg) <= Zpos mg).
Proof.
  intros Hb Hle. destruct (bounded_facts _ _ Hb) as (Heg & Hmg & Hnorm).
  unfold SFleb, one64, SFcompare in Hle.
  destruct (Z.compare_spec (-52) eg) as [Heq | Hlt | Hgt].
  - subst eg. rewrite Pos.compare_cont_spec in Hle.
    cbn [Pos.switch_Eq] in Hle.
    rewrite Pos2Z.inj_compare in Hle.
    destruct (Z.compare_spec (Zpos 4503599627370496) (Zpos mg));
      try discriminate; split; lia.
  - split; [lia|]. intros Hneg.
    assert (2 ^ 52 <= Zpos mg) by (apply Hnorm; lia).
    assert (2 ^ (- eg) <= 2 ^ 52) by (apply Z.pow_le_mono_r; lia). lia.
  - discriminate.
Qed.

(** The exponent of an exact product is not above its canonical exponent. *)
Lemma mul_exponent_ok (mx : positive) (ex : Z) (mf : positive) (ef : Z) :
  bounded prec emax mx ex = true -> bounded prec emax mf ef = true ->
  ex + ef <= fexp64 (Zpos (digits2_pos (mx * mf)) + (ex + ef)).
Proof.
  intros Hx Hf.
  unfold bounded, canonical_mantissa in Hx, Hf.
  apply andb_true_iff in Hx, Hf. destruct Hx as [Hx _], Hf as [Hf _].
  apply Z.eqb_eq in Hx, Hf. rewrite fexp64_eq in *.
  pose proof (digits2_pos_bounds mx) as [Xlo Xhi].
  pose proof (digits2_pos_bounds mf) as [Flo Fhi].
  pose proof (digits2_pos_bounds (mx * mf)) as [Mlo Mhi].
  set (dx := Zpos (digits2_pos mx)) in *.
  set (df := Zpos (digits2_pos mf)) in *.
  set (dm := Zpos (digits2_pos (mx * mf))) in *.
  assert (Hdx : 1 <= dx) by (unfold dx; lia).
  assert (Hdf : 1 <= df) by (unfold df; lia).
  assert (Hdm : dx + df - 1 <= dm).
  { destruct (Z.le_gt_cases (dx + df - 1) dm) as [H | H]; [exact H|].
    exfalso.
    assert (H1 : 2 ^ dm <= 2 ^ (dx - 1 + (df - 1)))
      by (apply Z.pow_le_mono_r; lia).
    rewrite Z.pow_add_r in H1 by lia.
    assert (H2 : 2 ^ (dx - 1) * 2 ^ (df - 1) <= Zpos mx * Zpos mf).
    { apply Z.mul_le_mono_nonneg; try assumption;
        apply Z.lt_le_incl, pow2_pos; lia. }
    rewrite Pos2Z.inj_mul in Mhi. lia. }
  lia.
Qed.

(** *** Multiplying a positive finite value by a factor on one side of one *)

Lemma SFmul_le_self (mx : positive) (ex : Z) (f : spec_float) :
  bounded prec emax mx ex = true ->
  SpecFloat.valid_binary prec emax f = true ->
  SFleb f one64 = true ->
  SFleb (SFmul prec emax (S754_finite false mx ex) f)
        (S754_finite false mx ex) = true.
Proof.
  intros Hx Hf Hle.
  assert (Hs : scale = 2200) by reflexivity.
  destruct (bounded_facts _ _ Hx) as (Hex & Hmx & _).
  destruct f as [sf | sf | | sf mf ef]; cbn [SFmul xorb].
  - reflexivity.
  - destruct sf; [reflexivity | discriminate Hle].
  - discriminate Hle.
  - cbn [SpecFloat.valid_binary] in Hf.
    destruct (bounded_facts _ _ Hf) as (Hef & Hmf & _).
    pose proof (mul_exponent_ok mx ex mf ef Hx Hf) as Hok.
    destruct sf.
    + apply (SFleb_signed_below true).
      destruct (binary_round_aux_shape true (mx * mf) (ex + ef) Hok)
        as [-> | [-> | (m' & e' & ->)]]; eauto.
    + destruct (at_most_one mf ef Hf Hle) as [Hneg Hm].
      destruct (round_le false (mx * mf) (ex + ef) mx ex Hok ltac:(lia) Hx)
        as [-> | (m' & e' & -> & Hord)].
      * apply scaled_le_cancel; [lia | lia |].
        replace (ex - (ex + ef)) with (- ef) by lia.
        rewrite Pos2Z.inj_mul. apply Z.mul_le_mono_nonneg_l; lia.
      * reflexivity.
      * apply SFleb_finite_pos. exact Hord.
Qed.

Lemma SFmul_ge_self (mx : positive) (ex : Z) (g : spec_float) :
  bounded prec emax mx ex = true ->
  SpecFloat.valid_binary prec emax g = true ->
  SFleb one64 g = true ->
  SFleb (S754_finite false mx ex)
        (SFmul prec emax (S754_finite false mx ex) g) = true.
Proof.
  intros Hx Hg Hle.
  assert (Hs : scale = 2200) by reflexivity.
  destruct (bounded_facts _ _ Hx) as (Hex & Hmx & _).
  destruct g as [sg | sg | | sg mg eg]; cbn [SFmul xorb].
  - discriminate Hle.
  - destruct sg; [discriminate Hle | reflexivity].
  - discriminate Hle.
  - destruct sg; [discriminate Hle|].
    cbn [SpecFloat.valid_binary] in Hg.
    destruct (bounded_facts _ _ Hg) as (Heg & Hmg & _).
    pose proof (mul_exponent_ok mx ex mg eg Hx Hg) as Hok.
    destruct (at_least_one mg eg Hg Hle) as [Hlow Hm].
    destruct (round_ge false (mx * mg) (ex + eg) mx ex Hok ltac:(lia) Hx)
      as [-> | (m' & e' & -> & Hord)].
    + rewrite Pos2Z.inj_mul.
      destruct (Z.le_gt_cases eg 0) as [Hneg | Hpos].
      * apply scaled_ge_cancel; [lia | lia |].
        replace (ex - (ex + eg)) with (- eg) by lia.
        apply Z.mul_le_mono_nonneg_l; [lia | auto].
      * apply scaled_le_cancel; [lia | lia |].
        replace (ex + eg - ex) with eg by lia.
        pose proof (pow2_pos eg ltac:(lia)) as HP.
        assert (1 <= Zpos mg * 2 ^ eg) by nia.
        rewrite <- Z.mul_assoc. nia.
    + reflexivity.
    + apply SFleb_finite_pos.
      destruct Hord as [H | [-> H]]; [left; exact H | right; split; auto].
Qed.

(** *** Adding to or subtracting from a positive finite value *)

Lemma align_value (m : positive) (e ez : Z) :
  - scale <= ez -> ez <= e ->
  scaled (Zpos (fst (shl_align m e ez))) ez = scaled (Zpos m) e.
Proof.
  intros Hz He. destruct (shl_align_down m e ez He) as [_ ->].
  unfold scaled. rewrite <- Z.mul_assoc, <- Z.pow_add_r by lia.
  f_equal. f_equal. lia.
Qed.

Lemma normalize_le (D ez : Z) (mx : positive) (ex : Z) :
  -1074 <= ez ->
  bounded prec emax mx ex = true ->
  scaled D ez <= scaled (Zpos mx) ex ->
  SFleb (binary_normalize prec emax D ez false) (S754_finite false mx ex)
    = true.
Proof.
  intros Hz Hx Hle. assert (Hs : scale = 2200) by reflexivity.
  destruct D as [|p|p]; cbn [binary_normalize].
  - reflexivity.
  - destruct (binary_round_aligned false p ez ltac:(lia) Hz)
      as (M & e0 & -> & Hok & He0 & Hval).
    rewrite <- Hval in Hle.
    destruct (round_le false M e0 mx ex Hok He0 Hx Hle)
      as [-> | (m' & e' & -> & Hord)]; [reflexivity|].
    apply SFleb_finite_pos. exact Hord.
  - destruct (binary_round_aligned true p ez ltac:(lia) Hz)
      as (M & e0 & -> & Hok & _ & _).
    apply (SFleb_signed_below true).
    destruct (binary_round_aux_shape true M e0 Hok)
      as [-> | [-> | (m' & e' & ->)]]; eauto.
Qed.

Lemma normalize_ge (D ez : Z) (mx : positive) (ex : Z) :
  -1074 <= ez ->
  bounded prec emax mx ex = true ->
  scaled (Zpos mx) ex <= scaled D ez ->
  SFleb (S754_finite false mx ex) (binary_normalize prec emax D ez false)
    = true.
Proof.
  intros Hz Hx Hle. assert (Hs : scale = 2200) by reflexivity.
  destruct (bounded_facts _ _ Hx) as (Hex & _).
  assert (Hpos : 0 < scaled (Zpos mx) ex).
  { unfold scaled. apply Z.mul_pos_pos; [lia | apply pow2_pos; lia]. }
  assert (HP : 0 < 2 ^ (ez + scale)) by (apply pow2_pos; lia).
  destruct D as [|p|p]; cbn [binary_normalize].
  - unfold scaled in Hle at 2. lia.
  - destruct (binary_round_aligned false p ez ltac:(lia) Hz)
      as (M & e0 & -> & Hok & He0 & Hval).
    rewrite <- Hval in Hle.
    destruct (round_ge false M e0 mx ex Hok He0 Hx Hle)
      as [-> | (m' & e' & -> & Hord)]; [reflexivity|].
    apply SFleb_finite_pos.
    destruct Hord as [H | [-> H]]; [left; exact H | right; split; auto].
  - unfold scaled in Hle at 2. nia.
Qed.

(** Zero is below exactly the positive finite values and plus infinity. *)
Lemma positive_cases (s : spec_float) :
  SFltb (S754_zero false) s = true ->
  s = S754_infinity false \/ exists ms es, s = S754_finite false ms es.
Proof.
  destruct s as [b | [|] | | [|] ms es]; cbn; intros H; try discriminate;
    eauto.
Qed.

Lemma SFsub_le_self (mx : positive) (ex : Z) (s : spec_float) :
  bounded prec emax mx ex = true ->
  SpecFloat.valid_binary prec emax s = true ->
  SFltb (S754_zero false) s = true ->
  SFleb (SFsub prec emax (S754_finite false mx ex) s)
        (S754_finite false mx ex) = true.
Proof.
  intros Hx Hv Hpos. assert (Hs : scale = 2200) by reflexivity.
  destruct (bounded_facts _ _ Hx) as (Hex & _).
  destruct (positive_cases s Hpos) as [-> | (ms & es & ->)];
    [reflexivity|].
  cbn [SpecFloat.valid_binary] in Hv.
  destruct (bounded_facts _ _ Hv) as (Hes & _).
  cbn [SFsub cond_Zopp]. apply normalize_le; [lia | exact Hx |].
  set (ez := Z.min ex es).
  rewrite <- (align_value mx ex ez) by lia.
  unfold scaled. apply Z.mul_le_mono_nonneg_r; [|lia].
  apply Z.lt_le_incl, pow2_pos. lia.
Qed.

Lemma SFadd_ge_self (mx : positive) (ex : Z) (s : spec_float) :
  bounded prec emax mx ex = true ->
  SpecFloat.valid_binary prec emax s = true ->
  SFltb (S754_zero false) s = true ->
  SFleb (S754_finite false mx ex)
        (SFadd prec emax (S754_finite false mx ex) s) = true.
Proof.
  intros Hx Hv Hpos. assert (Hs : scale = 2200) by reflexivity.
  destruct (bounded_facts _ _ Hx) as (Hex & _).
  destruct (positive_cases s Hpos) as [-> | (ms & es & ->)];
    [reflexivity|].
  cbn [SpecFloat.valid_binary] in Hv.
  destruct (bounded_facts _ _ Hv) as (Hes & _).
  cbn [SFadd cond_Zopp]. apply normalize_ge; [lia | exact Hx |].
  set (ez := Z.min ex es).
  rewrite <- (align_value mx ex ez) by lia.
  unfold scaled. apply Z.mul_le_mono_nonneg_r; [|lia].
  apply Z.lt_le_incl, pow2_pos. lia.
Qed.

End Rounding.

(** ** Trade sizing (C1) *)

Module FloatFacts.

Lemma positive_finite (x : float) :
  (0 <? x) = true -> (x <? infinity) = true ->
  exists mx ex,
    Prim2SF x = S754_finite false mx ex /\ bounded prec emax mx ex = true.
Proof.
  rewrite !ltb_spec. intros Hpos Hfin.
  change (Prim2SF 0) with (S754_zero false) in Hpos.
  change (Prim2SF infinity) with (S754_infinity false) in Hfin.
  pose proof (Prim2SF_valid x) as Hv.
  destruct (Rounding.positive_cases _ Hpos) as [E | (mx & ex & E)];
    rewrite E in *.
  - discriminate Hfin.
  - exists mx, ex. split; [reflexivity | exact Hv].
Qed.

Lemma positive_valid (s : float) :
  (0 <? s) = true ->
  SpecFloat.valid_binary prec emax (Prim2SF s) = true /\
  SFltb (S754_zero false) (Prim2SF s) = true.
Proof.
  rewrite ltb_spec. intros H. split; [apply Prim2SF_valid | exact H].
Qed.

Lemma one_is_one64 : Prim2SF 1 = Rounding.one64.
Proof. reflexivity. Qed.

(** Taking a positive amount off one leaves at most one. *)
Lemma one_minus_le (s : float) : (0 <? s) = true -> (1 - s <=? 1) = true.
Proof.
  intros Hs. destruct (positive_valid s Hs) as [Hv Hp].
  rewrite leb_spec, sub_spec, one_is_one64.
  apply Rounding.SFsub_le_self; [reflexivity | exact Hv | exact Hp].
Qed.

(** Adding a positive amount to one leaves at least one. *)
Lemma one_plus_ge (s : float) : (0 <? s) = true -> (1 <=? 1 + s) = true.
Proof.
  intros Hs. destruct (positive_valid s Hs) as [Hv Hp].
  rewrite leb_spec, add_spec, one_is_one64.
  apply Rounding.SFadd_ge_self; [reflexivity | exact Hv | exact Hp].
Qed.

(** A positive finite value times a factor of at most one does not grow. *)
Lemma mul_le_self (x f : float) :
  (0 <? x) = true -> (x <? infinity) = true -> (f <=? 1) = true ->
  (x * f <=? x) = true.
Proof.
  intros Hpos Hfin Hf.
  destruct (positive_finite x Hpos Hfin) as (mx & ex & Ex & Hb).
  rewrite leb_spec, one_is_one64 in Hf.
  rewrite leb_spec, mul_spec, Ex.
  apply Rounding.SFmul_le_self; [exact Hb | apply Prim2SF_valid | exact Hf].
Qed.

(** A positive finite value times a factor of at least one does not shrink. *)
Lemma mul_ge_self (x g : float) :
  (0 <? x) = true -> (x <? infinity) = true -> (1 <=? g) = true ->
  (x <=? x * g) = true.
Proof.
  intros Hpos Hfin Hg.
  destruct (positive_finite x Hpos Hfin) as (mx & ex & Ex & Hb).
  rewrite leb_spec, one_is_one64 in Hg.
  rewrite leb_spec, mul_spec, Ex.
  apply Rounding.SFmul_ge_self; [exact Hb | apply Prim2SF_valid | exact Hg].
Qed.

(** Among ordered values, strictly below means not equal. *)
Lemma ltb_as_neq (a b : float) :
  (a <=? b) = true -> (a <? b) = negb (a =? b).
Proof.
  rewrite leb_spec, ltb_spec, eqb_spec. unfold SFleb, SFltb, SFeqb.
  destruct (SFcompare (Prim2SF a) (Prim2SF b)) as [[]|]; cbn; congruence.
Qed.

End FloatFacts.

(** [a] is at most [b], and strictly below it unless the two are equal. *)
Definition below (a b : float) : Prop :=
  (a <=? b) = true /\ (a <? b) = negb (a =? b).

(** C1, as stated, fails: a stop-loss percentage of 1e-17 is positive, and
    [1 - 1e-17] rounds to 1, so the BUY stop equals the entry price instead
    of lying strictly below it. *)
Lemma tiny_stop_percentage_collapses :
  let params :=
    {| RiskParams.accountBalance := 1000;
       RiskParams.riskPerTradePercentage := 0.02;
       RiskParams.stopLossPercentage := 1e-17;
       RiskParams.takeProfitPercentage := 0.045 |} in
  (0 <? 100) = true /\ (0 <? 1000) = true /\ (0 <? 0.02) = true /\
  (0 <? 1e-17) = true /\ (0 <? 0.045) = true /\
  ~ (TradeSetup.stopLoss
       (RiskService.calculateTradeSetup 100 params SideBUY) <? 100) = true.
Proof.
  cbv zeta. repeat split; try (vm_compute; reflexivity).
  vm_compute. discriminate.
Qed.

(** C1 (amended): for every finite entry price > 0 and stop-loss and
    take-profit percentages > 0, [calculateTradeSetup] returns
    [riskAmount = accountBalance * riskPerTradePercentage] and
    [positionSize = riskAmount / |entryPrice - stopLoss|] exactly (binary64
    operations); for BUY, [stopLoss = entryPrice * (1 - slPct)] is at most
    [entryPrice], which is at most [takeProfit = entryPrice * (1 + tpPct)];
    for SELL, [takeProfit = entryPrice * (1 - tpPct)] is at most
    [entryPrice], which is at most [stopLoss = entryPrice * (1 + slPct)];
    each inequality is strict unless rounding makes the level equal to the
    entry price. *)
Theorem calculateTradeSetup_levels (entryPrice : float)
    (params : RiskParams.t) (side : Side) :
  (0 <? entryPrice) = true -> (entryPrice <? infinity) = true ->
  (0 <? RiskParams.stopLossPercentage params) = true ->
  (0 <? RiskParams.takeProfitPercentage params) = true ->
  let t := RiskService.calculateTradeSetup entryPrice params side in
  let slPct := RiskParams.stopLossPercentage params in
  let tpPct := RiskParams.takeProfitPercentage params in
  TradeSetup.entryPrice t = entryPrice /\
  TradeSetup.riskAmount t =
    RiskParams.accountBalance params *
    RiskParams.riskPerTradePercentage params /\
  TradeSetup.positionSize t =
    TradeSetup.riskAmount t / abs (entryPrice - TradeSetup.stopLoss t) /\
  match side with
  | SideBUY =>
      TradeSetup.stopLoss t = entryPrice * (1 - slPct) /\
      TradeSetup.takeProfit t = entryPrice * (1 + tpPct) /\
      below (TradeSetup.stopLoss t) entryPrice /\
      below entryPrice (TradeSetup.takeProfit t)
  | SideSELL =>
      TradeSetup.takeProfit t = entryPrice * (1 - tpPct) /\
      TradeSetup.stopLoss t = entryPrice * (1 + slPct) /\
      below (TradeSetup.takeProfit t) entryPrice /\
      below entryPrice (TradeSetup.stopLoss t)
  end.
Proof.
  intros Hpos Hfin Hsl Htp t slPct tpPct.
  assert (Hdown : forall p, (0 <? p) = true ->
            below (entryPrice * (1 - p)) entryPrice).
  { intros p Hp.
    assert (H : (entryPrice * (1 - p) <=? entryPrice) = true)
      by (apply FloatFacts.mul_le_self; auto using FloatFacts.one_minus_le).
    split; [exact H | now apply FloatFacts.ltb_as_neq]. }
  assert (Hup : forall p, (0 <? p) = true ->
            below entryPrice (entryPrice * (1 + p))).
  { intros p Hp.
    assert (H : (entryPrice <=? entryPrice * (1 + p)) = true)
      by (apply FloatFacts.mul_ge_self; auto using FloatFacts.one_plus_ge).
    split; [exact H | now apply FloatFacts.ltb_as_neq]. }
  subst t. unfold RiskService.calculateTradeSetup.
  destruct side; cbn [TradeSetup.entryPrice TradeSetup.riskAmount
    TradeSetup.positionSize TradeSetup.stopLoss TradeSetup.takeProfit];
    repeat split; auto; try apply Hdown; try apply Hup; auto.
Qed.

(** The scenario of the specification: entry 100, balance 1000, 2% risk,
    1.5% stop, 4.5% target, BUY. *)
Lemma calculateTradeSetup_levels_witness :
  let params :=
    {| RiskParams.accountBalance := 1000;
       RiskParams.riskPerTradePercentage := 0.02;
       RiskParams.stopLossPercentage := 0.015;
       RiskParams.takeProfitPercentage := 0.045 |} in
  let t := RiskService.calculateTradeSetup 100 params SideBUY in
  TradeSetup.entryPrice t = 100 /\
  TradeSetup.riskAmount t = 1000 * 0.02 /\
  TradeSetup.positionSize t =
    TradeSetup.riskAmount t / abs (100 - TradeSetup.stopLoss t) /\
  TradeSetup.stopLoss t = 100 * (1 - 0.015) /\
  TradeSetup.takeProfit t = 100 * (1 + 0.045) /\
  below (TradeSetup.stopLoss t) 100 /\
  below 100 (TradeSetup.takeProfit t).
Proof.
  intros params t.
  apply (calculateTradeSetup_levels 100
           {| RiskParams.accountBalance := 1000;
              RiskParams.riskPerTradePercentage := 0.02;
              RiskParams.stopLossPercentage := 0.015;
              RiskParams.takeProfitPercentage := 0.045 |} SideBUY);
    vm_compute; reflexivity.
Defined.

(** On that scenario the levels are 98.5 and 104.5, strictly around the
    entry, the risk amount is 20 and the size 13.333.... *)
Example calculateTradeSetup_scenario :
  RiskService.calculateTradeSetup 100
    {| RiskParams.accountBalance := 1000;
       RiskParams.riskPerTradePercentage := 0.02;
       RiskParams.stopLossPercentage := 0.015;
       RiskParams.takeProfitPercentage := 0.045 |} SideBUY =
  {| TradeSetup.entryPrice := 100; TradeSetup.stopLoss := 98.5;
     TradeSetup.takeProfit := 104.5;
     TradeSetup.positionSize := 20 / 1.5;
     TradeSetup.riskAmount := 20 |}.
Proof. vm_compute. reflexivity. Qed.

(** ** Readiness on the snapshots of the pipeline *)

(** When the snapshots are the ones [calculateIndicators] derives from the
    very window that is examined, every snapshot from index 98 on has all its
    EMA and MACD fields: there a BUY or SELL implies readiness in the wider
    sense too, the preceding snapshot having its EMA fields as well. *)
Lemma checkSignals_ready_on_pipeline (TI : TechnicalIndicators)
    (candles : list Candle.t) :
  reachesEnd TI (map Candle.close candles) ->
  Signal.type
    (StrategyService.checkSignals candles
       (IndicatorService.calculateIndicators candles)) <> NONE ->
  readyAsStated candles (IndicatorService.calculateIndicators candles).
Proof.
  intros (H7 & H25 & H99 & _ & Hmacd & _) Hty.
  rewrite length_map in *.
  destruct (StrategyFacts.checkSignals_shape candles
              (IndicatorService.calculateIndicators candles))
    as [Heq | (last & cur & prev & [Hlen _ Hcur Hprev] & _)].
  { rewrite Heq in Hty. now contradiction Hty. }
  split; [exact Hlen|]. exists cur, prev.
  split; [exact Hcur|]. split; [exact Hprev|].
  unfold JS.len in *.
  rewrite PipelineFacts.calculateIndicators_length in Hcur, Hprev.
  set (n := List.length candles) in *.
  assert (Hfields : forall (k : nat) (s : IndicatorData.t),
            (1 <= k <= 2)%nat ->
            JS.index (IndicatorService.calculateIndicators candles)
              (Z.of_nat n - Z.of_nat k) = Some s ->
            hasEma s /\ hasMacd s).
  { intros k s Hk Hs.
    rewrite PipelineFacts.index_of_nat in Hs by lia.
    destruct (nth_error candles (n - k)) as [c|] eqn:Hc.
    2:{ apply nth_error_None in Hc. lia. }
    rewrite (PipelineFacts.calculateIndicators_nth candles (n - k) c Hc)
      in Hs.
    cbv zeta in Hs. injection Hs as <-.
    unfold hasEma, hasMacd, IndicatorService.snapshot.
    cbn [IndicatorData.ema7 IndicatorData.ema25 IndicatorData.ema99
         IndicatorData.macd].
    repeat split.
    - apply (PipelineFacts.offset_field _ n); [lia | assumption | lia].
    - apply (PipelineFacts.offset_field _ n); [lia | assumption | lia].
    - apply (PipelineFacts.offset_field _ n); [lia | assumption | lia].
    - apply (PipelineFacts.offset_object _ _ n (n - k) _ 33);
        [reflexivity | lia | assumption | lia]. }
  split.
  - apply (Hfields 1%nat); [lia | exact Hcur].
  - apply (Hfields 2%nat); [lia | exact Hprev].
Qed.

(** ** The websocket callback as a whole *)

Section Callback.
Context {TI : TechnicalIndicators}.

Lemma recordSignal_timeframes (env : App.Env) (interval : string)
    (signal : Signal.t) (st : App.State) :
  App.timeframes (App.recordSignal env interval signal st) =
  App.timeframes st.
Proof.
  unfold App.recordSignal.
  destruct (App.isDuplicate (App.signals st) interval signal); reflexivity.
Qed.

(** [processCandles] stores the window it is given, and touches the feed and
    the log only through [recordSignal], and only for a BUY or a SELL. *)
Lemma processCandles_effect (env : App.Env) (interval : string)
    (newCandles : list Candle.t) (st : App.State) :
  let signal :=
    StrategyService.checkSignals newCandles
      (IndicatorService.calculateIndicators newCandles) in
  let st' := App.processCandles env interval newCandles st in
  TimeframeState.candles (App.timeframes st' interval) = newCandles /\
  (Signal.type signal = NONE ->
   App.signals st' = App.signals st /\
   App.alertHistory st' = App.alertHistory st /\
   App.activeTrade st' = App.activeTrade st) /\
  (Signal.type signal <> NONE ->
   let recorded := App.recordSignal env interval signal st in
   App.signals st' = App.signals recorded /\
   App.alertHistory st' = App.alertHistory recorded /\
   App.activeTrade st' = App.activeTrade recorded).
Proof.
  cbv zeta. unfold App.processCandles.
  set (signal := StrategyService.checkSignals newCandles
                   (IndicatorService.calculateIndicators newCandles)).
  destruct (Signal.type signal) eqn:Ety; cbn [SignalType_eqb negb];
    (split; [| split; [intros H; try discriminate H | intros H]]);
    try (now contradiction H);
    try rewrite recordSignal_timeframes;
    cbn [App.timeframes App.signals App.alertHistory App.activeTrade];
    try (unfold App.setTimeframe; rewrite String.eqb_refl; reflexivity);
    try (repeat split; reflexivity);
    unfold App.recordSignal;
    cbn [App.timeframes App.signals App.alertHistory App.activeTrade];
    destruct (App.isDuplicate (App.signals st) interval signal);
    repeat split; reflexivity.
Qed.

(** After the callback for [interval], the window of that interval is the
    previous one updated by [applyCandle]; the other windows are untouched. *)
Lemma onCandle_window (env : App.Env) (interval : string)
    (newCandle : Candle.t) (st : App.State) :
  TimeframeState.candles
    (App.timeframes (App.onCandle env interval newCandle st) interval) =
  App.applyCandle (TimeframeState.candles (App.timeframes st interval))
    newCandle /\
  forall other, String.eqb other interval = false ->
    App.timeframes (App.onCandle env interval newCandle st) other =
    App.timeframes st other.
Proof.
  unfold App.onCandle.
  set (updated := App.applyCandle _ newCandle).
  set (st1 := App.mkState _ _ _ _).
  assert (H1 : forall other, String.eqb other interval = false ->
            App.timeframes st1 other = App.timeframes st other).
  { intros other Ho. cbn. unfold App.setTimeframe. now rewrite Ho. }
  destruct (Candle.isFinal newCandle || _).
  - split.
    + apply (processCandles_effect env interval updated st1).
    + intros other Ho. rewrite <- (H1 other Ho).
      unfold App.processCandles.
      destruct (negb _); try rewrite recordSignal_timeframes;
        cbn [App.timeframes]; unfold App.setTimeframe; now rewrite Ho.
  - split; [|exact H1].
    cbn. unfold App.setTimeframe. now rewrite String.eqb_refl.
Qed.

(** A run of websocket events, oldest first. *)
Definition runCallbacks (env : App.Env) (events : list (string * Candle.t))
    (st : App.State) : App.State :=
  fold_left (fun s ev => App.onCandle env (fst ev) (snd ev) s) events st.

(** No window ever grows past 400 candles. *)
Lemma windows_stay_bounded (env : App.Env)
    (events : list (string * Candle.t)) (st : App.State) :
  (forall interval,
     List.length (TimeframeState.candles (App.timeframes st interval))
       <= 400)%nat ->
  forall interval,
    (List.length
       (TimeframeState.candles
          (App.timeframes (runCallbacks env events st) interval))
     <= 400)%nat.
Proof.
  unfold runCallbacks. revert st.
  induction events as [|[i c] events IH]; intros st Hst; [exact Hst|].
  cbn [fold_left fst snd]. apply IH. intros interval.
  destruct (onCandle_window env i c st) as [Hsame Hother].
  destruct (String.eqb interval i) eqn:E.
  - apply String.eqb_eq in E. subst interval. rewrite Hsame.
    pose proof (Hst i).
    destruct (WindowFacts.applyCandle_length
                (TimeframeState.candles (App.timeframes st i)) c)
      as [H1 | [H1 | H1]]; lia.
  - rewrite (Hother interval E). apply Hst.
Qed.

End Callback.

(* ================================================================== *)
(** * Further properties of the code *)
(* ================================================================== *)

(** ** The candle window under live updates *)

Module WindowOrder.

(** Whatever the branch, the incoming candle ends up last. *)
Lemma applyCandle_snoc (w : list Candle.t) (c : Candle.t) :
  exists w', App.applyCandle w c = w' ++ [c].
Proof.
  unfold App.applyCandle.
  destruct ((0 <? JS.len w)%Z && _).
  - now exists (removelast w).
  - destruct (400 <? JS.len (w ++ [c]))%Z eqn:Hcap.
    + destruct w as [|x w]; [discriminate Hcap|]. now exists w.
    + now exists w.
Qed.

Lemma applyCandle_last (w : list Candle.t) (c : Candle.t) :
  JS.index (App.applyCandle w c) (JS.len (App.applyCandle w c) - 1) = Some c.
Proof.
  destruct (applyCandle_snoc w c) as [w' ->]. apply WindowFacts.index_last.
Qed.

Lemma tl_snoc {A : Type} (w : list A) (x y : A) :
  tl ((w ++ [x]) ++ [y]) = tl (w ++ [x]) ++ [y].
Proof. destruct w; reflexivity. Qed.

Lemma sorted_snoc (ts : list Z) (a b : Z) :
  Sorted Z.lt (ts ++ [a]) -> (a < b)%Z -> Sorted Z.lt ((ts ++ [a]) ++ [b]).
Proof.
  induction ts as [|t ts IH]; intros Hs Hab; cbn in *.
  - repeat constructor. exact Hab.
  - inversion Hs as [|? ? Hs' Hd]; subst. constructor.
    + now apply IH.
    + destruct ts; cbn in *; inversion Hd; subst; now constructor.
Qed.

Lemma sorted_tl (ts : list Z) : Sorted Z.lt ts -> Sorted Z.lt (tl ts).
Proof. intros H. destruct H; [constructor | assumption]. Qed.

End WindowOrder.

(** Two updates that carry the same open time leave the window as the second
    one alone would: of the live updates of a period only the latest stays,
    and replaying an update changes nothing. *)
Theorem applyCandle_latest_update_wins (w : list Candle.t) (c c' : Candle.t) :
  Candle.time c' = Candle.time c ->
  App.applyCandle (App.applyCandle w c) c' = App.applyCandle w c'.
Proof.
  intros Ht.
  destruct w as [|x w] using rev_ind; [|clear IHw].
  - cbn [App.applyCandle]. change (App.applyCandle [] c) with ([] ++ [c]).
    rewrite WindowFacts.applyCandle_replace by (symmetry; exact Ht).
    reflexivity.
  - destruct (Z.eq_dec (Candle.time x) (Candle.time c)) as [E | E].
    + rewrite (WindowFacts.applyCandle_replace w x c E).
      rewrite (WindowFacts.applyCandle_replace w c c') by (symmetry; exact Ht).
      rewrite WindowFacts.applyCandle_replace by congruence.
      reflexivity.
    + rewrite (WindowFacts.applyCandle_push_nonempty w x c E).
      rewrite (WindowFacts.applyCandle_push_nonempty w x c') by congruence.
      unfold JS.len. rewrite !length_app. cbn [List.length].
      destruct (400 <? _)%Z.
      * rewrite !WindowOrder.tl_snoc.
        apply WindowFacts.applyCandle_replace. symmetry. exact Ht.
      * apply WindowFacts.applyCandle_replace. symmetry. exact Ht.
Qed.

Lemma applyCandle_latest_update_wins_witness :
  let tick := Examples.candle 6000000 210 100 205 3 in
  let tock := Examples.candle 6000000 215 100 212 7 in
  App.applyCandle (App.applyCandle Examples.window tick) tock =
  App.applyCandle Examples.window tock.
Proof.
  cbv zeta. apply applyCandle_latest_update_wins. reflexivity.
Defined.

(** A window whose open times increase strictly keeps that order when the
    incoming candle does not open before the last one: a candle of the same
    period overwrites, a later one is appended. *)
Theorem applyCandle_keeps_time_order (w : list Candle.t) (c : Candle.t) :
  Sorted Z.lt (map Candle.time w) ->
  (forall l, JS.index w (JS.len w - 1) = Some l ->
     (Candle.time l <= Candle.time c)%Z) ->
  Sorted Z.lt (map Candle.time (App.applyCandle w c)).
Proof.
  intros Hs Hlast.
  destruct w as [|x w] using rev_ind; [|clear IHw].
  - cbn. repeat constructor.
  - specialize (Hlast x (WindowFacts.index_last w x)).
    destruct (Z.eq_dec (Candle.time x) (Candle.time c)) as [E | E].
    + rewrite (WindowFacts.applyCandle_replace w x c E).
      rewrite map_app in *. cbn [map] in *. rewrite <- E. exact Hs.
    + rewrite (WindowFacts.applyCandle_push_nonempty w x c E).
      assert (Hall : Sorted Z.lt (map Candle.time ((w ++ [x]) ++ [c]))).
      { rewrite map_app. cbn [map]. rewrite map_app in *. cbn [map] in *.
        apply WindowOrder.sorted_snoc; [exact Hs | lia]. }
      destruct (400 <? _)%Z; [|exact Hall].
      replace (map Candle.time (tl ((w ++ [x]) ++ [c])))
        with (tl (map Candle.time ((w ++ [x]) ++ [c])))
        by (destruct w; reflexivity).
      now apply WindowOrder.sorted_tl.
Qed.

Lemma applyCandle_keeps_time_order_witness :
  let w := [Examples.candle 0 2 1 1 1; Examples.candle 60000 2 1 1 1] in
  Sorted Z.lt (map Candle.time (App.applyCandle w
                                  (Examples.candle 120000 3 1 2 1))).
Proof.
  cbv zeta. apply applyCandle_keeps_time_order.
  - cbn. repeat constructor.
  - intros l H. vm_compute in H. injection H as <-. cbn. lia.
Defined.

(** ** The session state along the websocket callbacks *)

Section Sessions.
Context {TI : TechnicalIndicators}.

(** The signal the callback for [interval] detects when [c] arrives. *)
Definition detected (interval : string) (c : Candle.t) (st : App.State)
  : Signal.t :=
  let updated :=
    App.applyCandle (TimeframeState.candles (App.timeframes st interval)) c in
  StrategyService.checkSignals updated
    (IndicatorService.calculateIndicators updated).

Definition isSignal (s : Signal.t) : bool :=
  negb (SignalType_eqb (Signal.type s) NONE).

Lemma isSignal_false (s : Signal.t) :
  isSignal s = false <-> Signal.type s = NONE.
Proof.
  unfold isSignal. destruct (Signal.type s); cbn; intuition congruence.
Qed.

Lemma isSignal_true (s : Signal.t) :
  isSignal s = true <-> Signal.type s = BUY \/ Signal.type s = SELL.
Proof.
  unfold isSignal. destruct (Signal.type s); cbn; intuition congruence.
Qed.

(** [recordSignal] reads the feed, the log and the trade only. *)
Lemma recordSignal_reads (env : App.Env) (interval : string)
    (signal : Signal.t) (st st' : App.State) :
  App.signals st' = App.signals st ->
  App.alertHistory st' = App.alertHistory st ->
  App.activeTrade st' = App.activeTrade st ->
  App.signals (App.recordSignal env interval signal st') =
    App.signals (App.recordSignal env interval signal st) /\
  App.alertHistory (App.recordSignal env interval signal st') =
    App.alertHistory (App.recordSignal env interval signal st) /\
  App.activeTrade (App.recordSignal env interval signal st') =
    App.activeTrade (App.recordSignal env interval signal st).
Proof.
  intros Hs Ha Ht. unfold App.recordSignal. rewrite Hs.
  destruct (App.isDuplicate (App.signals st) interval signal);
    cbn [App.signals App.alertHistory App.activeTrade];
    rewrite ?Ha, ?Ht; auto.
Qed.

(** The slot of [interval] after its callback. *)
Lemma onCandle_timeframe (env : App.Env) (interval : string) (c : Candle.t)
    (st : App.State) :
  let updated :=
    App.applyCandle (TimeframeState.candles (App.timeframes st interval)) c in
  App.timeframes (App.onCandle env interval c st) interval =
    {| TimeframeState.candles := updated;
       TimeframeState.indicators :=
         IndicatorService.calculateIndicators updated;
       TimeframeState.lastSignal :=
         if isSignal (detected interval c st)
         then Some (detected interval c st)
         else TimeframeState.lastSignal (App.timeframes st interval) |}.
Proof.
  cbv zeta. unfold App.onCandle, detected, isSignal.
  set (updated := App.applyCandle _ c).
  set (signal := StrategyService.checkSignals updated _).
  destruct (negb (SignalType_eqb (Signal.type signal) NONE)) eqn:Es.
  - rewrite orb_true_r. unfold App.processCandles. fold signal. rewrite Es.
    rewrite recordSignal_timeframes. cbn [App.timeframes].
    unfold App.setTimeframe. rewrite String.eqb_refl. reflexivity.
  - rewrite orb_false_r. destruct (Candle.isFinal c).
    + unfold App.processCandles. fold signal. rewrite Es.
      cbn [App.timeframes]. unfold App.setTimeframe.
      rewrite !String.eqb_refl. reflexivity.
    + cbn [App.timeframes]. unfold App.setTimeframe.
      rewrite String.eqb_refl. reflexivity.
Qed.

(** The feed, the log and the trade after a callback: those of
    [recordSignal] when a BUY or SELL was detected, the old ones otherwise. *)
Lemma onCandle_feed (env : App.Env) (interval : string) (c : Candle.t)
    (st : App.State) :
  let st' := App.onCandle env interval c st in
  let r := if isSignal (detected interval c st)
           then App.recordSignal env interval (detected interval c st) st
           else st in
  App.signals st' = App.signals r /\
  App.alertHistory st' = App.alertHistory r /\
  App.activeTrade st' = App.activeTrade r.
Proof.
  cbv zeta. unfold App.onCandle, detected, isSignal.
  set (updated := App.applyCandle _ c).
  set (signal := StrategyService.checkSignals updated _).
  destruct (negb (SignalType_eqb (Signal.type signal) NONE)) eqn:Es.
  - rewrite orb_true_r. unfold App.processCandles. fold signal. rewrite Es.
    apply recordSignal_reads; reflexivity.
  - rewrite orb_false_r. destruct (Candle.isFinal c).
    + unfold App.processCandles. fold signal. rewrite Es.
      repeat split; reflexivity.
    + repeat split; reflexivity.
Qed.

(** No callback of the run detects a BUY or SELL. *)
Fixpoint quiet (env : App.Env) (events : list (string * Candle.t))
    (st : App.State) : bool :=
  match events with
  | [] => true
  | ev :: rest =>
      negb (isSignal (detected (fst ev) (snd ev) st))
      && quiet env rest (App.onCandle env (fst ev) (snd ev) st)
  end.

(** A quiet run leaves the feed, the log and the trade as they were. *)
Lemma quiet_keeps_feed (env : App.Env) (events : list (string * Candle.t))
    (st : App.State) :
  quiet env events st = true ->
  App.signals (runCallbacks env events st) = App.signals st /\
  App.alertHistory (runCallbacks env events st) = App.alertHistory st /\
  App.activeTrade (runCallbacks env events st) = App.activeTrade st.
Proof.
  unfold runCallbacks. revert st.
  induction events as [|[i c] events IH]; intros st Hq; [now repeat split|].
  cbn [quiet fst snd] in Hq. apply andb_true_iff in Hq as [Hn Hq].
  apply negb_true_iff in Hn.
  cbn [fold_left fst snd].
  destruct (IH _ Hq) as (-> & -> & ->).
  pose proof (onCandle_feed env i c st) as Hf. cbv zeta in Hf.
  rewrite Hn in Hf. exact Hf.
Qed.

Lemma slice_last_length {A : Type} (n : nat) (l : list A) :
  (List.length (JS.slice_last n l) <= n)%nat.
Proof. unfold JS.slice_last. rewrite length_skipn. lia. Qed.

Lemma slice_first_length {A : Type} (n : nat) (l : list A) :
  (List.length (JS.slice_first n l) <= n)%nat.
Proof. unfold JS.slice_first. rewrite length_firstn. lia. Qed.

Lemma recordSignal_bounded (env : App.Env) (interval : string)
    (signal : Signal.t) (st : App.State) :
  (List.length (App.signals st) <= 20)%nat ->
  (List.length (App.alertHistory st) <= 50)%nat ->
  (List.length (App.signals (App.recordSignal env interval signal st))
     <= 20)%nat /\
  (List.length (App.alertHistory (App.recordSignal env interval signal st))
     <= 50)%nat.
Proof.
  intros Hs Ha. unfold App.recordSignal.
  destruct (App.isDuplicate (App.signals st) interval signal);
    [now split|].
  cbn [App.signals App.alertHistory].
  split; [apply slice_last_length | apply slice_first_length].
Qed.

End Sessions.

(** Along every run of websocket events, on whatever timeframes and whatever
    the indicator package answers, the signal feed holds at most 20 entries
    and the alert log at most 50. *)
Theorem feed_and_log_stay_bounded (TI : TechnicalIndicators) (env : App.Env)
    (events : list (string * Candle.t)) (st : App.State) :
  (List.length (App.signals st) <= 20)%nat ->
  (List.length (App.alertHistory st) <= 50)%nat ->
  (List.length (App.signals (runCallbacks env events st)) <= 20)%nat /\
  (List.length (App.alertHistory (runCallbacks env events st)) <= 50)%nat.
Proof.
  unfold runCallbacks. revert st.
  induction events as [|[i c] events IH]; intros st Hs Ha; [now split|].
  cbn [fold_left fst snd].
  destruct (onCandle_feed env i c st) as (Es & Ea & _).
  apply IH; rewrite ?Es, ?Ea; destruct (isSignal (detected i c st));
    try assumption; now apply recordSignal_bounded.
Qed.

Lemma feed_and_log_stay_bounded_witness :
  let events :=
    [("5m", Examples.candle 0 2 1 1 1); ("1h", Examples.candle 0 2 1 1 1);
     ("5m", Examples.candle 300000 2 1 1 1)]%string in
  let st := runCallbacks (TI := ReferenceIndicators.reference) Session.env
              events App.initial in
  (List.length (App.signals st) <= 20)%nat /\
  (List.length (App.alertHistory st) <= 50)%nat.
Proof.
  cbv zeta. apply feed_and_log_stay_bounded; cbn; lia.
Defined.

(** In every state reached from the history load by websocket events, each
    timeframe's snapshots are the ones [calculateIndicators] derives from the
    candles stored beside them: the two are never out of step. *)
Theorem indicators_never_stale (TI : TechnicalIndicators) (env : App.Env)
    (fetch : string -> list Candle.t) (events : list (string * Candle.t))
    (interval : string) :
  let st := runCallbacks env events (App.init fetch App.initial) in
  TimeframeState.indicators (App.timeframes st interval) =
  IndicatorService.calculateIndicators
    (TimeframeState.candles (App.timeframes st interval)).
Proof.
  cbv zeta.
  assert (Hinit : forall k,
            TimeframeState.indicators
              (App.timeframes (App.init fetch App.initial) k) =
            IndicatorService.calculateIndicators
              (TimeframeState.candles
                 (App.timeframes (App.init fetch App.initial) k))).
  { intros k. unfold App.init. cbn [App.timeframes].
    generalize (map (fun i => (i, fetch i)) App.INTERVALS).
    intros results. unfold App.loadHistory.
    assert (H0 : forall j,
              TimeframeState.indicators (App.timeframes App.initial j) =
              IndicatorService.calculateIndicators
                (TimeframeState.candles (App.timeframes App.initial j)))
      by reflexivity.
    revert H0. generalize (App.timeframes App.initial). revert k.
    induction results as [|[i hist] results IH]; intros k tf H0;
      [apply H0|].
    cbn [fold_left]. apply IH. intros j. unfold App.setTimeframe.
    destruct (String.eqb j i); [reflexivity | apply H0]. }
  revert Hinit. generalize (App.init fetch App.initial). revert interval.
  unfold runCallbacks.
  induction events as [|[i c] events IH]; intros k st Hst; [apply Hst|].
  cbn [fold_left fst snd]. apply IH. intros j.
  destruct (String.eqb j i) eqn:E.
  - apply String.eqb_eq in E. subst j. rewrite onCandle_timeframe.
    reflexivity.
  - destruct (onCandle_window env i c st) as [_ Hother].
    rewrite (Hother j E). apply Hst.
Qed.

(** In every state reached from the history load by websocket events, the
    last signal kept for a timeframe is either absent or a BUY or a SELL that
    [checkSignals] returned: a NONE answer is never stored. *)
Theorem lastSignal_is_buy_or_sell (TI : TechnicalIndicators) (env : App.Env)
    (fetch : string -> list Candle.t) (events : list (string * Candle.t))
    (interval : string) :
  let st := runCallbacks env events (App.init fetch App.initial) in
  match TimeframeState.lastSignal (App.timeframes st interval) with
  | Some s => Signal.type s = BUY \/ Signal.type s = SELL
  | None => True
  end.
Proof.
  cbv zeta.
  assert (Hinit : forall k,
            TimeframeState.lastSignal
              (App.timeframes (App.init fetch App.initial) k) = None).
  { intros k. unfold App.init. cbn [App.timeframes].
    generalize (map (fun i => (i, fetch i)) App.INTERVALS).
    intros results. unfold App.loadHistory.
    assert (H0 : forall j,
              TimeframeState.lastSignal (App.timeframes App.initial j) = None)
      by reflexivity.
    revert H0. generalize (App.timeframes App.initial). revert k.
    induction results as [|[i hist] results IH]; intros k tf H0;
      [apply H0|].
    cbn [fold_left]. apply IH. intros j. unfold App.setTimeframe.
    destruct (String.eqb j i); [reflexivity | apply H0]. }
  assert (Hgen : forall st,
            (forall k,
               match TimeframeState.lastSignal (App.timeframes st k) with
               | Some s => Signal.type s = BUY \/ Signal.type s = SELL
               | None => True
               end) ->
            forall k,
              match TimeframeState.lastSignal
                      (App.timeframes (runCallbacks env events st) k) with
              | Some s => Signal.type s = BUY \/ Signal.type s = SELL
              | None => True
              end).
  { unfold runCallbacks.
    induction events as [|[i c] events IH]; intros st Hst; [exact Hst|].
    cbn [fold_left fst snd]. apply IH. intros j.
    destruct (String.eqb j i) eqn:E.
    - apply String.eqb_eq in E. subst j. rewrite onCandle_timeframe.
      cbn [TimeframeState.lastSignal].
      destruct (isSignal (detected i c st)) eqn:Es.
      + now apply isSignal_true.
      + apply Hst.
    - destruct (onCandle_window env i c st) as [_ Hother].
      rewrite (Hother j E). apply Hst. }
  apply Hgen. intros k. now rewrite Hinit.
Qed.

(** Once a timeframe has a last signal, no run of websocket events clears
    it: the callbacks replace it by a newer BUY or SELL or keep it. *)
Theorem lastSignal_never_cleared (TI : TechnicalIndicators) (env : App.Env)
    (events : list (string * Candle.t)) (st : App.State)
    (interval : string) :
  TimeframeState.lastSignal (App.timeframes st interval) <> None ->
  TimeframeState.lastSignal
    (App.timeframes (runCallbacks env events st) interval) <> None.
Proof.
  unfold runCallbacks. revert st.
  induction events as [|[i c] events IH]; intros st Hst; [exact Hst|].
  cbn [fold_left fst snd]. apply IH.
  destruct (String.eqb interval i) eqn:E.
  - apply String.eqb_eq in E. subst i. rewrite onCandle_timeframe.
    cbn [TimeframeState.lastSignal].
    destruct (isSignal (detected interval c st)); [discriminate | exact Hst].
  - destruct (onCandle_window env i c st) as [_ Hother].
    now rewrite (Hother interval E).
Qed.

Lemma lastSignal_never_cleared_witness :
  let st :=
    {| App.timeframes := fun _ =>
         {| TimeframeState.candles := []; TimeframeState.indicators := [];
            TimeframeState.lastSignal := Some Session.sellAt3600000 |};
       App.signals := []; App.alertHistory := [];
       App.activeTrade := None |} in
  let events :=
    [("1h", Examples.candle 0 2 1 1 1);
     ("5m", Examples.candle 0 2 1 1 1)]%string in
  TimeframeState.lastSignal
    (App.timeframes
       (runCallbacks (TI := ReferenceIndicators.reference) Session.env
          events st) "1h"%string) <> None.
Proof.
  cbv zeta. apply lastSignal_never_cleared. cbn. discriminate.
Defined.

(** A timeframe's candles, snapshots and last signal are written by its own
    callback only: a run of events none of which is for [interval] leaves its
    slot as it was. *)
Theorem other_timeframes_untouched (TI : TechnicalIndicators) (env : App.Env)
    (events : list (string * Candle.t)) (st : App.State)
    (interval : string) :
  Forall (fun ev => fst ev <> interval) events ->
  App.timeframes (runCallbacks env events st) interval =
  App.timeframes st interval.
Proof.
  unfold runCallbacks. revert st.
  induction events as [|[i c] events IH]; intros st Hev; [reflexivity|].
  inversion Hev as [|? ? Hne Hrest]; subst. cbn [fst] in Hne.
  cbn [fold_left fst snd]. rewrite (IH _ Hrest).
  destruct (onCandle_window env i c st) as [_ Hother].
  apply Hother. apply String.eqb_neq. congruence.
Qed.

Lemma other_timeframes_untouched_witness :
  let events :=
    [("5m", Examples.candle 0 2 1 1 1);
     ("15m", Examples.candle 0 2 1 1 1)]%string in
  App.timeframes
    (runCallbacks (TI := ReferenceIndicators.reference) Session.env events
       App.initial) "1h"%string =
  App.timeframes App.initial "1h"%string.
Proof.
  cbv zeta. apply other_timeframes_untouched.
  repeat constructor; cbn; discriminate.
Defined.

(** A candle on which [checkSignals] answers NONE changes neither the signal
    feed nor the alert log nor the active trade, final or not. *)
Theorem onCandle_without_signal (TI : TechnicalIndicators) (env : App.Env)
    (interval : string) (c : Candle.t) (st : App.State) :
  Signal.type (detected interval c st) = NONE ->
  App.signals (App.onCandle env interval c st) = App.signals st /\
  App.alertHistory (App.onCandle env interval c st) = App.alertHistory st /\
  App.activeTrade (App.onCandle env interval c st) = App.activeTrade st.
Proof.
  intros H. apply isSignal_false in H.
  pose proof (onCandle_feed env interval c st) as Hf. cbv zeta in Hf.
  rewrite H in Hf. exact Hf.
Qed.

Lemma onCandle_without_signal_witness :
  let c := Examples.candle 0 2 1 1 1 in
  let st' := App.onCandle (TI := ReferenceIndicators.reference) Session.env
               "1h"%string c App.initial in
  App.signals st' = App.signals App.initial /\
  App.alertHistory st' = App.alertHistory App.initial /\
  App.activeTrade st' = App.activeTrade App.initial.
Proof.
  cbv zeta. apply onCandle_without_signal. reflexivity.
Defined.

(** A callback for a timeframe other than the one its [processCandles]
    closure captured ([App.activeInterval env]: the chart's interval when
    [init] subscribed, '1h' on mount, and not the interval on display once
    the user has switched the chart) never touches the active trade,
    whatever signal it raises. *)
Theorem onCandle_other_interval_keeps_trade (TI : TechnicalIndicators)
    (env : App.Env) (interval : string) (c : Candle.t) (st : App.State) :
  interval <> App.activeInterval env ->
  App.activeTrade (App.onCandle env interval c st) = App.activeTrade st.
Proof.
  intros Hne. apply String.eqb_neq in Hne.
  destruct (onCandle_feed env interval c st) as (_ & _ & ->).
  destruct (isSignal (detected interval c st)); [|reflexivity].
  unfold App.recordSignal.
  destruct (App.isDuplicate _ _ _); [reflexivity|].
  cbn [App.activeTrade]. rewrite Hne. reflexivity.
Qed.

(** *** A candle that keeps signalling *)

Module TickFacts.

(** A BUY or SELL carries the close and the open time of the last candle of
    the window it was detected on. *)
Lemma signal_of_last_candle (w : list Candle.t)
    (indicators : list IndicatorData.t) (c : Candle.t) :
  Signal.type (StrategyService.checkSignals w indicators) <> NONE ->
  JS.index w (JS.len w - 1) = Some c ->
  Signal.price (StrategyService.checkSignals w indicators) = Candle.close c /\
  Signal.time (StrategyService.checkSignals w indicators) = Candle.time c.
Proof.
  intros Hty Hc.
  destruct (StrategyFacts.checkSignals_shape w indicators)
    as [Heq | (last & cur & prev & [_ Hlast _ _] & Hp & Ht & _)].
  - rewrite Heq in Hty. now contradiction Hty.
  - rewrite Hc in Hlast. injection Hlast as <-. now split.
Qed.

(** The duplicate test looks at the open time only. *)
Lemma isDuplicate_time (prev : list Signal.t) (interval : string)
    (s1 s2 : Signal.t) :
  Signal.time s2 = Signal.time s1 ->
  App.isDuplicate prev interval s2 = App.isDuplicate prev interval s1.
Proof. intros H. unfold App.isDuplicate. now rewrite H. Qed.

(** Once a signal of [interval] went through [recordSignal], recorded or
    suppressed, a signal of the same interval and open time is a duplicate. *)
Lemma recorded_then_duplicate (env : App.Env) (interval : string)
    (s1 s2 : Signal.t) (st : App.State) :
  In interval App.INTERVALS ->
  Signal.time s2 = Signal.time s1 ->
  App.isDuplicate (App.signals (App.recordSignal env interval s1 st))
    interval s2 = true.
Proof.
  intros Hin Ht. rewrite (isDuplicate_time _ _ s1 s2 Ht).
  destruct (App.isDuplicate (App.signals st) interval s1) eqn:Hd.
  - now rewrite FeedFacts.recordSignal_duplicate.
  - rewrite (FeedFacts.recordSignal_fresh env interval s1 st Hd).
    destruct (FeedFacts.slice_last_snoc 19 (App.signals st)
                {| Signal.type := Signal.type s1;
                   Signal.price := Signal.price s1;
                   Signal.time := Signal.time s1;
                   Signal.reason :=
                     ("[" ++ interval ++ "] " ++ Signal.reason s1)%string |})
      as [l' ->].
    unfold App.isDuplicate.
    rewrite WindowFacts.len_pos, WindowFacts.index_last.
    cbn [Signal.time Signal.reason andb].
    rewrite Z.eqb_refl, FeedFacts.tagged_reason_includes by exact Hin.
    reflexivity.
Qed.

End TickFacts.

(** A stand-in for the indicator package that always reports the same
    bullish reading: EMAs stacked 140 > 120 > 100, RSI 55, a MACD line that
    crosses above its signal line on the last step, and flat bands. *)
Module Scripted.

Definition EMA (p : nat) (values : list float) : list float :=
  repeat (if Nat.eqb p 7 then 140 else if Nat.eqb p 25 then 120 else 100)
         (List.length values - (p - 1)).

Definition RSI (p : nat) (values : list float) : list float :=
  repeat 55 (List.length values - p).

Definition MACD (fast slow signal : nat) (values : list float)
  : list MACDOutput.t :=
  let n := (List.length values - (slow + signal - 2))%nat in
  map (fun i =>
         let line := if Nat.eqb (S i) n then 1 else -1 in
         {| MACDOutput.MACD := Some line; MACDOutput.signal := Some 0;
            MACDOutput.histogram := Some line |})
      (seq 0 n).

Definition BollingerBands (p : nat) (stdDev : float) (values : list float)
  : list BollingerBandsOutput.t :=
  repeat {| BollingerBandsOutput.middle := 150;
            BollingerBandsOutput.upper := 200;
            BollingerBandsOutput.lower := 100 |}
         (List.length values - (p - 1)).

Definition bullish : TechnicalIndicators :=
  {| EMA_calculate := EMA; RSI_calculate := RSI; MACD_calculate := MACD;
     BollingerBands_calculate := BollingerBands |}.

(** The session after the history load returned [Examples.window] for every
    timeframe. *)
Definition loaded : App.State :=
  App.init (TI := bullish) (fun _ => Examples.window) App.initial.

End Scripted.

(** On the window of a BUY detected through the scripted package, the
    snapshots of the pipeline are ready in the wider sense. *)
Lemma checkSignals_ready_on_pipeline_witness :
  readyAsStated Examples.window
    (IndicatorService.calculateIndicators (TI := Scripted.bullish)
       Examples.window).
Proof.
  apply (checkSignals_ready_on_pipeline Scripted.bullish Examples.window).
  - vm_compute. repeat split; lia.
  - vm_compute. discriminate.
Defined.

(** [processCandles] is idempotent on each of the five timeframes: run a
    second time on the same window (as happens when the state updater that
    calls it is invoked twice), it stores the same slot again and adds
    nothing to the feed or the log, the signal being a duplicate by then. *)
Theorem processCandles_idempotent (TI : TechnicalIndicators) (env : App.Env)
    (interval : string) (newCandles : list Candle.t) (st : App.State) :
  In interval App.INTERVALS ->
  let st1 := App.processCandles env interval newCandles st in
  let st2 := App.processCandles env interval newCandles st1 in
  App.signals st2 = App.signals st1 /\
  App.alertHistory st2 = App.alertHistory st1 /\
  App.activeTrade st2 = App.activeTrade st1 /\
  forall k, App.timeframes st2 k = App.timeframes st1 k.
Proof.
  intros Hin. cbv zeta. unfold App.processCandles.
  set (indicators := IndicatorService.calculateIndicators newCandles).
  set (signal := StrategyService.checkSignals newCandles indicators).
  destruct (negb (SignalType_eqb (Signal.type signal) NONE)) eqn:Es.
  - set (A := App.mkState (App.setTimeframe (App.timeframes st) _ _)
                (App.signals st) _ _).
    set (r := App.recordSignal env interval signal A).
    set (B := App.mkState _ _ _ _).
    assert (Hdup : App.isDuplicate (App.signals B) interval signal = true)
      by (apply TickFacts.recorded_then_duplicate; [exact Hin | reflexivity]).
    rewrite FeedFacts.recordSignal_duplicate by exact Hdup.
    unfold B. cbn [App.signals App.alertHistory App.activeTrade
                   App.timeframes].
    repeat split. intros k. unfold r.
    rewrite recordSignal_timeframes. unfold A. cbn [App.timeframes].
    unfold App.setTimeframe. destruct (String.eqb k interval); reflexivity.
  - cbn [App.signals App.alertHistory App.activeTrade App.timeframes].
    repeat split. intros k. unfold App.setTimeframe.
    rewrite String.eqb_refl. destruct (String.eqb k interval); reflexivity.
Qed.

Lemma processCandles_idempotent_witness :
  let st1 := App.processCandles (TI := Scripted.bullish) Session.env
               "1h"%string Examples.window App.initial in
  let st2 := App.processCandles (TI := Scripted.bullish) Session.env
               "1h"%string Examples.window st1 in
  App.signals st2 = App.signals st1 /\
  App.alertHistory st2 = App.alertHistory st1 /\
  App.activeTrade st2 = App.activeTrade st1 /\
  forall k, App.timeframes st2 k = App.timeframes st1 k.
Proof.
  cbv zeta. apply processCandles_idempotent. cbn. tauto.
Defined.

(** The closure captured '1h': a BUY raised on the 5m timeframe is logged
    and leaves the trade alone. *)
Lemma onCandle_other_interval_keeps_trade_witness :
  let c := Examples.candle 5940000 200 100 150 12 in
  let st' := App.onCandle (TI := Scripted.bullish) Session.env "5m"%string c
               Scripted.loaded in
  Signal.type (detected (TI := Scripted.bullish) "5m"%string c
                 Scripted.loaded) = BUY /\
  List.length (App.alertHistory st') = 1%nat /\
  App.activeTrade st' = App.activeTrade Scripted.loaded.
Proof.
  cbv zeta. split; [vm_compute; reflexivity|].
  split; [vm_compute; reflexivity|].
  apply onCandle_other_interval_keeps_trade. cbn. discriminate.
Defined.

(** While a candle of one of the five timeframes keeps raising a signal,
    the feed and the log take it once, as long as no other signal comes in
    between: after a callback that detected a BUY or SELL on a candle,
    followed by any run of callbacks, on any timeframes, none of which
    detects a BUY or SELL, a callback of the first timeframe for a candle of
    the same open time changes neither the feed nor the alert log nor the
    active trade.  (A signal detected in between lifts the protection: the
    duplicate test looks at the last entry of the feed only.) *)
Theorem repeated_tick_logs_once (TI : TechnicalIndicators) (env : App.Env)
    (interval : string) (c1 c2 : Candle.t)
    (between : list (string * Candle.t)) (st : App.State) :
  In interval App.INTERVALS ->
  Candle.time c2 = Candle.time c1 ->
  Signal.type (detected interval c1 st) <> NONE ->
  quiet env between (App.onCandle env interval c1 st) = true ->
  let st1 := App.onCandle env interval c1 st in
  let st2 := App.onCandle env interval c2 (runCallbacks env between st1) in
  App.signals st2 = App.signals st1 /\
  App.alertHistory st2 = App.alertHistory st1 /\
  App.activeTrade st2 = App.activeTrade st1.
Proof.
  intros Hin Ht Hs1 Hq. cbv zeta.
  set (st1 := App.onCandle env interval c1 st) in *.
  destruct (onCandle_feed env interval c1 st) as (Hfeed & _ & _).
  fold st1 in Hfeed.
  assert (Es1 : isSignal (detected interval c1 st) = true).
  { destruct (isSignal _) eqn:E; [reflexivity|].
    apply isSignal_false in E. now contradiction Hs1. }
  rewrite Es1 in Hfeed.
  assert (Ht1 : Signal.time (detected interval c1 st) = Candle.time c1).
  { apply (TickFacts.signal_of_last_candle _ _ c1 Hs1).
    apply WindowOrder.applyCandle_last. }
  destruct (quiet_keeps_feed env between st1 Hq) as (Qs & Qa & Qt).
  set (stm := runCallbacks env between st1) in *.
  pose proof (onCandle_feed env interval c2 stm) as Hf2. cbv zeta in Hf2.
  rewrite <- Qs, <- Qa, <- Qt.
  destruct (isSignal (detected interval c2 stm)) eqn:Es2; [|exact Hf2].
  assert (Ht2 : Signal.time (detected interval c2 stm) = Candle.time c2).
  { assert (Hs2 : Signal.type (detected interval c2 stm) <> NONE).
    { intros H. apply isSignal_false in H. congruence. }
    apply (TickFacts.signal_of_last_candle _ _ c2 Hs2).
    apply WindowOrder.applyCandle_last. }
  rewrite FeedFacts.recordSignal_duplicate in Hf2; [exact Hf2|].
  rewrite Qs, Hfeed. apply TickFacts.recorded_then_duplicate; [exact Hin|].
  congruence.
Qed.

(** A BUY on the 1h candle opened at 5940000; then a 5m tick and the next 1h
    candle, both on low volume and raising nothing; then the candle opened
    at 5940000 once more, which is detected as a BUY again and suppressed. *)
Lemma repeated_tick_logs_once_witness :
  let c1 := Examples.candle 5940000 200 100 150 12 in
  let c2 := Examples.candle 5940000 200 100 150 13 in
  let between :=
    [("5m"%string, Examples.candle 5940000 200 100 150 1);
     ("1h"%string, Examples.candle 6000000 200 100 150 1)] in
  let st1 := App.onCandle (TI := Scripted.bullish) Session.env "1h"%string c1
               Scripted.loaded in
  let stm := runCallbacks (TI := Scripted.bullish) Session.env between st1 in
  let st2 := App.onCandle (TI := Scripted.bullish) Session.env "1h"%string c2
               stm in
  Signal.type (detected (TI := Scripted.bullish) "1h"%string c2 stm) = BUY /\
  App.signals st2 = App.signals st1 /\
  App.alertHistory st2 = App.alertHistory st1 /\
  App.activeTrade st2 = App.activeTrade st1.
Proof.
  cbv zeta. split; [vm_compute; reflexivity|].
  apply repeated_tick_logs_once.
  - cbn. tauto.
  - reflexivity.
  - vm_compute. discriminate.
  - vm_compute. reflexivity.
Defined.

(** ** What [checkSignals] reads, and when it answers BUY or SELL *)

Module RecentData.

Lemma slice_last_short {A : Type} (n : nat) (l : list A) :
  (List.length l <= n)%nat -> JS.slice_last n l = l.
Proof.
  intros H. unfold JS.slice_last.
  replace (List.length l - n)%nat with 0%nat by lia. reflexivity.
Qed.

Lemma slice_last_len {A : Type} (n : nat) (l : list A) :
  (n <= List.length l)%nat -> List.length (JS.slice_last n l) = n.
Proof. intros H. unfold JS.slice_last. rewrite length_skipn. lia. Qed.

(** Counting from the end, a slice of the last [n] elements and the whole
    array hold the same elements at the positions 1 to [n]. *)
Lemma index_slice_last {A : Type} (n : nat) (l : list A) (k : nat) :
  (1 <= k <= n)%nat ->
  JS.index (JS.slice_last n l) (JS.len (JS.slice_last n l) - Z.of_nat k) =
  JS.index l (JS.len l - Z.of_nat k).
Proof.
  intros Hk.
  destruct (Nat.le_gt_cases (List.length l) n) as [Hs | Hl].
  - now rewrite slice_last_short.
  - unfold JS.index, JS.len. rewrite slice_last_len by lia.
    destruct (Z.of_nat n - Z.of_nat k <? 0)%Z eqn:E1;
      [apply Z.ltb_lt in E1; lia|].
    destruct (Z.of_nat (List.length l) - Z.of_nat k <? 0)%Z eqn:E2;
      [apply Z.ltb_lt in E2; lia|].
    unfold JS.slice_last. rewrite nth_error_skipn. f_equal. lia.
Qed.

Lemma slice_last_slice_last {A : Type} (m n : nat) (l : list A) :
  (m <= n)%nat ->
  JS.slice_last m (JS.slice_last n l) = JS.slice_last m l.
Proof.
  intros H. unfold JS.slice_last. rewrite length_skipn, skipn_skipn.
  f_equal. lia.
Qed.

End RecentData.

(** On a window of at least 100 candles the answer depends on the last 100
    candles and the last two snapshots only: older candles and snapshots are
    never read. *)
Theorem checkSignals_reads_recent_data (candles : list Candle.t)
    (indicators : list IndicatorData.t) :
  (100 <= JS.len candles)%Z ->
  StrategyService.checkSignals candles indicators =
  StrategyService.checkSignals (JS.slice_last 100 candles)
    (JS.slice_last 2 indicators).
Proof.
  intros Hlen. unfold JS.len in Hlen.
  unfold StrategyService.checkSignals.
  pose proof (RecentData.index_slice_last 100 candles 1 ltac:(lia)) as Hc.
  pose proof (RecentData.index_slice_last 2 indicators 1 ltac:(lia)) as H1.
  pose proof (RecentData.index_slice_last 2 indicators 2 ltac:(lia)) as H2.
  change (Z.of_nat 1) with 1%Z in *. change (Z.of_nat 2) with 2%Z in *.
  rewrite Hc, H1, H2.
  assert (E100 : JS.len (JS.slice_last 100 candles) = 100%Z).
  { unfold JS.len. rewrite RecentData.slice_last_len by lia. reflexivity. }
  rewrite E100.
  assert (El : (JS.len candles <? 100)%Z = false)
    by (apply Z.ltb_ge; exact Hlen).
  rewrite El. change (100 <? 100)%Z with false. cbv iota.
  rewrite (RecentData.slice_last_slice_last 100 100) by lia.
  unfold StrategyService.isHighVolume, StrategyService.avgVolume.
  rewrite (RecentData.slice_last_slice_last 20 100) by lia.
  reflexivity.
Qed.

Lemma checkSignals_reads_recent_data_witness :
  let candles := Examples.candle (-60000) 900 1 500 50 :: Examples.window in
  let indicators :=
    [Examples.curBearish None; Examples.prevWithoutEma;
     Examples.curBullish] in
  StrategyService.checkSignals candles indicators =
  StrategyService.checkSignals (JS.slice_last 100 candles)
    (JS.slice_last 2 indicators).
Proof.
  cbv zeta. apply checkSignals_reads_recent_data. vm_compute. discriminate.
Defined.

(** [checkSignals] answers BUY exactly when the window has at least 100
    candles, the last two snapshots exist, the price is in an up-trend, the
    EMAs are stacked 7 > 25 > 99, the MACD line has just crossed above its
    signal line, the RSI guard and the volume confirmation hold, and the
    price is near a Fibonacci support or at least not near a resistance. *)
Theorem checkSignals_buy_iff (candles : list Candle.t)
    (indicators : list IndicatorData.t) :
  Signal.type (StrategyService.checkSignals candles indicators) = BUY <->
  exists last cur prev,
    (100 <= JS.len candles)%Z /\
    JS.index candles (JS.len candles - 1) = Some last /\
    JS.index indicators (JS.len indicators - 1) = Some cur /\
    JS.index indicators (JS.len indicators - 2) = Some prev /\
    let price := Candle.close last in
    let fib :=
      IndicatorService.calculateFibonacciLevels
        (JS.slice_last 100 candles) in
    StrategyService.isUpTrend price cur = true /\
    StrategyService.emasAligned cur = true /\
    StrategyService.macdBullishCrossover cur prev = true /\
    StrategyService.isRsiSafeBuy cur = true /\
    StrategyService.isHighVolume last candles = true /\
    (StrategyService.nearFibSupport price fib = true \/
     StrategyService.nearFibResistance price fib = false).
Proof.
  unfold StrategyService.checkSignals. cbv zeta.
  destruct (JS.len candles <? 100)%Z eqn:Hlen.
  { split; [discriminate|]. intros (l & c & p & H & _).
    apply Z.ltb_lt in Hlen. lia. }
  apply Z.ltb_ge in Hlen.
  destruct (JS.index candles (JS.len candles - 1)) as [last|];
    [|split; [discriminate | intros (l & c & p & _ & H & _); discriminate]].
  destruct (JS.index indicators (JS.len indicators - 1)) as [cur|];
    [|split; [discriminate
             | intros (l & c & p & _ & _ & H & _); discriminate]].
  destruct (JS.index indicators (JS.len indicators - 2)) as [prev|];
    [|split; [discriminate
             | intros (l & c & p & _ & _ & _ & H & _); discriminate]].
  destruct (StrategyService.isUpTrend (Candle.close last) cur) eqn:Eup,
    (StrategyService.emasAligned cur) eqn:Eal,
    (StrategyService.macdBullishCrossover cur prev) eqn:Ebull,
    (StrategyService.isRsiSafeBuy cur) eqn:Ersi,
    (StrategyService.isHighVolume last candles) eqn:Evol,
    (StrategyService.nearFibSupport (Candle.close last) _) eqn:Esup,
    (StrategyService.nearFibResistance (Candle.close last) _) eqn:Eres;
    cbn [andb negb];
    repeat match goal with
    | |- context [if ?b then _ else _] => destruct b
    end; cbn [Signal.type StrategyService.none];
    (split;
     [ intros H; try discriminate H; exists last, cur, prev;
       rewrite ?Eup, ?Eal, ?Ebull, ?Ersi, ?Evol, ?Esup, ?Eres; tauto
     | intros (l & c & p & _ & Hl & Hc & Hp & H);
       injection Hl as <-; injection Hc as <-; injection Hp as <-;
       rewrite ?Eup, ?Eal, ?Ebull, ?Ersi, ?Evol, ?Esup, ?Eres in H;
       try reflexivity;
       decompose [and or] H; discriminate ]).
Qed.

(** [checkSignals] answers SELL exactly when the window has at least 100
    candles, the last two snapshots exist, the price is not in an up-trend,
    the EMAs are stacked 7 < 25 < 99, the MACD line has just crossed below
    its signal line, the RSI guard and the volume confirmation hold, and the
    price is near a Fibonacci resistance or at least not near a support. *)
Theorem checkSignals_sell_iff (candles : list Candle.t)
    (indicators : list IndicatorData.t) :
  Signal.type (StrategyService.checkSignals candles indicators) = SELL <->
  exists last cur prev,
    (100 <= JS.len candles)%Z /\
    JS.index candles (JS.len candles - 1) = Some last /\
    JS.index indicators (JS.len indicators - 1) = Some cur /\
    JS.index indicators (JS.len indicators - 2) = Some prev /\
    let price := Candle.close last in
    let fib :=
      IndicatorService.calculateFibonacciLevels
        (JS.slice_last 100 candles) in
    StrategyService.isUpTrend price cur = false /\
    StrategyService.emasAlignedBearish cur = true /\
    StrategyService.macdBearishCrossover cur prev = true /\
    StrategyService.isRsiSafeSell cur = true /\
    StrategyService.isHighVolume last candles = true /\
    (StrategyService.nearFibResistance price fib = true \/
     StrategyService.nearFibSupport price fib = false).
Proof.
  unfold StrategyService.checkSignals. cbv zeta.
  destruct (JS.len candles <? 100)%Z eqn:Hlen.
  { split; [discriminate|]. intros (l & c & p & H & _).
    apply Z.ltb_lt in Hlen. lia. }
  apply Z.ltb_ge in Hlen.
  destruct (JS.index candles (JS.len candles - 1)) as [last|];
    [|split; [discriminate | intros (l & c & p & _ & H & _); discriminate]].
  destruct (JS.index indicators (JS.len indicators - 1)) as [cur|];
    [|split; [discriminate
             | intros (l & c & p & _ & _ & H & _); discriminate]].
  destruct (JS.index indicators (JS.len indicators - 2)) as [prev|];
    [|split; [discriminate
             | intros (l & c & p & _ & _ & _ & H & _); discriminate]].
  destruct (StrategyService.isUpTrend (Candle.close last) cur) eqn:Eup,
    (StrategyService.emasAlignedBearish cur) eqn:Eal,
    (StrategyService.macdBearishCrossover cur prev) eqn:Ebear,
    (StrategyService.isRsiSafeSell cur) eqn:Ersi,
    (StrategyService.isHighVolume last candles) eqn:Evol,
    (StrategyService.nearFibSupport (Candle.close last) _) eqn:Esup,
    (StrategyService.nearFibResistance (Candle.close last) _) eqn:Eres;
    cbn [andb negb];
    repeat match goal with
    | |- context [if ?b then _ else _] => destruct b
    end; cbn [Signal.type StrategyService.none];
    (split;
     [ intros H; try discriminate H; exists last, cur, prev;
       rewrite ?Eup, ?Eal, ?Ebear, ?Ersi, ?Evol, ?Esup, ?Eres; tauto
     | intros (l & c & p & _ & Hl & Hc & Hp & H);
       injection Hl as <-; injection Hc as <-; injection Hp as <-;
       rewrite ?Eup, ?Eal, ?Ebear, ?Ersi, ?Evol, ?Esup, ?Eres in H;
       try reflexivity;
       decompose [and or] H; discriminate ]).
Qed.

(** A BUY or SELL detected by the websocket callback carries the close and
    the open time of the candle that has just arrived, not those of an older
    candle of the window. *)
Theorem detected_signal_is_of_incoming_candle (TI : TechnicalIndicators)
    (interval : string) (c : Candle.t) (st : App.State) :
  Signal.type (detected interval c st) <> NONE ->
  Signal.price (detected interval c st) = Candle.close c /\
  Signal.time (detected interval c st) = Candle.time c.
Proof.
  intros H. apply (TickFacts.signal_of_last_candle _ _ c H).
  apply WindowOrder.applyCandle_last.
Qed.

Lemma detected_signal_is_of_incoming_candle_witness :
  let c := Examples.candle 6000000 200 100 150 12 in
  let s := detected (TI := Scripted.bullish) "4h"%string c Scripted.loaded in
  Signal.price s = Candle.close c /\ Signal.time s = Candle.time c.
Proof.
  cbv zeta. apply detected_signal_is_of_incoming_candle.
  vm_compute. discriminate.
Defined.

(* ================================================================== *)
(** ** Trade levels on realistic inputs, and the order that is placed *)
(* ================================================================== *)

(** *** Strict rounding bounds *)

Module StrictRounding.
Import Rounding.
Local Open Scope Z_scope.

Lemma bounded_normal (m : positive) (e : Z) :
  2 ^ 52 <= Zpos m < 2 ^ 53 -> -1074 <= e <= 971 ->
  bounded prec emax m e = true.
Proof.
  intros Hm He. unfold bounded, canonical_mantissa.
  apply andb_true_iff. split.
  - apply Z.eqb_eq. rewrite fexp64_eq.
    rewrite (digits2_pos_unique m 53) by (change (53 - 1) with 52; exact Hm).
    lia.
  - apply Z.leb_le. change (emax - prec) with 971. lia.
Qed.

Lemma SFltb_finite_pos (m1 : positive) (e1 : Z) (m2 : positive) (e2 : Z) :
  e1 < e2 \/ (e1 = e2 /\ (m1 < m2)%positive) ->
  SFltb (S754_finite false m1 e1) (S754_finite false m2 e2) = true.
Proof.
  unfold SFltb, SFcompare. intros [H | [-> H]].
  - apply Z.compare_lt_iff in H. rewrite H. reflexivity.
  - rewrite Z.compare_refl.
    change (PosDef.Pos.compare_cont Eq m1 m2) with (Pos.compare m1 m2).
    destruct (Pos.compare_spec m1 m2); try reflexivity; lia.
Qed.

Lemma SFltb_signed_below (s : bool) (x : spec_float) (mx : positive)
    (ex : Z) :
  x = S754_zero s \/ x = S754_infinity true \/
  (exists m e, x = S754_finite true m e) ->
  SFltb x (S754_finite false mx ex) = true.
Proof.
  intros [-> | [-> | (m & e & ->)]]; reflexivity.
Qed.

(** The order of two positive finite doubles is the order of their values. *)
Lemma SFleb_scaled (m1 : positive) (e1 : Z) (m2 : positive) (e2 : Z) :
  bounded prec emax m1 e1 = true -> bounded prec emax m2 e2 = true ->
  SFleb (S754_finite false m1 e1) (S754_finite false m2 e2) = true ->
  scaled (Zpos m1) e1 <= scaled (Zpos m2) e2.
Proof.
  intros H1 H2 Hle. assert (Hs : scale = 2200) by reflexivity.
  destruct (bounded_facts _ _ H1) as (He1 & Hm1 & _).
  destruct (bounded_facts _ _ H2) as (He2 & Hm2 & Hn2 & _).
  unfold SFleb, SFcompare in Hle.
  destruct (Z.compare_spec e1 e2) as [Heq | Hlt | Hgt].
  - subst e2. rewrite Pos.compare_cont_spec in Hle.
    cbn [Pos.switch_Eq] in Hle. rewrite Pos2Z.inj_compare in Hle.
    unfold scaled. apply Z.mul_le_mono_nonneg_r;
      [apply Z.lt_le_incl, pow2_pos; lia|].
    destruct (Z.compare_spec (Zpos m1) (Zpos m2)); try discriminate; lia.
  - apply scaled_le_cancel; [lia | lia |].
    assert (2 ^ 1 <= 2 ^ (e2 - e1)) by (apply Z.pow_le_mono_r; lia).
    change (2 ^ 1) with 2 in *.
    assert (2 ^ 52 <= Zpos m2) by (apply Hn2; lia).
    change (2 ^ 53) with 9007199254740992 in *.
    change (2 ^ 52) with 4503599627370496 in *.
    assert (4503599627370496 * 2 <= Zpos m2 * 2 ^ (e2 - e1))
      by (apply Z.mul_le_mono_nonneg; lia).
    lia.
  - discriminate.
Qed.

(** Landmarks: the smallest normal double [2^-1022], [2^1023], the gap
    [2^-52] between one and the next double, and the doubles [1 - 2^-52] and
    [1 + 2^-52]. *)
Definition min_normal : spec_float :=
  S754_finite false 4503599627370496 (-1074).

Definition half_max : spec_float :=
  S754_finite false 4503599627370496 971.

Definition eps : spec_float := S754_finite false 4503599627370496 (-104).

Definition below_one : spec_float :=
  S754_finite false 9007199254740990 (-53).

Definition above_one : spec_float :=
  S754_finite false 4503599627370497 (-52).

Lemma at_least_min_normal (mx : positive) (ex : Z) :
  bounded prec emax mx ex = true ->
  SFleb min_normal (S754_finite false mx ex) = true ->
  2 ^ 52 <= Zpos mx.
Proof.
  intros Hb Hle. destruct (bounded_facts _ _ Hb) as (Hex & Hmx & Hnorm & _).
  unfold SFleb, min_normal, SFcompare in Hle.
  destruct (Z.compare_spec (-1074) ex) as [Heq | Hlt | Hgt].
  - subst ex. rewrite Pos.compare_cont_spec in Hle.
    cbn [Pos.switch_Eq] in Hle.
    rewrite Pos2Z.inj_compare in Hle.
    change (2 ^ 52) with 4503599627370496.
    destruct (Z.compare_spec (Zpos 4503599627370496) (Zpos mx));
      try discriminate; lia.
  - apply Hnorm. lia.
  - discriminate.
Qed.

Lemma at_most_half_max (mx : positive) (ex : Z) :
  bounded prec emax mx ex = true ->
  SFleb (S754_finite false mx ex) half_max = true ->
  ex < 971 \/ Zpos mx <= 2 ^ 52.
Proof.
  intros Hb Hle. unfold SFleb, half_max, SFcompare in Hle.
  destruct (Z.compare_spec ex 971) as [Heq | Hlt | Hgt].
  - subst ex. rewrite Pos.compare_cont_spec in Hle.
    cbn [Pos.switch_Eq] in Hle. rewrite Pos2Z.inj_compare in Hle.
    change (2 ^ 52) with 4503599627370496.
    destruct (Z.compare_spec (Zpos mx) (Zpos 4503599627370496));
      try discriminate; right; lia.
  - now left.
  - discriminate.
Qed.

Lemma at_most_below_one (mf : positive) (ef : Z) :
  bounded prec emax mf ef = true ->
  SFleb (S754_finite false mf ef) below_one = true ->
  ef <= -53 /\ Zpos mf <= (2 ^ 53 - 2) * 2 ^ (- 53 - ef).
Proof.
  intros Hb Hle. destruct (bounded_facts _ _ Hb) as (Hef & Hmf & _).
  unfold SFleb, below_one, SFcompare in Hle.
  destruct (Z.compare_spec ef (-53)) as [Heq | Hlt | Hgt].
  - subst ef. rewrite Pos.compare_cont_spec in Hle.
    cbn [Pos.switch_Eq] in Hle.
    rewrite Pos2Z.inj_compare in Hle.
    destruct (Z.compare_spec (Zpos mf) (Zpos 9007199254740990));
      try discriminate; split; try lia;
      change (-53 - -53) with 0; change (2 ^ 0) with 1;
      change (2 ^ 53 - 2) with 9007199254740990; lia.
  - split; [lia|].
    assert (2 ^ 1 <= 2 ^ (- 53 - ef)) by (apply Z.pow_le_mono_r; lia).
    change (2 ^ 1) with 2 in *.
    change (2 ^ 53 - 2) with 9007199254740990.
    change (2 ^ 53) with 9007199254740992 in Hmf. lia.
  - discriminate.
Qed.

Lemma at_least_above_one (mg : positive) (eg : Z) :
  bounded prec emax mg eg = true ->
  SFleb above_one (S754_finite false mg eg) = true ->
  -52 <= eg /\
  (eg <= 0 -> (2 ^ 52 + 1) * 2 ^ (- eg) <= Zpos mg * 2 ^ 52) /\
  2 ^ 52 <= Zpos mg.
Proof.
  intros Hb Hle. destruct (bounded_facts _ _ Hb) as (Heg & Hmg & Hnorm & _).
  unfold SFleb, above_one, SFcompare in Hle.
  change (2 ^ 52) with 4503599627370496 in *.
  destruct (Z.compare_spec (-52) eg) as [Heq | Hlt | Hgt].
  - subst eg. rewrite Pos.compare_cont_spec in Hle.
    cbn [Pos.switch_Eq] in Hle. rewrite Pos2Z.inj_compare in Hle.
    change (2 ^ (- -52)) with 4503599627370496.
    destruct (Z.compare_spec (Zpos 4503599627370497) (Zpos mg));
      try discriminate; repeat split; try lia.
  - assert (4503599627370496 <= Zpos mg) by (apply Hnorm; lia).
    repeat split; try lia. intros Hneg.
    assert (2 ^ (- eg) <= 2 ^ 51) by (apply Z.pow_le_mono_r; lia).
    change (2 ^ 51) with 2251799813685248 in *.
    pose proof (pow2_pos (- eg) ltac:(lia)). lia.
  - discriminate.
Qed.

Lemma at_least_eps (s : spec_float) :
  SpecFloat.valid_binary prec emax s = true ->
  SFleb eps s = true ->
  s = S754_infinity false \/
  exists ms es, s = S754_finite false ms es /\
    bounded prec emax ms es = true /\
    2 ^ (scale - 52) <= scaled (Zpos ms) es.
Proof.
  intros Hv Hle.
  destruct s as [b | b | | b ms es]; try discriminate.
  - destruct b; [discriminate | now left].
  - destruct b; [discriminate|]. right. exists ms, es.
    split; [reflexivity|]. split; [exact Hv|].
    change (2 ^ (scale - 52)) with (scaled 4503599627370496 (-104)).
    apply SFleb_scaled; [reflexivity | exact Hv | exact Hle].
Qed.

(** The exact product of a normal value and a factor of at most
    [1 - 2^-52] does not exceed the double just below that value. *)
Lemma product_below_predecessor (mx : positive) (ex : Z) (mf : positive)
    (ef : Z) :
  bounded prec emax mx ex = true -> 2 ^ 52 <= Zpos mx ->
  -1074 <= ef <= -53 -> Zpos mf <= (2 ^ 53 - 2) * 2 ^ (- 53 - ef) ->
  exists mb eb,
    bounded prec emax mb eb = true /\
    scaled (Zpos (mx * mf)) (ex + ef) <= scaled (Zpos mb) eb /\
    (eb < ex \/ (eb = ex /\ (mb < mx)%positive)).
Proof.
  intros Hx Hn Hef Hm. assert (Hs : scale = 2200) by reflexivity.
  destruct (bounded_facts _ _ Hx) as (Hex & Hmx & _).
  set (P := 2 ^ (- 53 - ef)) in *.
  assert (HP : 1 <= P).
  { unfold P. change 1 with (2 ^ 0). apply Z.pow_le_mono_r; lia. }
  assert (Hpow : forall d, -53 <= d -> 2 ^ (d - ef) = 2 ^ (d + 53) * P).
  { intros d Hd. unfold P. rewrite <- Z.pow_add_r by lia. f_equal. lia. }
  change (2 ^ 53) with 9007199254740992 in *.
  change (2 ^ 52) with 4503599627370496 in *.
  change (9007199254740992 - 2) with 9007199254740990 in Hm.
  assert (Hprod : Zpos mx * Zpos mf <= Zpos mx * (9007199254740990 * P))
    by (apply Z.mul_le_mono_nonneg_l; lia).
  destruct (Z.eq_dec (Zpos mx) 4503599627370496) as [E | E].
  - destruct (Z.eq_dec ex (-1074)) as [Ee | Ee].
    + (* the smallest normal double: its predecessor is subnormal *)
      exists 4503599627370495%positive, (-1074).
      split; [reflexivity|]. split.
      * apply scaled_le_cancel; [lia | lia |].
        replace (-1074 - (ex + ef)) with (0 - ef) by lia.
        rewrite Hpow by lia. rewrite Pos2Z.inj_mul.
        change (2 ^ (0 + 53)) with 9007199254740992.
        rewrite E in *. lia.
      * right. split; [lia|]. lia.
    + (* a power of two: its predecessor has the exponent below *)
      exists 9007199254740991%positive, (ex - 1).
      split; [apply bounded_normal;
              [change (2 ^ 52) with 4503599627370496;
               change (2 ^ 53) with 9007199254740992; lia | lia]|].
      split.
      * apply scaled_le_cancel; [lia | lia |].
        replace (ex - 1 - (ex + ef)) with (-1 - ef) by lia.
        rewrite Hpow by lia. rewrite Pos2Z.inj_mul.
        change (2 ^ (-1 + 53)) with 4503599627370496.
        rewrite E in *. lia.
      * left. lia.
  - assert (Hpred : Zpos (Pos.pred mx) = Zpos mx - 1).
    { rewrite Pos2Z.inj_pred by lia. lia. }
    exists (Pos.pred mx), ex.
    split; [apply bounded_normal;
            [change (2 ^ 52) with 4503599627370496;
             change (2 ^ 53) with 9007199254740992; lia | lia]|].
    split.
    + apply scaled_le_cancel; [lia | lia |].
      replace (ex - (ex + ef)) with (0 - ef) by lia.
      rewrite Hpow by lia. rewrite Pos2Z.inj_mul, Hpred.
      change (2 ^ (0 + 53)) with 9007199254740992.
      assert (HQ : 4503599627370496 * P <= Zpos mx * P)
        by (apply Z.mul_le_mono_nonneg_r; lia).
      replace (Zpos mx * (9007199254740990 * P))
        with (9007199254740990 * (Zpos mx * P)) in Hprod by ring.
      replace ((Zpos mx - 1) * (9007199254740992 * P))
        with (9007199254740992 * (Zpos mx * P) - 9007199254740992 * P)
        by ring.
      revert Hprod HQ. generalize (Zpos mx * P).
      generalize (Zpos mx * Zpos mf). intros; lia.
    + right. split; [reflexivity|]. lia.
Qed.

(** A normal positive value times a factor of at most [1 - 2^-52] is
    strictly smaller. *)
Lemma SFmul_lt_self (mx : positive) (ex : Z) (f : spec_float) :
  bounded prec emax mx ex = true ->
  2 ^ 52 <= Zpos mx ->
  SpecFloat.valid_binary prec emax f = true ->
  SFleb f below_one = true ->
  SFltb (SFmul prec emax (S754_finite false mx ex) f)
        (S754_finite false mx ex) = true.
Proof.
  intros Hx Hn Hf Hle.
  assert (Hs : scale = 2200) by reflexivity.
  destruct (bounded_facts _ _ Hx) as (Hex & Hmx & _).
  destruct f as [sf | sf | | sf mf ef]; cbn [SFmul xorb].
  - reflexivity.
  - destruct sf; [reflexivity | discriminate Hle].
  - discriminate Hle.
  - cbn [SpecFloat.valid_binary] in Hf.
    destruct (bounded_facts _ _ Hf) as (Hef & Hmf & _).
    pose proof (mul_exponent_ok mx ex mf ef Hx Hf) as Hok.
    destruct sf.
    + apply (SFltb_signed_below true).
      destruct (binary_round_aux_shape true (mx * mf) (ex + ef) Hok)
        as [-> | [-> | (m' & e' & ->)]]; eauto.
    + destruct (at_most_below_one mf ef Hf Hle) as [Hneg Hm].
      destruct (product_below_predecessor mx ex mf ef Hx Hn ltac:(lia) Hm)
        as (mb & eb & Hb & Hval & Hord).
      destruct (round_le false (mx * mf) (ex + ef) mb eb Hok ltac:(lia) Hb
                  Hval)
        as [-> | (m' & e' & -> & Hord')].
      * reflexivity.
      * apply SFltb_finite_pos. lia.
Qed.

(** The exact product of a normal value of at most [2^1023] and a factor of
    at least [1 + 2^-52] is not below the double just above that value. *)
Lemma product_above_successor (mx : positive) (ex : Z) (mg : positive)
    (eg : Z) :
  bounded prec emax mx ex = true -> 2 ^ 52 <= Zpos mx ->
  ex < 971 \/ Zpos mx <= 2 ^ 52 ->
  -52 <= eg <= 971 -> 2 ^ 52 <= Zpos mg ->
  (eg <= 0 -> (2 ^ 52 + 1) * 2 ^ (- eg) <= Zpos mg * 2 ^ 52) ->
  exists mb eb,
    bounded prec emax mb eb = true /\
    scaled (Zpos mb) eb <= scaled (Zpos (mx * mg)) (ex + eg) /\
    (ex < eb \/ (eb = ex /\ (mx < mb)%positive)).
Proof.
  intros Hx Hn Hroom Heg Hmg Hm. assert (Hs : scale = 2200) by reflexivity.
  destruct (bounded_facts _ _ Hx) as (Hex & Hmx & _).
  change (2 ^ 53) with 9007199254740992 in *.
  change (2 ^ 52) with 4503599627370496 in *.
  assert (Hsucc :
    exists mb eb,
      bounded prec emax mb eb = true /\
      scaled (Zpos mb) eb = scaled (Zpos mx + 1) ex /\
      (ex < eb \/ (eb = ex /\ (mx < mb)%positive))).
  { destruct (Z.eq_dec (Zpos mx) 9007199254740991) as [E | E].
    - exists 4503599627370496%positive, (ex + 1).
      split; [apply bounded_normal;
              [change (2 ^ 52) with 4503599627370496;
               change (2 ^ 53) with 9007199254740992; lia | lia]|].
      split; [|left; lia].
      unfold scaled. rewrite E.
      replace (ex + 1 + scale) with (1 + (ex + scale)) by lia.
      rewrite (Z.pow_add_r 2 1) by lia. change (2 ^ 1) with 2. lia.
    - exists (mx + 1)%positive, ex.
      split; [apply bounded_normal;
              [change (2 ^ 52) with 4503599627370496;
               change (2 ^ 53) with 9007199254740992; lia | lia]|].
      split; [rewrite Pos2Z.inj_add; reflexivity|].
      right. split; [reflexivity | lia]. }
  destruct Hsucc as (mb & eb & Hb & Hval & Hord).
  exists mb, eb. split; [exact Hb|]. split; [|exact Hord].
  rewrite Hval, Pos2Z.inj_mul.
  destruct (Z.le_gt_cases eg 0) as [Hneg | Hpos].
  - apply scaled_ge_cancel; [lia | lia |].
    replace (ex - (ex + eg)) with (- eg) by lia.
    specialize (Hm Hneg). set (Q := 2 ^ (- eg)) in *.
    assert (HQ : 0 < Q) by (apply pow2_pos; lia).
    assert (HU : 4503599627370496 * Q <= Zpos mx * Q)
      by (apply Z.mul_le_mono_nonneg_r; lia).
    assert (HV : Zpos mx * ((4503599627370496 + 1) * Q)
                 <= Zpos mx * (Zpos mg * 4503599627370496))
      by (apply Z.mul_le_mono_nonneg_l; lia).
    replace (Zpos mx * ((4503599627370496 + 1) * Q))
      with (4503599627370497 * (Zpos mx * Q)) in HV by ring.
    replace (Zpos mx * (Zpos mg * 4503599627370496))
      with (4503599627370496 * (Zpos mx * Zpos mg)) in HV by ring.
    replace ((Zpos mx + 1) * Q) with (Zpos mx * Q + Q) by ring.
    revert HU HV. generalize (Zpos mx * Q).
    generalize (Zpos mx * Zpos mg). intros; lia.
  - apply scaled_le_cancel; [lia | lia |].
    pose proof (pow2_pos (ex + eg - ex) ltac:(lia)) as HP.
    assert (HV : 4503599627370496 * 4503599627370496
                 <= Zpos mx * Zpos mg)
      by (apply Z.mul_le_mono_nonneg; lia).
    assert (HW : Zpos mx * Zpos mg * 1
                 <= Zpos mx * Zpos mg * 2 ^ (ex + eg - ex))
      by (apply Z.mul_le_mono_nonneg_l; lia).
    revert HV HW. generalize (2 ^ (ex + eg - ex)).
    generalize (Zpos mx * Zpos mg). intros; lia.
Qed.

(** A normal positive value of at most [2^1023] times a factor of at least
    [1 + 2^-52] is strictly larger. *)
Lemma SFmul_gt_self (mx : positive) (ex : Z) (g : spec_float) :
  bounded prec emax mx ex = true ->
  2 ^ 52 <= Zpos mx ->
  SFleb (S754_finite false mx ex) half_max = true ->
  SpecFloat.valid_binary prec emax g = true ->
  SFleb above_one g = true ->
  SFltb (S754_finite false mx ex)
        (SFmul prec emax (S754_finite false mx ex) g) = true.
Proof.
  intros Hx Hn Hmax Hg Hle.
  assert (Hs : scale = 2200) by reflexivity.
  destruct (bounded_facts _ _ Hx) as (Hex & Hmx & _).
  destruct g as [sg | sg | | sg mg eg]; cbn [SFmul xorb].
  - discriminate Hle.
  - destruct sg; [discriminate Hle | reflexivity].
  - discriminate Hle.
  - destruct sg; [discriminate Hle|].
    cbn [SpecFloat.valid_binary] in Hg.
    destruct (bounded_facts _ _ Hg) as (Heg & Hmg & _).
    pose proof (mul_exponent_ok mx ex mg eg Hx Hg) as Hok.
    destruct (at_least_above_one mg eg Hg Hle) as (Hlow & Hm & Hmg52).
    pose proof (at_most_half_max mx ex Hx Hmax) as Hroom.
    destruct (product_above_successor mx ex mg eg Hx Hn Hroom ltac:(lia)
                Hmg52 Hm)
      as (mb & eb & Hb & Hval & Hord).
    destruct (round_ge false (mx * mg) (ex + eg) mb eb Hok ltac:(lia) Hb
                Hval)
      as [-> | (m' & e' & -> & Hord')].
    + reflexivity.
    + apply SFltb_finite_pos. lia.
Qed.

(** One minus at least [2^-52] is at most [1 - 2^-52]. *)
Lemma SFsub_one_le (s : spec_float) :
  SpecFloat.valid_binary prec emax s = true ->
  SFleb eps s = true ->
  SFleb (SFsub prec emax one64 s) below_one = true.
Proof.
  intros Hv Hle. assert (Hs : scale = 2200) by reflexivity.
  destruct (at_least_eps s Hv Hle) as [-> | (ms & es & -> & Hb & Hval)];
    [reflexivity|].
  destruct (bounded_facts _ _ Hb) as (Hes & _).
  unfold one64. cbn [SFsub cond_Zopp].
  apply normalize_le; [lia | reflexivity |].
  set (ez := Z.min (-52) es).
  assert (H1 : scaled (Zpos (fst (shl_align 4503599627370496 (-52) ez))) ez
               = scaled 4503599627370496 (-52))
    by (apply align_value; lia).
  assert (H2 : scaled (Zpos (fst (shl_align ms es ez))) ez
               = scaled (Zpos ms) es)
    by (apply align_value; lia).
  unfold scaled in *. rewrite Z.mul_sub_distr_r, H1, H2.
  change (4503599627370496 * 2 ^ (-52 + scale))
    with (4503599627370496 * 2 ^ (scale - 52)).
  change (9007199254740990 * 2 ^ (-53 + scale))
    with (4503599627370495 * 2 ^ (scale - 52)).
  lia.
Qed.

(** One plus at least [2^-52] is at least [1 + 2^-52]. *)
Lemma SFadd_one_ge (s : spec_float) :
  SpecFloat.valid_binary prec emax s = true ->
  SFleb eps s = true ->
  SFleb above_one (SFadd prec emax one64 s) = true.
Proof.
  intros Hv Hle. assert (Hs : scale = 2200) by reflexivity.
  destruct (at_least_eps s Hv Hle) as [-> | (ms & es & -> & Hb & Hval)];
    [reflexivity|].
  destruct (bounded_facts _ _ Hb) as (Hes & _).
  unfold one64. cbn [SFadd cond_Zopp].
  apply normalize_ge; [lia | reflexivity |].
  set (ez := Z.min (-52) es).
  assert (H1 : scaled (Zpos (fst (shl_align 4503599627370496 (-52) ez))) ez
               = scaled 4503599627370496 (-52))
    by (apply align_value; lia).
  assert (H2 : scaled (Zpos (fst (shl_align ms es ez))) ez
               = scaled (Zpos ms) es)
    by (apply align_value; lia).
  unfold scaled in *. rewrite Z.mul_add_distr_r, H1, H2.
  change (4503599627370496 * 2 ^ (-52 + scale))
    with (4503599627370496 * 2 ^ (scale - 52)).
  change (4503599627370497 * 2 ^ (-52 + scale))
    with (4503599627370497 * 2 ^ (scale - 52)).
  lia.
Qed.

(** Equal to a positive finite double means identical to it. *)
Lemma SFeqb_finite_pos (x : spec_float) (m : positive) (e : Z) :
  SFeqb x (S754_finite false m e) = true -> x = S754_finite false m e.
Proof.
  unfold SFeqb, SFcompare.
  destruct x as [b | b | | b m' e']; try (destruct b; discriminate);
    try discriminate.
  destruct b; [discriminate|].
  destruct (Z.compare_spec e' e) as [-> | H | H]; try discriminate.
  rewrite Pos.compare_cont_spec. cbn [Pos.switch_Eq].
  destruct (Pos.compare_spec m' m) as [-> | H | H]; try discriminate.
  reflexivity.
Qed.

Lemma SFsub_self (m : positive) (e : Z) :
  SFsub prec emax (S754_finite false m e) (S754_finite false m e)
  = S754_zero false.
Proof.
  cbn [SFsub cond_Zopp]. rewrite Z.sub_diag. reflexivity.
Qed.

End StrictRounding.

(** *** The same bounds on [float] *)

Module StrictFacts.
Import Rounding StrictRounding.

Lemma normal_finite (x : float) :
  (0x1p-1022 <=? x) = true -> (x <? infinity) = true ->
  exists mx ex,
    Prim2SF x = S754_finite false mx ex /\ bounded prec emax mx ex = true /\
    (2 ^ 52 <= Zpos mx)%Z.
Proof.
  rewrite leb_spec, ltb_spec. intros Hn Hfin.
  change (Prim2SF 0x1p-1022) with min_normal in Hn.
  change (Prim2SF infinity) with (S754_infinity false) in Hfin.
  pose proof (Prim2SF_valid x) as Hv.
  destruct (Prim2SF x) as [s | s | | s mx ex]; try discriminate.
  - destruct s; discriminate.
  - destruct s; [discriminate|].
    exists mx, ex. split; [reflexivity|]. split; [exact Hv|].
    exact (at_least_min_normal mx ex Hv Hn).
Qed.

Lemma normal_positive (x : float) :
  (0x1p-1022 <=? x) = true -> (0 <? x) = true.
Proof.
  rewrite leb_spec, ltb_spec.
  change (Prim2SF 0x1p-1022) with min_normal.
  change (Prim2SF 0) with (S754_zero false).
  destruct (Prim2SF x) as [s | s | | s mx ex]; try discriminate;
    destruct s; try discriminate; reflexivity.
Qed.

Lemma at_least_eps_positive (p : float) :
  (0x1p-52 <=? p) = true -> (0 <? p) = true.
Proof.
  rewrite leb_spec, ltb_spec.
  change (Prim2SF 0x1p-52) with eps.
  change (Prim2SF 0) with (S754_zero false).
  destruct (Prim2SF p) as [s | s | | s mx ex]; try discriminate;
    destruct s; try discriminate; reflexivity.
Qed.

Lemma at_most_half_max_finite (x : float) :
  (x <=? 0x1p1023) = true -> (x <? infinity) = true.
Proof.
  rewrite leb_spec, ltb_spec.
  change (Prim2SF 0x1p1023) with half_max.
  change (Prim2SF infinity) with (S754_infinity false).
  destruct (Prim2SF x) as [[|] | [|] | | [|] m e]; try discriminate;
    reflexivity.
Qed.

(** A normal positive value times a factor of at most [1 - 2^-52] is
    strictly smaller. *)
Lemma mul_lt_self (x f : float) :
  (0x1p-1022 <=? x) = true -> (x <? infinity) = true ->
  (f <=? 0x1.ffffffffffffep-1) = true ->
  (x * f <? x) = true.
Proof.
  intros Hn Hfin Hf.
  destruct (normal_finite x Hn Hfin) as (mx & ex & Ex & Hb & Hm).
  rewrite leb_spec in Hf.
  change (Prim2SF 0x1.ffffffffffffep-1) with below_one in Hf.
  rewrite ltb_spec, mul_spec, Ex.
  apply SFmul_lt_self; [exact Hb | exact Hm | apply Prim2SF_valid | exact Hf].
Qed.

(** A normal positive value of at most [2^1023] times a factor of at least
    [1 + 2^-52] is strictly larger. *)
Lemma mul_gt_self (x g : float) :
  (0x1p-1022 <=? x) = true -> (x <=? 0x1p1023) = true ->
  (0x1.0000000000001p0 <=? g) = true ->
  (x <? x * g) = true.
Proof.
  intros Hn Hmax Hg.
  pose proof (at_most_half_max_finite x Hmax) as Hfin.
  destruct (normal_finite x Hn Hfin) as (mx & ex & Ex & Hb & Hm).
  rewrite leb_spec in Hg, Hmax. rewrite Ex in Hmax.
  change (Prim2SF 0x1.0000000000001p0) with above_one in Hg.
  change (Prim2SF 0x1p1023) with half_max in Hmax.
  rewrite ltb_spec, mul_spec, Ex.
  apply SFmul_gt_self; auto using Prim2SF_valid.
Qed.

Lemma one_minus_lt (p : float) :
  (0x1p-52 <=? p) = true -> (1 - p <=? 0x1.ffffffffffffep-1) = true.
Proof.
  rewrite !leb_spec, sub_spec. intros H.
  change (Prim2SF 0x1p-52) with eps in H.
  change (Prim2SF 1) with one64.
  change (Prim2SF 0x1.ffffffffffffep-1) with below_one.
  apply SFsub_one_le; [apply Prim2SF_valid | exact H].
Qed.

Lemma one_plus_gt (p : float) :
  (0x1p-52 <=? p) = true -> (0x1.0000000000001p0 <=? 1 + p) = true.
Proof.
  rewrite !leb_spec, add_spec. intros H.
  change (Prim2SF 0x1p-52) with eps in H.
  change (Prim2SF 1) with one64.
  change (Prim2SF 0x1.0000000000001p0) with above_one.
  apply SFadd_one_ge; [apply Prim2SF_valid | exact H].
Qed.

Lemma leb_not_gtb (a b : float) : (a <=? b) = true -> (b <? a) = false.
Proof.
  rewrite leb_spec, ltb_spec. unfold SFleb, SFltb.
  destruct (Prim2SF a), (Prim2SF b); FloatOrder.order_cases.
Qed.

(** Equal to a positive finite value means identical to it. *)
Lemma eqb_positive_finite (y x : float) :
  (0 <? x) = true -> (x <? infinity) = true -> (y =? x) = true -> y = x.
Proof.
  intros Hpos Hfin Heq.
  destruct (FloatFacts.positive_finite x Hpos Hfin) as (m & e & Ex & _).
  rewrite eqb_spec, Ex in Heq. apply SFeqb_finite_pos in Heq.
  apply Prim2SF_inj. congruence.
Qed.

(** A positive finite value minus itself is [+0]. *)
Lemma sub_self (x : float) :
  (0 <? x) = true -> (x <? infinity) = true -> x - x = 0.
Proof.
  intros Hpos Hfin.
  destruct (FloatFacts.positive_finite x Hpos Hfin) as (m & e & Ex & _).
  apply Prim2SF_inj. rewrite sub_spec, Ex, SFsub_self. reflexivity.
Qed.

(** A positive amount divided by zero is plus infinity. *)
Lemma div_zero (r : float) : (0 <? r) = true -> r / 0 = infinity.
Proof.
  intros Hpos. apply Prim2SF_inj. rewrite div_spec.
  rewrite ltb_spec in Hpos. change (Prim2SF 0) with (S754_zero false) in *.
  destruct (positive_cases _ Hpos) as [-> | (m & e & ->)]; reflexivity.
Qed.

(** Read back from a trade set up with a stop-loss percentage of at least
    [2^-52] on a normal, finite entry price, the side is the one the trade
    was set up for. *)
Lemma orderSide_of_setup (entryPrice : float) (params : RiskParams.t)
    (side : Side) :
  (0x1p-1022 <=? entryPrice) = true -> (entryPrice <? infinity) = true ->
  (0x1p-52 <=? RiskParams.stopLossPercentage params) = true ->
  App.orderSide (RiskService.calculateTradeSetup entryPrice params side)
  = side.
Proof.
  intros Hn Hfin Hsl. unfold App.orderSide, RiskService.calculateTradeSetup.
  pose proof (normal_positive _ Hn) as Hpos.
  destruct side; cbn [TradeSetup.entryPrice TradeSetup.stopLoss];
    unfold JS.gtb.
  - rewrite mul_lt_self; [reflexivity | exact Hn | exact Hfin |].
    now apply one_minus_lt.
  - rewrite leb_not_gtb; [reflexivity|].
    apply FloatFacts.mul_ge_self; [exact Hpos | exact Hfin |].
    apply FloatFacts.one_plus_ge. now apply at_least_eps_positive.
Qed.

End StrictFacts.

(** For a normal entry price of at most [2^1023] and stop-loss and
    take-profit percentages of at least [2^-52], the levels lie strictly
    around the entry: for BUY the stop is below and the target above, for
    SELL the target is below and the stop above. *)
Theorem calculateTradeSetup_levels_strict (entryPrice : float)
    (params : RiskParams.t) (side : Side) :
  (0x1p-1022 <=? entryPrice) = true -> (entryPrice <=? 0x1p1023) = true ->
  (0x1p-52 <=? RiskParams.stopLossPercentage params) = true ->
  (0x1p-52 <=? RiskParams.takeProfitPercentage params) = true ->
  let t := RiskService.calculateTradeSetup entryPrice params side in
  match side with
  | SideBUY =>
      (TradeSetup.stopLoss t <? entryPrice) = true /\
      (entryPrice <? TradeSetup.takeProfit t) = true
  | SideSELL =>
      (TradeSetup.takeProfit t <? entryPrice) = true /\
      (entryPrice <? TradeSetup.stopLoss t) = true
  end.
Proof.
  intros Hn Hmax Hsl Htp. cbv zeta.
  pose proof (StrictFacts.at_most_half_max_finite _ Hmax) as Hfin.
  unfold RiskService.calculateTradeSetup.
  destruct side; cbn [TradeSetup.stopLoss TradeSetup.takeProfit]; split;
    first [ apply StrictFacts.mul_lt_self;
            [exact Hn | exact Hfin | now apply StrictFacts.one_minus_lt]
          | apply StrictFacts.mul_gt_self;
            [exact Hn | exact Hmax | now apply StrictFacts.one_plus_gt] ].
Qed.

Lemma calculateTradeSetup_levels_strict_witness :
  let params :=
    {| RiskParams.accountBalance := 1000;
       RiskParams.riskPerTradePercentage := 0.02;
       RiskParams.stopLossPercentage := 0.015;
       RiskParams.takeProfitPercentage := 0.045 |} in
  let t := RiskService.calculateTradeSetup 612.4 params SideSELL in
  (TradeSetup.takeProfit t <? 612.4) = true /\
  (612.4 <? TradeSetup.stopLoss t) = true.
Proof.
  cbv zeta.
  apply (calculateTradeSetup_levels_strict 612.4
           {| RiskParams.accountBalance := 1000;
              RiskParams.riskPerTradePercentage := 0.02;
              RiskParams.stopLossPercentage := 0.015;
              RiskParams.takeProfitPercentage := 0.045 |} SideSELL);
    reflexivity.
Defined.

(** Whenever the computed stop equals a positive finite entry price (a
    stop-loss percentage of zero, or one so small that rounding absorbs it)
    and the risk amount is positive, the division by the zero distance is
    not guarded: the position size is plus infinity. *)
Theorem calculateTradeSetup_zero_distance (entryPrice : float)
    (params : RiskParams.t) (side : Side) :
  let t := RiskService.calculateTradeSetup entryPrice params side in
  (0 <? entryPrice) = true -> (entryPrice <? infinity) = true ->
  (TradeSetup.stopLoss t =? entryPrice) = true ->
  (0 <? TradeSetup.riskAmount t) = true ->
  TradeSetup.positionSize t = infinity.
Proof.
  cbv zeta. intros Hpos Hfin Heq Hrisk.
  apply StrictFacts.eqb_positive_finite in Heq; [|exact Hpos | exact Hfin].
  unfold RiskService.calculateTradeSetup in *.
  destruct side; cbn [TradeSetup.stopLoss TradeSetup.positionSize
                      TradeSetup.riskAmount] in *;
    rewrite Heq, StrictFacts.sub_self by assumption;
    change (abs 0) with 0; now apply StrictFacts.div_zero.
Qed.

Lemma calculateTradeSetup_zero_distance_witness :
  let params :=
    {| RiskParams.accountBalance := 1000;
       RiskParams.riskPerTradePercentage := 0.02;
       RiskParams.stopLossPercentage := 0;
       RiskParams.takeProfitPercentage := 0.045 |} in
  TradeSetup.positionSize
    (RiskService.calculateTradeSetup 100 params SideBUY) = infinity.
Proof.
  cbv zeta.
  apply (calculateTradeSetup_zero_distance 100
           {| RiskParams.accountBalance := 1000;
              RiskParams.riskPerTradePercentage := 0.02;
              RiskParams.stopLossPercentage := 0;
              RiskParams.takeProfitPercentage := 0.045 |} SideBUY);
    reflexivity.
Defined.

(** The order that "Confirmar Orden" places for the trade proposed on a
    freshly recorded signal, priced at a normal finite value, of the
    timeframe that the recording [processCandles] closure captured
    ([App.activeInterval env]; for the websocket callbacks the chart's
    interval when [init] subscribed, which need not be the one on display):
    a MARKET order without a price, on the side of the signal. *)
Theorem executed_order_matches_signal (toFixed : float -> Z -> string)
    (env : App.Env) (interval apiKey symbol : string) (signal : Signal.t)
    (st : App.State) :
  App.isDuplicate (App.signals st) interval signal = false ->
  interval = App.activeInterval env ->
  (0x1p-1022 <=? Signal.price signal) = true ->
  (Signal.price signal <? infinity) = true ->
  JS.truthy_string apiKey = true ->
  exists order,
    App.handleExecuteTrade toFixed apiKey symbol
      (App.activeTrade (App.recordSignal env interval signal st))
    = Some order /\
    OrderRequest.side order =
      (if SignalType_eqb (Signal.type signal) BUY
       then SideBUY else SideSELL) /\
    OrderRequest.type order = MARKET /\
    OrderRequest.price order = None.
Proof.
  intros Hfresh -> Hn Hfin Hkey.
  unfold App.recordSignal. rewrite Hfresh. cbn [App.activeTrade].
  rewrite String.eqb_refl. unfold App.handleExecuteTrade. rewrite Hkey.
  cbn [negb]. eexists. split; [reflexivity|].
  unfold BinanceService.placeOrder.
  cbn [OrderRequest.side OrderRequest.type OrderRequest.price].
  split; [|split; reflexivity].
  apply StrictFacts.orderSide_of_setup;
    [exact Hn | exact Hfin | reflexivity].
Qed.

Lemma executed_order_matches_signal_witness :
  exists order,
    App.handleExecuteTrade (fun _ _ => "13.3333"%string) "key"%string
      "BNBUSDT"%string
      (App.activeTrade
         (App.recordSignal Session.env "1h"%string Session.buyAt5940000
            App.initial))
    = Some order /\
    OrderRequest.side order = SideBUY /\
    OrderRequest.type order = MARKET /\
    OrderRequest.price order = None.
Proof.
  apply (executed_order_matches_signal (fun _ _ => "13.3333"%string)
           Session.env "1h"%string "key"%string "BNBUSDT"%string
           Session.buyAt5940000 App.initial); reflexivity.
Defined.

(* ================================================================== *)
(** ** The Fibonacci range and the trend readings *)
(* ================================================================== *)

Module RangeFacts.

Lemma leb_number_r (a b : float) :
  (a <=? b) = true -> PrimFloat.is_nan b = false.
Proof.
  rewrite leb_spec, FloatOrder.is_nan_number. unfold SFleb.
  destruct (Prim2SF a), (Prim2SF b); cbn; congruence.
Qed.

(** Comparing with a zero of either sign is comparing with [+0]. *)
Lemma ltb_zero (e x : float) : (x =? 0) = true -> (e <? x) = (e <? 0).
Proof.
  rewrite eqb_spec, !ltb_spec. change (Prim2SF 0) with (S754_zero false).
  unfold SFeqb, SFltb.
  destruct (Prim2SF x) as [[|] | [|] | | [|] m' e']; try discriminate;
    intros _; destruct (Prim2SF e) as [[|] | [|] | | [|] m e0]; reflexivity.
Qed.

Lemma truthy_or_default (x d : float) :
  JS.truthy x = true -> JS.or_default (Some x) d = x.
Proof. intros H. unfold JS.or_default. now rewrite H. Qed.

End RangeFacts.

(** As soon as one candle of the window has its low at or below its high,
    the 100% level is at or below the 0% level: the range that the inner
    levels divide is not inverted. *)
Theorem fibonacci_range_not_inverted (candles : list Candle.t)
    (c : Candle.t) (f : FibonacciLevels.t) :
  In c candles -> (Candle.low c <=? Candle.high c) = true ->
  IndicatorService.calculateFibonacciLevels candles = Some f ->
  (FibonacciLevels.r1 f <=? FibonacciLevels.r0 f) = true.
Proof.
  intros Hin Hc Hf.
  assert (Hrange : FibonacciLevels.r0 f =
                     FibFacts.runMax (map Candle.high candles) neg_infinity /\
                   FibonacciLevels.r1 f =
                     FibFacts.runMin (map Candle.low candles) infinity).
  { unfold IndicatorService.calculateFibonacciLevels in Hf.
    rewrite FibFacts.extremes_split in Hf.
    destruct candles; [discriminate Hf|]. injection Hf as <-. now split. }
  destruct Hrange as [-> ->].
  apply FloatOrder.leb_trans with (b := Candle.low c).
  - apply FibFacts.runMin_below_each;
      [reflexivity | now apply in_map
      | exact (FloatOrder.leb_number_l _ _ Hc)].
  - apply FloatOrder.leb_trans with (b := Candle.high c); [exact Hc|].
    apply FibFacts.runMax_above_each;
      [reflexivity | now apply in_map
      | exact (RangeFacts.leb_number_r _ _ Hc)].
Qed.

Lemma fibonacci_range_not_inverted_witness :
  let candles :=
    [Examples.candle 0 200 100 150 1; Examples.candle 60000 210 120 180 1] in
  exists f,
    IndicatorService.calculateFibonacciLevels candles = Some f /\
    (FibonacciLevels.r1 f <=? FibonacciLevels.r0 f) = true.
Proof.
  cbv zeta. eexists. split; [reflexivity|].
  apply (fibonacci_range_not_inverted
           [Examples.candle 0 200 100 150 1;
            Examples.candle 60000 210 120 180 1]
           (Examples.candle 0 200 100 150 1));
    [now left | reflexivity | reflexivity].
Defined.

(** The Fibonacci panel and the chart's reference lines are there exactly
    when the displayed window has at least 100 candles, and then they show
    the levels of its last 100 candles, the ones [checkSignals] compares the
    price with. *)
Theorem fibLevels_shown_iff (activeData : TimeframeState.t) :
  let candles := TimeframeState.candles activeData in
  (App.fibLevels activeData <> None <-> (100 <= JS.len candles)%Z) /\
  ((100 <= JS.len candles)%Z ->
   App.fibLevels activeData =
   IndicatorService.calculateFibonacciLevels (JS.slice_last 100 candles)).
Proof.
  cbv zeta. unfold App.fibLevels.
  destruct (JS.len (TimeframeState.candles activeData) <? 100)%Z eqn:E.
  - apply Z.ltb_lt in E. split; [|lia].
    split; [intros H; now contradiction H | lia].
  - apply Z.ltb_ge in E. split; [|reflexivity].
    split; [intros _; exact E|]. intros _.
    unfold IndicatorService.calculateFibonacciLevels.
    destruct (JS.slice_last 100 (TimeframeState.candles activeData))
      as [|c cs] eqn:Es.
    + apply (f_equal (@List.length _)) in Es.
      unfold JS.len in E.
      rewrite RecentData.slice_last_len in Es by lia. discriminate Es.
    + destruct (IndicatorService.extremes (c :: cs)). discriminate.
Qed.

(** The strategy, the trend badge and the market data sent to the model all
    derive the trend from the last close and the last EMA 99.  When that EMA
    is a usable number and the close is not NaN, the three agree. *)
Theorem trend_readings_agree (activeData : TimeframeState.t)
    (last : Candle.t) (cur : IndicatorData.t) (e99 : float) :
  let candles := TimeframeState.candles activeData in
  let indicators := TimeframeState.indicators activeData in
  JS.index candles (JS.len candles - 1) = Some last ->
  JS.index indicators (JS.len indicators - 1) = Some cur ->
  IndicatorData.ema99 cur = Some e99 -> JS.truthy e99 = true ->
  PrimFloat.is_nan (Candle.close last) = false ->
  App.trendBadgeUp activeData =
    StrategyService.isUpTrend (Candle.close last) cur /\
  App.aiTrend cur last =
    (if StrategyService.isUpTrend (Candle.close last) cur
     then "ALCISTA" else "BAJISTA")%string.
Proof.
  cbv zeta. intros Hlast Hcur He Ht Hn.
  unfold App.trendBadgeUp, App.currentPrice, App.aiTrend,
    StrategyService.isUpTrend.
  rewrite Hlast, Hcur, He, Ht. cbn [option_map JS.non_null].
  rewrite (RangeFacts.truthy_or_default e99 0 Ht).
  unfold JS.gtb. split; [|reflexivity].
  unfold JS.or_default, JS.truthy. rewrite Hn. cbn [negb andb].
  rewrite andb_true_r.
  destruct (Candle.close last =? 0) eqn:E; cbn [negb]; [|reflexivity].
  symmetry. now apply RangeFacts.ltb_zero.
Qed.

Lemma trend_readings_agree_witness :
  let activeData :=
    {| TimeframeState.candles := Examples.window;
       TimeframeState.indicators :=
         [Examples.prevWithoutEma; Examples.curBullish];
       TimeframeState.lastSignal := None |} in
  let last := Examples.candle 5940000 200 100 150 10 in
  App.trendBadgeUp activeData =
    StrategyService.isUpTrend (Candle.close last) Examples.curBullish /\
  App.aiTrend Examples.curBullish last =
    (if StrategyService.isUpTrend (Candle.close last) Examples.curBullish
     then "ALCISTA" else "BAJISTA")%string.
Proof.
  cbv zeta.
  apply (trend_readings_agree
           {| TimeframeState.candles := Examples.window;
              TimeframeState.indicators :=
                [Examples.prevWithoutEma; Examples.curBullish];
              TimeframeState.lastSignal := None |}
           (Examples.candle 5940000 200 100 150 10) Examples.curBullish 100);
    reflexivity.
Defined.

(* ================================================================== *)
(** ** Settings: what is loaded whatever is stored *)
(* ================================================================== *)

Module SettingsFacts.

Lemma lookup_app (k : string) (a b : Json.obj) :
  Json.lookup k (a ++ b) =
  match Json.lookup k a with
  | Some v => Some v
  | None => Json.lookup k b
  end.
Proof.
  induction a as [|[k' v] a IH]; cbn; [reflexivity|].
  destruct (String.eqb k k'); [reflexivity | exact IH].
Qed.

(** A key of the loaded settings holds the stored value when the stored
    text parses to something that has the key, the default otherwise. *)
Lemma loadSettings_lookup (parse : string -> option Json.t)
    (storage : SettingsService.Storage) (k : string) :
  Json.lookup k (SettingsService.loadSettings parse storage) =
  match SettingsService.getItem storage SettingsService.STORAGE_KEY with
  | Some saved =>
      match parse saved with
      | Some v =>
          if JS.truthy_string saved then
            match Json.lookup k (Json.ownProps v) with
            | Some x => Some x
            | None => Json.lookup k SettingsService.defaultSettings
            end
          else Json.lookup k SettingsService.defaultSettings
      | None => Json.lookup k SettingsService.defaultSettings
      end
  | None => Json.lookup k SettingsService.defaultSettings
  end.
Proof.
  unfold SettingsService.loadSettings.
  destruct (SettingsService.getItem storage SettingsService.STORAGE_KEY)
    as [saved|]; [|reflexivity].
  destruct (JS.truthy_string saved), (parse saved) as [v|];
    try reflexivity.
  unfold Json.spread. apply lookup_app.
Qed.

End SettingsFacts.

(** Whatever the storage holds (nothing, an empty string, text that does
    not parse, or JSON of any shape), every setting that has a default is
    present in what [loadSettings] returns, with the default value or with a
    value that was stored under its key. *)
Theorem loadSettings_always_complete (parse : string -> option Json.t)
    (storage : SettingsService.Storage) (k : string) (d : Json.t) :
  Json.lookup k SettingsService.defaultSettings = Some d ->
  exists v,
    Json.lookup k (SettingsService.loadSettings parse storage) = Some v /\
    (v = d \/
     exists saved parsed,
       SettingsService.getItem storage SettingsService.STORAGE_KEY
         = Some saved /\
       parse saved = Some parsed /\
       Json.lookup k (Json.ownProps parsed) = Some v).
Proof.
  intros Hd. rewrite SettingsFacts.loadSettings_lookup.
  destruct (SettingsService.getItem storage SettingsService.STORAGE_KEY)
    as [saved|]; [|exists d; auto].
  destruct (parse saved) as [parsed|] eqn:Ep; [|exists d; auto].
  destruct (JS.truthy_string saved); [|exists d; auto].
  destruct (Json.lookup k (Json.ownProps parsed)) as [x|] eqn:Ex;
    [|exists d; auto].
  exists x. split; [reflexivity|]. right. now exists saved, parsed.
Qed.

Lemma loadSettings_always_complete_witness :
  let parse := fun _ : string =>
    Some (Json.Array [Json.Number 1; Json.Number 2]) in
  let storage := fun _ : string => Some "[1,2]"%string in
  exists v,
    Json.lookup "riskPerTrade" (SettingsService.loadSettings parse storage)
      = Some v /\
    (v = Json.Number 0.02 \/
     exists saved parsed,
       SettingsService.getItem storage SettingsService.STORAGE_KEY
         = Some saved /\
       parse saved = Some parsed /\
       Json.lookup "riskPerTrade" (Json.ownProps parsed) = Some v).
Proof.
  cbv zeta. apply loadSettings_always_complete. reflexivity.
Defined.

(** Saving and loading round-trip: provided [JSON.parse] gives back the
    object that [JSON.stringify] wrote, every key of the saved settings is
    loaded with the saved value, and a key that was not saved is loaded with
    its default. *)
Theorem saveSettings_then_loadSettings (parse : string -> option Json.t)
    (stringify : Json.t -> string) (settings : Json.obj)
    (storage : SettingsService.Storage) (k : string) :
  JS.truthy_string (stringify (Json.Object settings)) = true ->
  parse (stringify (Json.Object settings)) = Some (Json.Object settings) ->
  Json.lookup k
    (SettingsService.loadSettings parse
       (SettingsService.saveSettings stringify settings storage)) =
  match Json.lookup k settings with
  | Some v => Some v
  | None => Json.lookup k SettingsService.defaultSettings
  end.
Proof.
  intros Ht Hp. rewrite SettingsFacts.loadSettings_lookup.
  unfold SettingsService.saveSettings, SettingsService.getItem,
    SettingsService.setItem.
  rewrite String.eqb_refl, Hp, Ht. reflexivity.
Qed.

Lemma saveSettings_then_loadSettings_witness :
  let settings :=
    [("apiKey", Json.Str "k"); ("riskPerTrade", Json.Number 0.05)]%string in
  let stringify := fun _ : Json.t =>
    "{'apiKey':'k','riskPerTrade':0.05}"%string in
  let parse := fun _ : string => Some (Json.Object settings) in
  Json.lookup "riskPerTrade"
    (SettingsService.loadSettings parse
       (SettingsService.saveSettings stringify settings (fun _ => None))) =
  Some (Json.Number 0.05).
Proof.
  cbv zeta.
  apply (saveSettings_then_loadSettings
           (fun _ => Some (Json.Object
              [("apiKey", Json.Str "k");
               ("riskPerTrade", Json.Number 0.05)]%string))
           (fun _ => "{'apiKey':'k','riskPerTrade':0.05}"%string)
           [("apiKey", Json.Str "k");
            ("riskPerTrade", Json.Number 0.05)]%string
           (fun _ => None) "riskPerTrade"%string); reflexivity.
Defined.

(* ================================================================== *)
(** ** The model's answer: which text reaches [JSON.parse] *)
(* ================================================================== *)

Module AnswerFacts.
Import AiService.
Local Open Scope string_scope.

(** No character of [s] satisfies [p]. *)
Fixpoint lacks (p : ascii -> bool) (s : string) : bool :=
  match s with
  | EmptyString => true
  | String c rest => negb (p c) && lacks p rest
  end.

Lemma throughLastClose_lacks (s : string) :
  lacks isClose s = true -> throughLastClose s = None.
Proof.
  induction s as [|c s IH]; cbn; [reflexivity|].
  intros H. apply andb_true_iff in H. destruct H as [Hc Hs].
  rewrite (IH Hs). apply negb_true_iff in Hc. now rewrite Hc.
Qed.

Lemma throughLastClose_body (body post : string) :
  lacks isClose post = true ->
  throughLastClose (body ++ "}" ++ post) = Some (body ++ "}").
Proof.
  intros Hp. induction body as [|c body IH]; cbn.
  - now rewrite (throughLastClose_lacks post Hp).
  - cbn in IH. now rewrite IH.
Qed.

Lemma matchJson_skip (pre rest : string) :
  lacks isOpen pre = true -> matchJson (pre ++ rest) = matchJson rest.
Proof.
  induction pre as [|c pre IH]; cbn; [reflexivity|].
  intros H. apply andb_true_iff in H. destruct H as [Hc Hs].
  apply negb_true_iff in Hc. rewrite Hc. exact (IH Hs).
Qed.

Lemma matchJson_open (rest : string) :
  matchJson (String "{" rest) =
  match throughLastClose rest with
  | Some r => Some (String "{" r)
  | None => matchJson rest
  end.
Proof. reflexivity. Qed.

(** The match is the opening brace of the answer's only object through its
    closing brace. *)
Lemma matchJson_object (pre body post : string) :
  lacks isOpen pre = true -> lacks isClose post = true ->
  matchJson (pre ++ "{" ++ body ++ "}" ++ post) = Some ("{" ++ body ++ "}").
Proof.
  intros Hpre Hpost. rewrite (matchJson_skip _ _ Hpre).
  change ("{" ++ body ++ "}" ++ post) with (String "{" (body ++ "}" ++ post)).
  rewrite matchJson_open, (throughLastClose_body body post Hpost).
  reflexivity.
Qed.

Lemma append_assoc (a b c : string) : (a ++ b) ++ c = a ++ b ++ c.
Proof. induction a as [|x a IH]; cbn; [reflexivity | now rewrite IH]. Qed.

(** Whatever [throughLastClose] returns is a prefix that ends with a
    closing brace. *)
Lemma throughLastClose_some (s r : string) :
  throughLastClose s = Some r ->
  exists b c, r = b ++ "}" /\ s = r ++ c.
Proof.
  revert r. induction s as [|c0 s IH]; intros r; cbn; [discriminate|].
  destruct (throughLastClose s) as [r'|] eqn:E.
  - intros H. injection H as <-.
    destruct (IH r' eq_refl) as (b & c & -> & ->).
    exists (String c0 b), c. split; reflexivity.
  - destruct (isClose c0) eqn:Ec; [|discriminate].
    intros H. injection H as <-.
    apply Ascii.eqb_eq in Ec. subst c0.
    exists EmptyString, s. split; reflexivity.
Qed.

Lemma throughLastClose_found (b c : string) :
  throughLastClose (b ++ "}" ++ c) <> None.
Proof.
  induction b as [|c0 b IH].
  - change (EmptyString ++ "}" ++ c) with (String "}" c).
    cbn [throughLastClose]. destruct (throughLastClose c); [discriminate|].
    change (isClose "}") with true. discriminate.
  - change (String c0 b ++ "}" ++ c) with (String c0 (b ++ "}" ++ c)).
    cbn [throughLastClose].
    destruct (throughLastClose (b ++ "}" ++ c));
      [discriminate | now contradiction IH].
Qed.

Lemma matchJson_some (text r : string) :
  matchJson text = Some r ->
  exists a b c, text = a ++ "{" ++ b ++ "}" ++ c.
Proof.
  revert r. induction text as [|c0 text IH]; intros r; cbn; [discriminate|].
  destruct (isOpen c0) eqn:Eo.
  - destruct (throughLastClose text) as [r'|] eqn:E.
    + intros _. apply Ascii.eqb_eq in Eo. subst c0.
      destruct (throughLastClose_some text r' E) as (b & c & -> & ->).
      exists EmptyString, b, c.
      change (EmptyString ++ "{" ++ b ++ "}" ++ c)
        with (String "{" (b ++ "}" ++ c)).
      f_equal. now rewrite append_assoc.
    + intros H. destruct (IH r H) as (a & b & c & ->).
      now exists (String c0 a), b, c.
  - intros H. destruct (IH r H) as (a & b & c & ->).
    now exists (String c0 a), b, c.
Qed.

Lemma matchJson_found (a b c : string) :
  matchJson (a ++ "{" ++ b ++ "}" ++ c) <> None.
Proof.
  induction a as [|c0 a IH].
  - change (EmptyString ++ "{" ++ b ++ "}" ++ c)
      with (String "{" (b ++ "}" ++ c)).
    rewrite matchJson_open.
    pose proof (throughLastClose_found b c) as H.
    destruct (throughLastClose (b ++ "}" ++ c));
      [discriminate | now contradiction H].
  - change (String c0 a ++ "{" ++ b ++ "}" ++ c)
      with (String c0 (a ++ "{" ++ b ++ "}" ++ c)).
    cbn [matchJson]. destruct (isOpen c0); [|exact IH].
    destruct (throughLastClose _); [discriminate | exact IH].
Qed.

End AnswerFacts.

(** Text before the opening brace and after the closing brace of the
    model's answer is ignored: when nothing before the object contains an
    opening brace and nothing after it a closing one, [JSON.parse] receives
    exactly the object, and the result is that of the bare object. *)
Theorem readAnswer_ignores_surrounding_text
    (parse : string -> option Json.t) (pre body post : string) (now : Z) :
  AnswerFacts.lacks AiService.isOpen pre = true ->
  AnswerFacts.lacks AiService.isClose post = true ->
  AiService.matchJson (pre ++ "{" ++ body ++ "}" ++ post)%string =
    Some ("{" ++ body ++ "}")%string /\
  AiService.readAnswer parse (pre ++ "{" ++ body ++ "}" ++ post)%string now =
  AiService.readAnswer parse ("{" ++ body ++ "}")%string now.
Proof.
  intros Hpre Hpost.
  pose proof (AnswerFacts.matchJson_object pre body post Hpre Hpost) as H1.
  pose proof (AnswerFacts.matchJson_object EmptyString body EmptyString
                eq_refl eq_refl) as H2.
  change (EmptyString ++ "{" ++ body ++ "}" ++ EmptyString)%string
    with ("{" ++ body ++ "}")%string in H2.
  split; [exact H1|].
  unfold AiService.readAnswer. rewrite H1, H2. reflexivity.
Qed.

Lemma readAnswer_ignores_surrounding_text_witness :
  let parse := fun _ : string =>
    Some (Json.Object [("confidence", Json.Number 80)]%string) in
  let text := "Here is the analysis: {'confidence':80} Good luck."%string in
  AiService.matchJson text = Some "{'confidence':80}"%string /\
  AiService.readAnswer parse text 7 =
  AiService.readAnswer parse "{'confidence':80}"%string 7.
Proof.
  cbv zeta.
  apply (readAnswer_ignores_surrounding_text _ "Here is the analysis: "
           "'confidence':80" " Good luck." 7); reflexivity.
Defined.

(** The answer is rejected as badly formatted exactly when it holds no
    opening brace with a closing brace somewhere after it. *)
Theorem readAnswer_invalid_format_iff (parse : string -> option Json.t)
    (text : string) (now : Z) :
  AiService.readAnswer parse text now = inr AiService.InvalidFormat <->
  ~ exists a b c, text = (a ++ "{" ++ b ++ "}" ++ c)%string.
Proof.
  unfold AiService.readAnswer.
  destruct (AiService.matchJson text) as [json|] eqn:E.
  - split.
    + intros H. exfalso.
      destruct (parse json) as [parsed|]; [|discriminate H].
      destruct (AiService.field parsed "analysis") as [a|],
        (AiService.field parsed "sentiment") as [s|],
        (AiService.field parsed "confidence") as [c|]; discriminate H.
    + intros H. exfalso. apply H.
      exact (AnswerFacts.matchJson_some text json E).
  - split; [|reflexivity]. intros _ (a & b & c & ->).
    exact (AnswerFacts.matchJson_found a b c E).
Qed.

(* ================================================================== *)
(** ** The history load and the chart *)
(* ================================================================== *)

(** After the history load each of the five timeframes holds the candles
    fetched for it, the snapshots derived from them and no last signal. *)
Theorem init_loads_every_interval (TI : TechnicalIndicators)
    (fetch : string -> list Candle.t) (st : App.State)
    (interval : string) :
  In interval App.INTERVALS ->
  App.timeframes (App.init fetch st) interval =
    {| TimeframeState.candles := fetch interval;
       TimeframeState.indicators :=
         IndicatorService.calculateIndicators (fetch interval);
       TimeframeState.lastSignal := None |}.
Proof.
  unfold App.INTERVALS. cbn [In].
  intros [<- | [<- | [<- | [<- | [<- | []]]]]]; reflexivity.
Qed.

Lemma init_loads_every_interval_witness :
  App.timeframes
    (App.init (TI := Scripted.bullish) (fun _ => Examples.window)
       App.initial) "4h"%string =
    {| TimeframeState.candles := Examples.window;
       TimeframeState.indicators :=
         IndicatorService.calculateIndicators (TI := Scripted.bullish)
           Examples.window;
       TimeframeState.lastSignal := None |}.
Proof.
  apply (init_loads_every_interval Scripted.bullish
           (fun _ => Examples.window) App.initial "4h"%string).
  cbn. tauto.
Defined.

(** Every point of the chart shows one candle together with the snapshot of
    that same candle: when the stored snapshots are those of the stored
    candles (as they are in every state the callbacks reach), point [j]
    carries the close and the volume of candle [i] and the three EMAs of
    snapshot [i], whose time is the candle's, where [i] counts [j] from the
    start of the last 100 candles. *)
Theorem chartData_pairs_candle_and_snapshot (TI : TechnicalIndicators)
    (format : Z -> string -> string) (activeInterval : string)
    (activeData : TimeframeState.t) (j : nat) (p : App.ChartPoint) :
  let candles := TimeframeState.candles activeData in
  let indicators := TimeframeState.indicators activeData in
  indicators = IndicatorService.calculateIndicators candles ->
  nth_error (App.chartData format activeInterval activeData) j = Some p ->
  let i := (List.length candles - 100 + j)%nat in
  exists c s,
    nth_error candles i = Some c /\ nth_error indicators i = Some s /\
    IndicatorData.time s = Candle.time c /\
    App.chartPrice p = Candle.close c /\
    App.chartVolume p = Candle.volume c /\
    App.chartEma7 p = IndicatorData.ema7 s /\
    App.chartEma25 p = IndicatorData.ema25 s /\
    App.chartEma99 p = IndicatorData.ema99 s.
Proof.
  cbv zeta. intros Hinv Hp.
  unfold App.chartData, JS.slice_last in Hp.
  rewrite nth_error_skipn in Hp. unfold JS.mapi in Hp.
  rewrite PipelineFacts.mapi_from_length in Hp.
  rewrite PipelineFacts.mapi_from_nth in Hp. cbn [Nat.add] in Hp.
  destruct (nth_error (TimeframeState.candles activeData)
              (List.length (TimeframeState.candles activeData) - 100 + j))
    as [c|] eqn:Hc; [|discriminate Hp].
  cbn [option_map] in Hp. injection Hp as <-.
  pose proof (PipelineFacts.calculateIndicators_nth _ _ c Hc) as Hs.
  cbv zeta in Hs. rewrite <- Hinv in Hs.
  eexists c, _. split; [reflexivity|]. split; [exact Hs|].
  unfold App.fieldAt. rewrite Hs.
  cbn [App.chartPrice App.chartVolume App.chartEma7 App.chartEma25
       App.chartEma99].
  repeat split; reflexivity.
Qed.

Lemma chartData_pairs_candle_and_snapshot_witness :
  let candles :=
    [Examples.candle 0 200 100 150 1; Examples.candle 60000 210 120 180 2] in
  let activeData :=
    {| TimeframeState.candles := candles;
       TimeframeState.indicators :=
         IndicatorService.calculateIndicators (TI := Scripted.bullish)
           candles;
       TimeframeState.lastSignal := None |} in
  exists c s,
    nth_error candles 1 = Some c /\
    nth_error (TimeframeState.indicators activeData) 1 = Some s /\
    IndicatorData.time s = Candle.time c /\
    180 = Candle.close c /\ 2 = Candle.volume c /\
    None = IndicatorData.ema7 s /\ None = IndicatorData.ema25 s /\
    None = IndicatorData.ema99 s.
Proof.
  cbv zeta.
  apply (chartData_pairs_candle_and_snapshot Scripted.bullish
           (fun _ _ => "00:01"%string) "1h"%string
           {| TimeframeState.candles :=
                [Examples.candle 0 200 100 150 1;
                 Examples.candle 60000 210 120 180 2];
              TimeframeState.indicators :=
                IndicatorService.calculateIndicators (TI := Scripted.bullish)
                  [Examples.candle 0 200 100 150 1;
                   Examples.candle 60000 210 120 180 2];
              TimeframeState.lastSignal := None |}
           1%nat
           {| App.chartTime := "00:01"; App.chartPrice := 180;
              App.chartVolume := 2; App.chartEma7 := None;
              App.chartEma25 := None; App.chartEma99 := None |});
    reflexivity.
Defined.

(* ================================================================== *)
(** ** The feed, the log and the proposed trade as one record *)
(* ================================================================== *)

Module LogFacts.

(** The feed entry that [recordSignal] writes beside an alert. *)
Definition asSignal (a : AlertHistoryItem.t) : Signal.t :=
  {| Signal.type := AlertHistoryItem.type a;
     Signal.price := AlertHistoryItem.price a;
     Signal.time := AlertHistoryItem.timestamp a;
     Signal.reason :=
       ("[" ++ AlertHistoryItem.interval a ++ "] "
        ++ AlertHistoryItem.reason a)%string |}.

(** The feed, newest first, is the head of the log. *)
Definition mirrors (st : App.State) : Prop :=
  rev (App.signals st) = firstn 20 (map asSignal (App.alertHistory st)).

(** A trade proposed by [recordSignal] under [env]. *)
Definition proposed (env : App.Env) (t : TradeSetup.t) : Prop :=
  exists price side,
    t = RiskService.calculateTradeSetup price
          {| RiskParams.accountBalance := App.accountBalance env;
             RiskParams.riskPerTradePercentage := App.riskPerTrade env;
             RiskParams.stopLossPercentage := 0.015;
             RiskParams.takeProfitPercentage := 0.045 |} side.

Definition tradeOk (env : App.Env) (st : App.State) : Prop :=
  match App.activeTrade st with
  | Some t => proposed env t
  | None => True
  end.

Lemma firstn_firstn_map {A B : Type} (f : A -> B) (n m : nat) (l : list A) :
  (n <= m)%nat -> firstn n (map f (firstn m l)) = firstn n (map f l).
Proof.
  intros H. rewrite <- !firstn_map, firstn_firstn.
  now rewrite Nat.min_l by exact H.
Qed.

Lemma recordSignal_mirrors (env : App.Env) (interval : string)
    (signal : Signal.t) (st : App.State) :
  mirrors st -> mirrors (App.recordSignal env interval signal st).
Proof.
  unfold mirrors, App.recordSignal. intros H.
  destruct (App.isDuplicate (App.signals st) interval signal); [exact H|].
  cbn [App.signals App.alertHistory].
  unfold JS.slice_last, JS.slice_first.
  rewrite <- firstn_rev, rev_app_distr. cbn [rev app].
  rewrite H, !firstn_cons, map_cons, firstn_cons.
  unfold asSignal at 3. cbn [AlertHistoryItem.type AlertHistoryItem.price
    AlertHistoryItem.timestamp AlertHistoryItem.interval
    AlertHistoryItem.reason].
  f_equal. rewrite firstn_firstn.
  rewrite (firstn_firstn_map asSignal 19 49) by lia.
  reflexivity.
Qed.

Lemma recordSignal_tradeOk (env : App.Env) (interval : string)
    (signal : Signal.t) (st : App.State) :
  tradeOk env st -> tradeOk env (App.recordSignal env interval signal st).
Proof.
  unfold tradeOk, App.recordSignal. intros H.
  destruct (App.isDuplicate (App.signals st) interval signal); [exact H|].
  cbn [App.activeTrade].
  destruct (String.eqb interval (App.activeInterval env)); [|exact H].
  unfold proposed. eauto.
Qed.

End LogFacts.

(** In every state reached from the empty session by websocket events, the
    signal feed is the alert log's 20 most recent entries, oldest first,
    each with the same type, price and time as its alert and with the reason
    prefixed by the bracketed timeframe. *)
Theorem feed_mirrors_alert_log (TI : TechnicalIndicators) (env : App.Env)
    (events : list (string * Candle.t)) :
  let st := runCallbacks env events App.initial in
  rev (App.signals st) =
  firstn 20 (map LogFacts.asSignal (App.alertHistory st)).
Proof.
  cbv zeta. change (LogFacts.mirrors (runCallbacks env events App.initial)).
  assert (H0 : LogFacts.mirrors App.initial) by reflexivity.
  revert H0. generalize App.initial. unfold runCallbacks.
  induction events as [|[i c] events IH]; intros st Hst; [exact Hst|].
  cbn [fold_left fst snd]. apply IH.
  destruct (onCandle_feed env i c st) as (Es & Ea & _).
  unfold LogFacts.mirrors in *. rewrite Es, Ea.
  destruct (isSignal (detected i c st)); [|exact Hst].
  now apply LogFacts.recordSignal_mirrors.
Qed.

(** In every state reached from the empty session by the websocket events
    of one subscription, the active trade, when there is one, is a set-up
    computed by [calculateTradeSetup] with a stop-loss of 1.5% and a
    take-profit of 4.5% from the balance and the risk per trade that the
    callbacks' [processCandles] closure captured at subscription
    ([App.accountBalance env], [App.riskPerTrade env]; on mount the 1000
    fallback and the stored setting), which need not be the balance shown
    or the setting in force when the signal arrives. *)
Theorem activeTrade_is_a_setup (TI : TechnicalIndicators) (env : App.Env)
    (events : list (string * Candle.t)) :
  match App.activeTrade (runCallbacks env events App.initial) with
  | Some t =>
      exists price side,
        t = RiskService.calculateTradeSetup price
              {| RiskParams.accountBalance := App.accountBalance env;
                 RiskParams.riskPerTradePercentage := App.riskPerTrade env;
                 RiskParams.stopLossPercentage := 0.015;
                 RiskParams.takeProfitPercentage := 0.045 |} side
  | None => True
  end.
Proof.
  change (LogFacts.tradeOk env (runCallbacks env events App.initial)).
  assert (H0 : LogFacts.tradeOk env App.initial) by exact I.
  revert H0. generalize App.initial. unfold runCallbacks.
  induction events as [|[i c] events IH]; intros st Hst; [exact Hst|].
  cbn [fold_left fst snd]. apply IH.
  destruct (onCandle_feed env i c st) as (_ & _ & Et).
  unfold LogFacts.tradeOk in *. rewrite Et.
  destruct (isSignal (detected i c st)); [|exact Hst].
  now apply LogFacts.recordSignal_tradeOk.
Qed.
